(** * Pluggable discovery protocol handler

    A shallow embedding of the Go sources of the handler: the server
    state machine (type [Server] and its methods), the port values
    (port.go), the wire messages (message.go) and the client (type
    [Client] and its methods), followed by the properties of the
    protocol that are proved of them.

    Conventions of the embedding:
    - a Go string is its sequence of bytes; an [int] is an integer of
      [Z] (the handlers never leave the 64-bit range); an [error] is
      the text of the error, nil is [None]; a pointer is an index into
      a store, nil is [None];
    - a method is a function from the state of its receiver to an
      [Outcome]: it returns a value and a new state, or it panics, or
      it waits for ever;
    - what a method takes from outside is an argument: the
      implementation of the [Discovery] interface and the writers are
      type classes over their own state, the results of starting the
      child process, of [select] and of the JSON decoder are inputs;
    - goroutines are run one after the other: a callback of the
      implementation, a command of the consumer and a step of the
      decode loop each run to their end before the next starts. What
      the order of lock operations and channel operations is within one
      of them is kept in the [trace] of the client. *)

From Stdlib Require Import ZArith Ascii String DecimalString List Bool Lia.
From stdpp Require Import base option list strings gmap.

Local Open Scope Z_scope.

(** ** Go values used throughout *)

(** A Go [string] is a sequence of bytes: Rocq's [string] of [ascii]. *)
Definition bytes (l : list N) : string :=
  string_of_list_ascii (map ascii_of_N l).

Definition byte (a : ascii) : N := N_of_ascii a.

Definition NL : string := String "010"%char "".
Definition QUOTE : string := String "034"%char "".

(** [len(s)] *)
Definition len (s : string) : Z := Z.of_nat (String.length s).

(** [s[n:]] for [0 <= n <= len(s)]; the callers below check the bound. *)
Fixpoint drop_bytes (n : nat) (s : string) : string :=
  match n, s with
  | O, _ => s
  | S n', String _ s' => drop_bytes n' s'
  | S _, EmptyString => EmptyString
  end.

(** A Go [error] is modelled by the text its [Error()] method returns;
    [None] is the nil error. *)
Definition error := option string.

(** ** Outcomes of running a piece of Go code on a state *)

Inductive Outcome (S A : Type) : Type :=
| Done (a : A) (s : S)           (* the call returned [a] *)
| Panic (reason : string) (s : S) (* the goroutine panicked in state [s] *)
| Blocked (s : S)                (* waiting for a lock it can never get *)
| OutOfFuel.                      (* the loop bound of the model was reached *)
Arguments Done {S A} a s.
Arguments Panic {S A} reason s.
Arguments Blocked {S A} s.
Arguments OutOfFuel {S A}.

Definition Go (S A : Type) : Type := S -> Outcome S A.

Definition ret {S A} (a : A) : Go S A := fun s => Done a s.

Definition bind {S A B} (m : Go S A) (k : A -> Go S B) : Go S B :=
  fun s =>
    match m s with
    | Done a s' => k a s'
    | Panic r s' => Panic r s'
    | Blocked s' => Blocked s'
    | OutOfFuel => OutOfFuel
    end.

Definition panic {S A} (reason : string) : Go S A := fun s => Panic reason s.
Definition get {S} : Go S S := fun s => Done s s.
Definition modify {S} (f : S -> S) : Go S unit := fun s => Done tt (f s).

Notation "'let*' x ':=' m 'in' k" := (bind m (fun x => k))
  (at level 10, x name, m at level 100, k at level 200).
Notation "'run' m 'then' k" := (bind m (fun _ => k))
  (at level 10, m at level 100, k at level 200).

(** The state an outcome ends in, when there is one. *)
Definition final {S A} (o : Outcome S A) : option S :=
  match o with
  | Done _ s | Panic _ s | Blocked s => Some s
  | OutOfFuel => None
  end.

(** ** The parts of Go's [strings], [strconv] and [regexp] that the
    server uses *)

(** [asciiSpace] of package strings: tab, newline, vertical tab, form
    feed, carriage return, space. *)
Definition isASCIISpace (a : ascii) : bool :=
  match byte a with
  | 9 | 10 | 11 | 12 | 13 | 32 => true
  | _ => false
  end%N.

(** [unicode.IsSpace] on the UTF-8 encodings of the white-space runes
    outside ASCII: U+0085 and U+00A0 take two bytes, U+1680, U+2000 to
    U+200A, U+2028, U+2029, U+202F, U+205F and U+3000 take three. *)
Definition isSpace2 (a b : ascii) : bool :=
  ((byte a =? 194) && ((byte b =? 133) || (byte b =? 160)))%N.

Definition isSpace3 (a b c : ascii) : bool :=
  (((byte a =? 225) && (byte b =? 154) && (byte c =? 128))
   || ((byte a =? 226) && (byte b =? 128)
       && (((128 <=? byte c) && (byte c <=? 138))
           || (byte c =? 168) || (byte c =? 169) || (byte c =? 175)))
   || ((byte a =? 226) && (byte b =? 129) && (byte c =? 159))
   || ((byte a =? 227) && (byte b =? 128) && (byte c =? 128)))%N.

(** [strings.TrimLeftFunc(s, unicode.IsSpace)]: drop leading white-space
    runes. A string that does not start with the full encoding of a
    white-space rune starts with another rune or with an invalid byte
    (decoded as U+FFFD), neither of which is white space. *)
Fixpoint TrimLeftSpace (s : string) : string :=
  match s with
  | String a s1 =>
      if isASCIISpace a then TrimLeftSpace s1
      else
        match s1 with
        | String b s2 =>
            if isSpace2 a b then TrimLeftSpace s2
            else
              match s2 with
              | String c s3 => if isSpace3 a b c then TrimLeftSpace s3 else s
              | EmptyString => s
              end
        | EmptyString => s
        end
  | EmptyString => s
  end.

(** The same from the right end, on the reversed bytes: the last rune is
    found by stepping back to the nearest rune-start byte, and counts
    only when its encoding ends exactly at the end of the string. *)
Fixpoint TrimLeftSpaceRev (r : string) : string :=
  match r with
  | String c r1 =>
      if isASCIISpace c then TrimLeftSpaceRev r1
      else
        match r1 with
        | String b r2 =>
            if isSpace2 b c then TrimLeftSpaceRev r2
            else
              match r2 with
              | String a r3 => if isSpace3 a b c then TrimLeftSpaceRev r3 else r
              | EmptyString => r
              end
        | EmptyString => r
        end
  | EmptyString => r
  end.

Definition TrimRightSpace (s : string) : string :=
  String.rev (TrimLeftSpaceRev (String.rev s)).

(** [strings.TrimSpace] *)
Definition TrimSpace (s : string) : string :=
  TrimRightSpace (TrimLeftSpace s).

(** [strings.Split(s, " ")[0]]: the bytes before the first space, the
    whole string when it has none. *)
Fixpoint firstField (s : string) : string :=
  match s with
  | String a s' => if (byte a =? 32)%N then EmptyString else String a (firstField s')
  | EmptyString => EmptyString
  end.

Definition isASCIIByte (a : ascii) : bool := (byte a <? 128)%N.

Fixpoint isASCII (s : string) : bool :=
  match s with
  | String a s' => isASCIIByte a && isASCII s'
  | EmptyString => true
  end.

Definition upperByte (a : ascii) : ascii :=
  if ((97 <=? byte a) && (byte a <=? 122))%N
  then ascii_of_N (byte a - 32)
  else a.

Fixpoint mapBytes (f : ascii -> ascii) (s : string) : string :=
  match s with
  | String a s' => String (f a) (mapBytes f s')
  | EmptyString => EmptyString
  end.

Definition isDigit (a : ascii) : bool :=
  ((48 <=? byte a) && (byte a <=? 57))%N.

Definition digitVal (a : ascii) : Z := Z.of_N (byte a) - 48.

(** The value of a run of decimal digits, [None] on any other byte. *)
Fixpoint digitsValue (acc : Z) (s : string) : option Z :=
  match s with
  | EmptyString => Some acc
  | String a s' =>
      if isDigit a then digitsValue (10 * acc + digitVal a) s' else None
  end.

(** [strconv.ParseInt(s, 10, 64)]: an optional sign, then at least one
    decimal digit; the value must fit in a signed 64-bit integer.
    The error is kept as its kind. *)
Inductive NumError := ErrSyntax | ErrRange.

Definition ParseInt (s : string) : Z + NumError :=
  let unsigned (neg : bool) (u : string) : Z + NumError :=
    match u with
    | EmptyString => inr ErrSyntax
    | _ =>
        match digitsValue 0 u with
        | None => inr ErrSyntax
        | Some v =>
            if neg then (if v <=? 2 ^ 63 then inl (- v) else inr ErrRange)
            else (if v <? 2 ^ 63 then inl v else inr ErrRange)
        end
    end in
  match s with
  | EmptyString => inr ErrSyntax
  | String a s' =>
      if (byte a =? 43)%N then unsigned false s'
      else if (byte a =? 45)%N then unsigned true s'
      else unsigned false s
  end.

(** The maximal run of decimal digits at the start of [s], and the rest. *)
Fixpoint spanDigits (s : string) : string * string :=
  match s with
  | String a s' =>
      if isDigit a then let '(d, r) := spanDigits s' in (String a d, r)
      else (EmptyString, s)
  | EmptyString => (EmptyString, EmptyString)
  end.

(** [[^"]+"$] : one or more bytes other than the quote, a quote, and the
    end of the text. Returns the bytes before the closing quote. *)
Fixpoint quotedTail (s : string) : option string :=
  match s with
  | EmptyString => None
  | String a s' =>
      if (byte a =? 34)%N then
        match s' with EmptyString => Some EmptyString | _ => None end
      else
        match quotedTail s' with
        | Some body => Some (String a body)
        | None => None
        end
  end.

(** [regexp.MustCompile(`^(\d+) "([^"]+)"$`).FindStringSubmatch(cmd)]:
    the two groups when the whole text matches, [None] when the result
    does not have three elements. [\d] is an ASCII digit; the byte of
    the quote never occurs inside a multi-byte rune, so the class
    [[^"]] is read on bytes. *)
Definition helloRe (cmd : string) : option (string * string) :=
  match spanDigits cmd with
  | (EmptyString, _) => None
  | (digits, String sp (String q rest)) =>
      if ((byte sp =? 32) && (byte q =? 34))%N then
        match quotedTail rest with
        | Some EmptyString => None
        | Some agent => Some (digits, agent)
        | None => None
        end
      else None
  | _ => None
  end.

(** ** Ports and wire messages (port.go, message.go) *)

(** A pointer is an index into a store; [None] is the nil pointer. *)
Abbreviation loc := nat.

(** [type Port struct]. [Properties] is a pointer to an ordered map of
    the properties package, which lives in the store of [PortStore]
    below. *)
Record Port := mkPort {
  Address : string;
  AddressLabel : string;
  Protocol : string;
  ProtocolLabel : string;
  Properties : option loc;
  HardwareID : string
}.

Global Instance Port_eq_dec : EqDecision Port.
Proof. solve_decision. Defined.

(** [type message struct]; the field [Port] is [mPort] here. *)
Record message := mkMessage {
  EventType : string;
  Message : string;
  Error : bool;
  ProtocolVersion : Z;
  mPort : option Port;
  Ports : option (list Port)
}.

Global Instance message_eq_dec : EqDecision message.
Proof. solve_decision. Defined.

Definition messageOk (event : string) : message :=
  {| EventType := event; Message := "OK"; Error := false;
     ProtocolVersion := 0; mPort := None; Ports := None |}.

Definition messageError (event msg : string) : message :=
  {| EventType := event; Message := msg; Error := true;
     ProtocolVersion := 0; mPort := None; Ports := None |}.

(** ** What the handler takes from its environment *)

(** The pieces of the Go runtime and standard library whose tables are
    not part of this repository: the Unicode case table behind
    [strings.ToUpper] on text that is not ASCII, the JSON encoder
    ([json.MarshalIndent(msg, "", "  ")], which returns the bytes or an
    error), and the order in which [range] visits a map, which is some
    order of its entries. *)
Class GoRuntime := {
  MapToUpper : string -> string;
  MarshalIndent : message -> string + string;
  rangeOrder : gmap string Port -> list Port;
  rangeOrder_perm : forall m, rangeOrder m ≡ₚ (map_to_list m).*2
}.

(** [strings.ToUpper]: ASCII text is mapped byte by byte, any other text
    goes through the Unicode table. *)
Definition ToUpper `{GoRuntime} (s : string) : string :=
  if isASCII s then mapBytes upperByte s else MapToUpper s.

(** [io.Writer]: [Write(data)] returns the number of bytes written and
    an error. *)
Class Writer (W : Type) := {
  Write : W -> string -> Z * error * W
}.

(** A call that the implementation makes on the callbacks it was handed
    in [StartSync]. *)
Inductive CallbackCall :=
| CallEvent (event : string) (port : option Port)
| CallError (err : string).

(** [type Discovery interface], over the implementation's own state.
    [StartSync] also returns the calls it made on [eventCB] and
    [errorCB] before returning. *)
Class Discovery (I : Type) := {
  Hello : I -> string -> Z -> error * I;
  StartSync : I -> error * list CallbackCall * I;
  Stop : I -> error * I;
  Quit : I -> I
}.

(** ** The server (discovery server) *)

Section ServerModel.
Context {I W : Type} `{!Discovery I} `{!Writer W} `{!GoRuntime}.

(** [type Server struct]. [cachedPorts] is a Go map, nil until START;
    [output] is nil until [Run]. [emitted] is not a field of the Go
    struct: it lists the messages whose serialisation the writer has
    taken in full, oldest first. [outputMutex] only orders writers of
    several goroutines and is left out: the model runs the command loop
    and the callbacks one after the other. *)
Record Server := mkServer {
  impl : I;
  userAgent : string;
  reqProtocolVersion : Z;
  initialized : bool;
  started : bool;
  syncStarted : bool;
  cachedPorts : option (gmap string Port);
  cachedErr : string;
  output : option W;
  emitted : list message
}.

Definition NewServer (i : I) : Server :=
  {| impl := i; userAgent := ""; reqProtocolVersion := 0;
     initialized := false; started := false; syncStarted := false;
     cachedPorts := None; cachedErr := ""; output := None; emitted := [] |}.

Definition set_impl (i : I) (d : Server) : Server :=
  mkServer i (userAgent d) (reqProtocolVersion d) (initialized d) (started d)
    (syncStarted d) (cachedPorts d) (cachedErr d) (output d) (emitted d).
Definition set_userAgent (u : string) (d : Server) : Server :=
  mkServer (impl d) u (reqProtocolVersion d) (initialized d) (started d)
    (syncStarted d) (cachedPorts d) (cachedErr d) (output d) (emitted d).
Definition set_reqProtocolVersion (v : Z) (d : Server) : Server :=
  mkServer (impl d) (userAgent d) v (initialized d) (started d)
    (syncStarted d) (cachedPorts d) (cachedErr d) (output d) (emitted d).
Definition set_initialized (b : bool) (d : Server) : Server :=
  mkServer (impl d) (userAgent d) (reqProtocolVersion d) b (started d)
    (syncStarted d) (cachedPorts d) (cachedErr d) (output d) (emitted d).
Definition set_started (b : bool) (d : Server) : Server :=
  mkServer (impl d) (userAgent d) (reqProtocolVersion d) (initialized d) b
    (syncStarted d) (cachedPorts d) (cachedErr d) (output d) (emitted d).
Definition set_syncStarted (b : bool) (d : Server) : Server :=
  mkServer (impl d) (userAgent d) (reqProtocolVersion d) (initialized d)
    (started d) b (cachedPorts d) (cachedErr d) (output d) (emitted d).
Definition set_cachedPorts (m : option (gmap string Port)) (d : Server) : Server :=
  mkServer (impl d) (userAgent d) (reqProtocolVersion d) (initialized d)
    (started d) (syncStarted d) m (cachedErr d) (output d) (emitted d).
Definition set_cachedErr (e : string) (d : Server) : Server :=
  mkServer (impl d) (userAgent d) (reqProtocolVersion d) (initialized d)
    (started d) (syncStarted d) (cachedPorts d) e (output d) (emitted d).
Definition set_output (o : option W) (d : Server) : Server :=
  mkServer (impl d) (userAgent d) (reqProtocolVersion d) (initialized d)
    (started d) (syncStarted d) (cachedPorts d) (cachedErr d) o (emitted d).
Definition set_emitted (l : list message) (d : Server) : Server :=
  mkServer (impl d) (userAgent d) (reqProtocolVersion d) (initialized d)
    (started d) (syncStarted d) (cachedPorts d) (cachedErr d) (output d) l.

(** The session state that the protocol speaks of. *)
Definition session (d : Server)
  : bool * bool * bool * option (gmap string Port) * string * string * Z :=
  (initialized d, started d, syncStarted d, cachedPorts d, cachedErr d,
   userAgent d, reqProtocolVersion d).

(** The bytes that [send] writes for [msg], and the message they
    encode: [msg] itself, or the [command_error] that stands in for it
    when the encoder refuses [msg] ([None] when it refuses that too and
    only the newline is left). *)
Definition wireData (msg : message) : string * option message :=
  match MarshalIndent msg with
  | inl data => (data +:+ NL, Some msg)
  | inr err =>
      let fallback := messageError "command_error" err in
      match MarshalIndent fallback with
      | inl data => (data +:+ NL, Some fallback)
      | inr _ => (NL, None)
      end
  end.

(** [func (d *Server) send(msg *message)] *)
Definition send (msg : message) : Go Server unit := fun d =>
  let '(data, wire) := wireData msg in
  match output d with
  | None => Panic "invalid memory address or nil pointer dereference" d
  | Some o =>
      let '(n, err, o') := Write o data in
      if negb (n =? len data) || bool_decide (err ≠ None)
      then Panic "ERROR" (set_output (Some o') d)
      else Done tt (set_emitted (emitted d ++ option_list wire)
                      (set_output (Some o') d))
  end.

Definition callHello (agent : string) (version : Z) : Go Server error := fun d =>
  let '(err, i') := Hello (impl d) agent version in
  Done err (set_impl i' d).

(** [func (d *Server) hello(cmd string)] *)
Definition hello (cmd : string) : Go Server unit :=
  let* d := get in
  if initialized d then send (messageError "hello" "HELLO already called")
  else
    match helloRe cmd with
    | None => send (messageError "hello" "Invalid HELLO command")
    | Some (version, agent) =>
        run modify (set_userAgent agent) then
        match ParseInt version with
        | inr _ =>
            send (messageError "hello" ("Invalid protocol version: " +:+ agent))
        | inl v =>
            run modify (set_reqProtocolVersion v) then
            let* err := callHello agent 1 in
            match err with
            | Some e => send (messageError "hello" e)
            | None =>
                run send {| EventType := "hello"; Message := "OK";
                            Error := false; ProtocolVersion := 1;
                            mPort := None; Ports := None |} then
                modify (set_initialized true)
            end
        end
    end.

(** [id := port.Address + "|" + port.Protocol] *)
Definition portID (p : Port) : string := Address p +:+ "|" +:+ Protocol p.

(** [func (d *Server) eventCallback(event string, port *Port)] *)
Definition eventCallback (event : string) (port : option Port) : Go Server unit :=
  match port with
  | None => panic "invalid memory address or nil pointer dereference"
  | Some p =>
      let id := portID p in
      run (if String.eqb event "add" then
             let* d := get in
             match cachedPorts d with
             | None => panic "assignment to entry in nil map"
             | Some m => modify (set_cachedPorts (Some (<[id := p]> m)))
             end
           else ret tt) then
      if String.eqb event "remove" then
        modify (fun d => set_cachedPorts (delete id <$> cachedPorts d) d)
      else ret tt
  end.

(** [func (d *Server) errorCallback(msg string)] *)
Definition errorCallback (msg : string) : Go Server unit :=
  modify (set_cachedErr msg).

(** [func (d *Server) syncEvent(event string, port *Port)] *)
Definition syncEvent (event : string) (port : option Port) : Go Server unit :=
  send {| EventType := event; Message := ""; Error := false;
          ProtocolVersion := 0; mPort := port; Ports := None |}.

(** [func (d *Server) errorEvent(msg string)] *)
Definition errorEvent (msg : string) : Go Server unit :=
  send (messageError "start_sync" msg).

Fixpoint runCalls (eventCB : string -> option Port -> Go Server unit)
    (errorCB : string -> Go Server unit) (calls : list CallbackCall)
  : Go Server unit :=
  match calls with
  | [] => ret tt
  | CallEvent event port :: rest =>
      run eventCB event port then runCalls eventCB errorCB rest
  | CallError err :: rest =>
      run errorCB err then runCalls eventCB errorCB rest
  end.

(** [d.impl.StartSync(eventCB, errorCB)]: the implementation runs, its
    calls on the two callbacks take effect on the server in the order
    it made them, and its result comes back. *)
Definition callStartSync (eventCB : string -> option Port -> Go Server unit)
    (errorCB : string -> Go Server unit) : Go Server error := fun d =>
  let '(err, calls, i') := StartSync (impl d) in
  (run runCalls eventCB errorCB calls then ret err) (set_impl i' d).

(** [func (d *Server) start()] *)
Definition start : Go Server unit :=
  let* d := get in
  if started d then send (messageError "start" "Discovery already STARTed")
  else if syncStarted d then
    send (messageError "start" "Discovery already START_SYNCed, cannot START")
  else
    run modify (set_cachedPorts (Some ∅)) then
    run modify (set_cachedErr "") then
    let* err := callStartSync eventCallback errorCallback in
    match err with
    | Some e => send (messageError "start" ("Cannot START: " +:+ e))
    | None =>
        run modify (set_started true) then
        send (messageOk "start")
    end.

(** [func (d *Server) list()] *)
Definition list_ : Go Server unit :=
  let* d := get in
  if negb (started d) then send (messageError "list" "Discovery not STARTed")
  else if syncStarted d then
    send (messageError "list" "discovery already START_SYNCed, LIST not allowed")
  else if negb (String.eqb (cachedErr d) "") then
    send (messageError "list" (cachedErr d))
  else
    let ports := rangeOrder (default ∅ (cachedPorts d)) in
    send {| EventType := "list"; Message := ""; Error := false;
            ProtocolVersion := 0; mPort := None; Ports := Some ports |}.

(** [func (d *Server) startSync()] *)
Definition startSync : Go Server unit :=
  let* d := get in
  if syncStarted d then
    send (messageError "start_sync" "Discovery already START_SYNCed")
  else if started d then
    send (messageError "start_sync" "Discovery already STARTed, cannot START_SYNC")
  else
    let* err := callStartSync syncEvent errorEvent in
    match err with
    | Some e => send (messageError "start_sync" ("Cannot START_SYNC: " +:+ e))
    | None =>
        run modify (set_syncStarted true) then
        send (messageOk "start_sync")
    end.

Definition callStop : Go Server error := fun d =>
  let '(err, i') := Stop (impl d) in Done err (set_impl i' d).

(** [func (d *Server) stop()] *)
Definition stop : Go Server unit :=
  let* d := get in
  if negb (syncStarted d) && negb (started d) then
    send (messageError "stop" "Discovery already STOPped")
  else
    let* err := callStop in
    match err with
    | Some e => send (messageError "stop" ("Cannot STOP: " +:+ e))
    | None =>
        run modify (set_started false) then
        run (let* d := get in
             if syncStarted d then modify (set_syncStarted false) else ret tt) then
        send (messageOk "stop")
    end.

(** What one turn of the loop in [Run] does next. *)
Inductive Ctl := Continue | Return (err : error).

(** [cmd := strings.ToUpper(strings.Split(strings.TrimSpace(fullCmd), " ")[0])] *)
Definition commandOf (line : string) : string :=
  ToUpper (firstField (TrimSpace line)).

(** The body of the loop of [Run] from the point where
    [reader.ReadString] has returned [line] without error. *)
Definition runCommand (line : string) : Go Server Ctl :=
  let fullCmd := TrimSpace line in
  let cmd := ToUpper (firstField fullCmd) in
  let* d := get in
  if negb (initialized d) && negb (String.eqb cmd "HELLO")
     && negb (String.eqb cmd "QUIT") then
    run send (messageError "command_error"
                ("First command must be HELLO, but got '" +:+ cmd +:+ "'")) then
    ret Continue
  else if String.eqb cmd "HELLO" then
    run (if len fullCmd <? 7 then hello "" else hello (drop_bytes 6 fullCmd)) then
    ret Continue
  else if String.eqb cmd "START" then run start then ret Continue
  else if String.eqb cmd "LIST" then run list_ then ret Continue
  else if String.eqb cmd "START_SYNC" then run startSync then ret Continue
  else if String.eqb cmd "STOP" then run stop then ret Continue
  else if String.eqb cmd "QUIT" then
    run modify (fun d => set_impl (Quit (impl d)) d) then
    run send (messageOk "quit") then
    ret (Return None)
  else
    run send (messageError "command_error"
                ("Command " +:+ cmd +:+ " not supported")) then
    ret Continue.

(** A method value of the server that the implementation holds and may
    call from its own goroutines between two commands. *)
Inductive Callback :=
| CbEventCallback (event : string) (port : option Port)
| CbErrorCallback (msg : string)
| CbSyncEvent (event : string) (port : option Port)
| CbErrorEvent (msg : string).

Definition invoke (c : Callback) : Go Server unit :=
  match c with
  | CbEventCallback event port => eventCallback event port
  | CbErrorCallback msg => errorCallback msg
  | CbSyncEvent event port => syncEvent event port
  | CbErrorEvent msg => errorEvent msg
  end.

(** What happens to the server, in order: a line that
    [reader.ReadString('\n')] returns, or a callback of the
    implementation. *)
Inductive Input :=
| Line (line : string)
| Async (c : Callback).

(** The loop of [Run]. When the inputs are used up, [ReadString] fails
    with [readErr] (the text of [io.EOF] at the end of the input). *)
Fixpoint runLoop (inputs : list Input) (readErr : string) : Go Server error :=
  match inputs with
  | [] =>
      run send (messageError "command_error" readErr) then
      ret (Some readErr)
  | Async c :: rest => run invoke c then runLoop rest readErr
  | Line line :: rest =>
      let* ctl := runCommand line in
      match ctl with
      | Continue => runLoop rest readErr
      | Return err => ret err
      end
  end.

(** [func (d *Server) Run(in io.Reader, out io.Writer) error] *)
Definition Run (inputs : list Input) (readErr : string) (out : W)
  : Go Server error :=
  run modify (set_output (Some out)) then
  runLoop inputs readErr.

End ServerModel.
Arguments Server : clear implicits.

(** ** Ports behind pointers (port.go) *)

Module PortStore.

(** Modelled from the spec: the ordered map of the properties package
    (github.com/arduino/go-properties-orderedmap, not part of this
    repository), "an ordered mapping from string to string preserving
    insertion order". Its [Clone] returns a new map with the same
    entries in the same order. *)
Definition PropMap := list (string * string).

(** The store: the [Port] structs and the property maps that pointers
    refer to. A pointer is the index of its target. *)
Record Heap := mkHeap {
  ports : list Port;
  props : list PropMap
}.

Definition set_ports (l : list Port) (h : Heap) : Heap := mkHeap l (props h).
Definition set_props (l : list PropMap) (h : Heap) : Heap := mkHeap (ports h) l.

Definition nilDeref {A} : Go Heap A :=
  panic "invalid memory address or nil pointer dereference".

(** [*p] *)
Definition deref (p : option loc) : Go Heap Port := fun h =>
  match p with
  | None => nilDeref h
  | Some l =>
      match ports h !! l with
      | Some v => Done v h
      | None => nilDeref h
      end
  end.

(** [func (m *Map) Clone() *Map] of the properties package. *)
Definition propsClone (m : loc) : Go Heap loc := fun h =>
  match props h !! m with
  | Some entries => Done (length (props h)) (set_props (props h ++ [entries]) h)
  | None => nilDeref h
  end.

(** Any later change of the entries of the map at [m]. *)
Definition mutateProps (m : loc) (f : PropMap -> PropMap) (h : Heap) : Heap :=
  set_props (alter f m (props h)) h.

Definition withProperties (m : option loc) (v : Port) : Port :=
  mkPort (Address v) (AddressLabel v) (Protocol v) (ProtocolLabel v) m
    (HardwareID v).

(** [func (p *Port) Equals(o *Port) bool] *)
Definition Equals (p o : option loc) : Go Heap bool :=
  let* vp := deref p in
  let* vo := deref o in
  ret (String.eqb (Address vp) (Address vo)
       && String.eqb (Protocol vp) (Protocol vo)).

(** [func (p *Port) Clone() *Port]: [res := *p] is a new struct, whose
    address is returned. *)
Definition Clone (p : option loc) : Go Heap (option loc) :=
  match p with
  | None => ret None
  | Some _ =>
      let* v := deref p in
      let* h := get in
      let res := length (ports h) in
      run modify (set_ports (ports h ++ [v])) then
      run match Properties v with
          | Some m =>
              let* m' := propsClone m in
              modify (fun h => set_ports
                                 (alter (withProperties (Some m')) res (ports h)) h)
          | None => ret tt
          end then
      ret (Some res)
  end.

End PortStore.

(** ** The client (discovery client) *)

Module DiscoveryClient.

(** [type discoveryMessage struct]; the field [Port] is [mPort] here. *)
Record discoveryMessage := mkDiscoveryMessage {
  EventType : string;
  Message : string;
  Error : bool;
  ProtocolVersion : Z;
  Ports : list Port;
  mPort : option Port
}.

(** [type Event struct]; the fields [Type] and [Port] are [Type_] and
    [ePort] here. *)
Record Event := mkEvent {
  Type_ : string;
  ePort : option Port;
  DiscoveryID : string
}.

Global Instance Event_eq_dec : EqDecision Event.
Proof. solve_decision. Defined.

(** A channel of events made by [make(chan *Event, size)]: its
    capacity, the events sent on it so far, and whether it is closed.
    A send that finds the buffer full waits for the consumer; the model
    records the sends in the order in which they complete. *)
Record Chan := mkChan {
  capacity : Z;
  queue : list Event;
  closed : bool
}.

(** The operating-system process behind [disc.process]. *)
Inductive Child := NotStarted | Running | Killed.

(** What the client does that others can observe, in order. *)
Inductive Action :=
| ALock
| AUnlock
| ACommand (command : string)
| ASend (c : loc) (e : Event)
| AClose (c : loc)
| AMake (c : loc) (size : Z)
| ADeliver (msg : discoveryMessage)
| ACloseIncoming
| AKill.

(** Whether the status mutex is held after the actions [tr], starting
    from a free mutex. *)
Definition mutexHeldAfter (tr : list Action) : bool :=
  fold_left (fun held a =>
               match a with
               | ALock => true
               | AUnlock => false
               | _ => held
               end) tr false.

(** The commands written to the child, in order. *)
Definition commands (tr : list Action) : list string :=
  omap (fun a => match a with ACommand c => Some c | _ => None end) tr.

(** What the operating system answers to the steps of [runProcess]:
    [paths.NewProcess], [StdoutPipe], [StdinPipe] and [Start]. *)
Record Spawn := mkSpawn {
  newProcessErr : error;
  stdoutPipeErr : error;
  stdinPipeErr : error;
  startErr : error
}.

(** The case of the [select] in [waitMessage] that fires: a receive from
    the channel of incoming messages (of a message, or of nil once the
    decode loop has closed the channel), or the timer. *)
Inductive Select :=
| RecvMsg (msg : option discoveryMessage)
| TimeAfter.

(** What [decoder.Decode] returns next. *)
Inductive Decoded :=
| DecEOF
| DecErr (err : string)
| DecMsg (msg : discoveryMessage).

Section ClientModel.
Context {P : Type} `{!Writer P} `{!GoRuntime}.

(** [type Client struct]. [statusMutex] is [true] while locked.
    [process] is a pointer to the process handle. The channel of
    incoming messages is kept as the list of the messages handed to it
    and a flag for its closing. [chans], [child] and [trace] are not
    fields of the Go struct: the store of event channels (a channel
    value is an index into it), the state of the child process, and the
    actions so far. The logger takes no part in the protocol and is
    left out. *)
Record Client := mkClient {
  id : string;
  processArgs : list string;
  process : option unit;
  outgoingCommandsPipe : option P;
  incoming : list discoveryMessage;
  incomingClosed : bool;
  userAgent : string;
  statusMutex : bool;
  incomingMessagesError : error;
  eventChan : option loc;
  chans : list Chan;
  child : Child;
  trace : list Action
}.

(** [func NewClient(id string, args ...string) *Client] *)
Definition NewClient (id : string) (args : list string) : Client :=
  {| id := id; processArgs := args; process := None;
     outgoingCommandsPipe := None; incoming := []; incomingClosed := false;
     userAgent := "pluggable-discovery-protocol-handler";
     statusMutex := false; incomingMessagesError := None; eventChan := None;
     chans := []; child := NotStarted; trace := [] |}.

Definition set_process (x : option unit) (d : Client) : Client :=
  mkClient (id d) (processArgs d) x (outgoingCommandsPipe d) (incoming d)
    (incomingClosed d) (userAgent d) (statusMutex d) (incomingMessagesError d)
    (eventChan d) (chans d) (child d) (trace d).
Definition set_outgoingCommandsPipe (x : option P) (d : Client) : Client :=
  mkClient (id d) (processArgs d) (process d) x (incoming d)
    (incomingClosed d) (userAgent d) (statusMutex d) (incomingMessagesError d)
    (eventChan d) (chans d) (child d) (trace d).
Definition set_incoming (x : list discoveryMessage) (d : Client) : Client :=
  mkClient (id d) (processArgs d) (process d) (outgoingCommandsPipe d) x
    (incomingClosed d) (userAgent d) (statusMutex d) (incomingMessagesError d)
    (eventChan d) (chans d) (child d) (trace d).
Definition set_incomingClosed (x : bool) (d : Client) : Client :=
  mkClient (id d) (processArgs d) (process d) (outgoingCommandsPipe d)
    (incoming d) x (userAgent d) (statusMutex d) (incomingMessagesError d)
    (eventChan d) (chans d) (child d) (trace d).
Definition set_userAgent (x : string) (d : Client) : Client :=
  mkClient (id d) (processArgs d) (process d) (outgoingCommandsPipe d)
    (incoming d) (incomingClosed d) x (statusMutex d) (incomingMessagesError d)
    (eventChan d) (chans d) (child d) (trace d).
Definition set_statusMutex (x : bool) (d : Client) : Client :=
  mkClient (id d) (processArgs d) (process d) (outgoingCommandsPipe d)
    (incoming d) (incomingClosed d) (userAgent d) x (incomingMessagesError d)
    (eventChan d) (chans d) (child d) (trace d).
Definition set_incomingMessagesError (x : error) (d : Client) : Client :=
  mkClient (id d) (processArgs d) (process d) (outgoingCommandsPipe d)
    (incoming d) (incomingClosed d) (userAgent d) (statusMutex d) x
    (eventChan d) (chans d) (child d) (trace d).
Definition set_eventChan (x : option loc) (d : Client) : Client :=
  mkClient (id d) (processArgs d) (process d) (outgoingCommandsPipe d)
    (incoming d) (incomingClosed d) (userAgent d) (statusMutex d)
    (incomingMessagesError d) x (chans d) (child d) (trace d).
Definition set_chans (x : list Chan) (d : Client) : Client :=
  mkClient (id d) (processArgs d) (process d) (outgoingCommandsPipe d)
    (incoming d) (incomingClosed d) (userAgent d) (statusMutex d)
    (incomingMessagesError d) (eventChan d) x (child d) (trace d).
Definition set_child (x : Child) (d : Client) : Client :=
  mkClient (id d) (processArgs d) (process d) (outgoingCommandsPipe d)
    (incoming d) (incomingClosed d) (userAgent d) (statusMutex d)
    (incomingMessagesError d) (eventChan d) (chans d) x (trace d).
Definition set_trace (x : list Action) (d : Client) : Client :=
  mkClient (id d) (processArgs d) (process d) (outgoingCommandsPipe d)
    (incoming d) (incomingClosed d) (userAgent d) (statusMutex d)
    (incomingMessagesError d) (eventChan d) (chans d) (child d) x.

Definition act (a : Action) : Go Client unit :=
  modify (fun d => set_trace (trace d ++ [a]) d).

(** [func (disc *Client) SetUserAgent(userAgent string)] *)
Definition SetUserAgent (userAgent : string) : Go Client unit :=
  modify (set_userAgent userAgent).

(** [disc.statusMutex.Lock()]: a goroutine that locks a mutex it holds
    waits for ever. *)
Definition Lock : Go Client unit := fun d =>
  if statusMutex d then Blocked d
  else (run modify (set_statusMutex true) then act ALock) d.

(** [disc.statusMutex.Unlock()] *)
Definition Unlock : Go Client unit := fun d =>
  if statusMutex d
  then (run modify (set_statusMutex false) then act AUnlock) d
  else Panic "sync: unlock of unlocked mutex" d.

(** [c <- e] *)
Definition chanSend (c : loc) (e : Event) : Go Client unit := fun d =>
  match chans d !! c with
  | Some ch =>
      if closed ch then Panic "send on closed channel" d
      else (run modify (set_chans
                          (<[c := mkChan (capacity ch) (queue ch ++ [e]) false]>
                             (chans d))) then
            act (ASend c e)) d
  | None => Panic "invalid memory address or nil pointer dereference" d
  end.

(** [close(c)] *)
Definition chanClose (c : loc) : Go Client unit := fun d =>
  match chans d !! c with
  | Some ch =>
      if closed ch then Panic "close of closed channel" d
      else (run modify (set_chans
                          (<[c := mkChan (capacity ch) (queue ch) true]> (chans d))) then
            act (AClose c)) d
  | None => Panic "close of nil channel" d
  end.

(** [make(chan *Event, size)] *)
Definition chanMake (size : Z) : Go Client loc := fun d =>
  if size <? 0 then Panic "makechan: size out of range" d
  else
    let c := length (chans d) in
    (run modify (set_chans (chans d ++ [mkChan size [] false])) then
     run act (AMake c size) then
     ret c) d.

(** [func (disc *Client) stopSync()] *)
Definition stopSync : Go Client unit :=
  let* d := get in
  match eventChan d with
  | Some c =>
      run chanSend c {| Type_ := "stop"; ePort := None; DiscoveryID := id d |} then
      run chanClose c then
      modify (set_eventChan None)
  | None => ret tt
  end.

(** [func (disc *Client) killProcess()] *)
Definition killProcess : Go Client unit :=
  run Lock then
  run (let* d := get in
       match process d with
       | Some _ =>
           run modify (set_process None) then
           run modify (set_child Killed) then
           act AKill
       | None => ret tt
       end) then
  Unlock.

(** [outChan <- &msg] in the decode loop. *)
Definition deliver (msg : discoveryMessage) : Go Client unit := fun d =>
  if incomingClosed d then Panic "send on closed channel" d
  else (run modify (set_incoming (incoming d ++ [msg])) then
        act (ADeliver msg)) d.

(** [close(outChan)] *)
Definition closeIncoming : Go Client unit := fun d =>
  if incomingClosed d then Panic "close of closed channel" d
  else (run modify (set_incomingClosed true) then act ACloseIncoming) d.

(** The closure [closeAndReportError] of [jsonDecodeLoop]. *)
Definition closeAndReportError (err : error) : Go Client unit :=
  run Lock then
  run modify (set_incomingMessagesError err) then
  run Unlock then
  run stopSync then
  run killProcess then
  closeIncoming.

(** The part of the loop of [jsonDecodeLoop] for a decoded ["add"] or
    ["remove"] message that has a port. *)
Definition forwardEvent (type : string) (port : Port) : Go Client unit :=
  run Lock then
  run (let* d := get in
       match eventChan d with
       | Some c =>
           chanSend c {| Type_ := type; ePort := Some port; DiscoveryID := id d |}
       | None => ret tt
       end) then
  Unlock.

(** [func (disc *Client) jsonDecodeLoop(in io.Reader, outChan chan<- *discoveryMessage)]
    on the results that [decoder.Decode] gives one after the other.
    When they are used up the loop is waiting for more input. *)
Fixpoint jsonDecodeLoop (stream : list Decoded) : Go Client unit :=
  match stream with
  | [] => ret tt
  | DecEOF :: _ => closeAndReportError None
  | DecErr err :: _ => closeAndReportError (Some err)
  | DecMsg msg :: rest =>
      if String.eqb (EventType msg) "add" then
        match mPort msg with
        | None => closeAndReportError (Some "invalid 'add' message: missing port")
        | Some port => run forwardEvent "add" port then jsonDecodeLoop rest
        end
      else if String.eqb (EventType msg) "remove" then
        match mPort msg with
        | None => closeAndReportError (Some "invalid 'remove' message: missing port")
        | Some port => run forwardEvent "remove" port then jsonDecodeLoop rest
        end
      else run deliver msg then jsonDecodeLoop rest
  end.

(** [func (disc *Client) Alive() bool] *)
Definition Alive : Go Client bool :=
  run Lock then
  let* d := get in
  run Unlock then
  ret (bool_decide (process d ≠ None)).

(** [func (disc *Client) waitMessage(timeout time.Duration)], which
    returns a message pointer and an error. *)
Definition waitMessage (sel : Select)
  : Go Client (option discoveryMessage * error) :=
  let* d := get in
  match sel with
  | RecvMsg None => ret (None, incomingMessagesError d)
  | RecvMsg (Some msg) => ret (Some msg, None)
  | TimeAfter => ret (None, Some ("timeout waiting for message from " +:+ id d))
  end.

(** The loop of [sendCommand]: at most [fuel] calls of [Write]. *)
Fixpoint writeAll (fuel : nat) (data : string) : Go Client error :=
  match fuel with
  | O => fun _ => OutOfFuel
  | S fuel' =>
      fun d =>
        match outgoingCommandsPipe d with
        | None => Panic "invalid memory address or nil pointer dereference" d
        | Some w =>
            let '(n, err, w') := Write w data in
            let d' := set_outgoingCommandsPipe (Some w') d in
            match err with
            | Some e => Done (Some e) d'
            | None =>
                if n =? len data then Done None d'
                else if (n <? 0) || (len data <? n)
                then Panic "slice bounds out of range" d'
                else writeAll fuel' (drop_bytes (Z.to_nat n) data) d'
            end
        end
  end.

(** [func (disc *Client) sendCommand(command string) error]. A writer
    that takes at least one byte per call needs no more calls than the
    command has bytes. *)
Definition sendCommand (command : string) : Go Client error :=
  run act (ACommand command) then
  writeAll (S (String.length command)) command.

(** [func (disc *Client) runProcess() error]; [stdin] is the pipe that
    [proc.StdinPipe()] returns. *)
Definition runProcess (sp : Spawn) (stdin : P) : Go Client error :=
  match newProcessErr sp with
  | Some e => ret (Some e)
  | None =>
  match stdoutPipeErr sp with
  | Some e => ret (Some e)
  | None =>
  match stdinPipeErr sp with
  | Some e => ret (Some e)
  | None =>
      run modify (set_outgoingCommandsPipe (Some stdin)) then
      run modify (set_incoming []) then
      run modify (set_incomingClosed false) then
      match startErr sp with
      | Some e => ret (Some e)
      | None =>
          run Lock then
          run modify (set_process (Some tt)) then
          run modify (set_child Running) then
          run Unlock then
          ret None
      end
  end end end.

Definition itoa (n : Z) : string := NilZero.string_of_int (Z.to_int n).

(** The statements of [Run] after the [defer]: the HELLO exchange. The
    result is the value of the named result [err] at the return. *)
Definition helloExchange (sel : Select) : Go Client error :=
  let* d := get in
  let* err := sendCommand ("HELLO 1 " +:+ QUOTE +:+ "arduino-cli "
                             +:+ userAgent d +:+ QUOTE +:+ NL) in
  match err with
  | Some e => ret (Some e)
  | None =>
      let* r := waitMessage sel in
      match r with
      | (_, Some e) => ret (Some ("calling HELLO: " +:+ e))
      | (None, None) => panic "invalid memory address or nil pointer dereference"
      | (Some msg, None) =>
          if negb (String.eqb (EventType msg) "hello") then
            ret (Some ("event out of sync, expected 'hello', received '"
                         +:+ EventType msg +:+ "'"))
          else if Error msg then
            ret (Some ("command failed: " +:+ Message msg))
          else if negb (String.eqb (ToUpper (Message msg)) "OK") then
            ret (Some ("communication out of sync, expected 'OK', received '"
                         +:+ Message msg +:+ "'"))
          else if 1 <? ProtocolVersion msg then
            ret (Some ("protocol version not supported: requested 1, got "
                         +:+ itoa (ProtocolVersion msg)))
          else ret None
      end
  end.

(** [func (disc *Client) Run() (err error)]. The deferred function runs
    when [Run] returns and kills the process when [err] is not nil. On
    the one panic of the exchange (a nil message with a nil error) the
    deferred function finds [err] nil and does nothing. *)
Definition Run (sp : Spawn) (stdin : P) (sel : Select) : Go Client error :=
  let* err := runProcess sp stdin in
  match err with
  | Some e => ret (Some e)
  | None =>
      let* err := helloExchange sel in
      match err with
      | None => ret None
      | Some e => run killProcess then ret (Some e)
      end
  end.

(** [func (disc *Client) Start() error] *)
Definition Start (sel : Select) : Go Client error :=
  let* err := sendCommand ("START" +:+ NL) in
  match err with
  | Some e => ret (Some e)
  | None =>
      let* r := waitMessage sel in
      match r with
      | (_, Some e) => ret (Some ("calling START: " +:+ e))
      | (None, None) => panic "invalid memory address or nil pointer dereference"
      | (Some msg, None) =>
          if negb (String.eqb (EventType msg) "start") then
            ret (Some ("event out of sync, expected 'start', received '"
                         +:+ EventType msg +:+ "'"))
          else if Error msg then
            ret (Some ("command failed: " +:+ Message msg))
          else if negb (String.eqb (ToUpper (Message msg)) "OK") then
            ret (Some ("communication out of sync, expected 'OK', received '"
                         +:+ Message msg +:+ "'"))
          else ret None
      end
  end.

(** [func (disc *Client) Stop() error] *)
Definition Stop (sel : Select) : Go Client error :=
  let* err := sendCommand ("STOP" +:+ NL) in
  match err with
  | Some e => ret (Some e)
  | None =>
      let* r := waitMessage sel in
      match r with
      | (_, Some e) => ret (Some ("calling STOP: " +:+ e))
      | (None, None) => panic "invalid memory address or nil pointer dereference"
      | (Some msg, None) =>
          if negb (String.eqb (EventType msg) "stop") then
            ret (Some ("event out of sync, expected 'stop', received '"
                         +:+ EventType msg +:+ "'"))
          else if Error msg then
            ret (Some ("command failed: " +:+ Message msg))
          else if negb (String.eqb (ToUpper (Message msg)) "OK") then
            ret (Some ("communication out of sync, expected 'OK', received '"
                         +:+ Message msg +:+ "'"))
          else
            run Lock then
            run stopSync then
            run Unlock then
            ret None
      end
  end.

(** [func (disc *Client) Quit()] *)
Definition Quit (sel : Select) : Go Client unit :=
  let* _err := sendCommand ("QUIT" +:+ NL) in
  let* _r := waitMessage sel in
  run stopSync then
  killProcess.

(** [func (disc *Client) List() ([]*Port, error)] *)
Definition List (sel : Select) : Go Client (list Port * error) :=
  let* err := sendCommand ("LIST" +:+ NL) in
  match err with
  | Some e => ret ([], Some e)
  | None =>
      let* r := waitMessage sel in
      match r with
      | (_, Some e) => ret ([], Some ("calling LIST: " +:+ e))
      | (None, None) => panic "invalid memory address or nil pointer dereference"
      | (Some msg, None) =>
          if negb (String.eqb (EventType msg) "list") then
            ret ([], Some ("event out of sync, expected 'list', received '"
                             +:+ EventType msg +:+ "'"))
          else if Error msg then
            ret ([], Some ("command failed: " +:+ Message msg))
          else ret (Ports msg, None)
      end
  end.

(** The statements of [StartSync] between [Lock] and the deferred
    [Unlock]. *)
Definition startSyncLocked (size : Z) (sel : Select)
  : Go Client (option loc * error) :=
  let* err := sendCommand ("START_SYNC" +:+ NL) in
  match err with
  | Some e => ret (None, Some e)
  | None =>
      let* r := waitMessage sel in
      match r with
      | (_, Some e) => ret (None, Some ("calling START_SYNC: " +:+ e))
      | (None, None) => panic "invalid memory address or nil pointer dereference"
      | (Some msg, None) =>
          if negb (String.eqb (EventType msg) "start_sync") then
            ret (None, Some ("evemt out of sync, expected 'start_sync', received '"
                               +:+ EventType msg +:+ "'"))
          else if Error msg then
            ret (None, Some ("command failed: " +:+ Message msg))
          else if negb (String.eqb (ToUpper (Message msg)) "OK") then
            ret (None, Some ("communication out of sync, expected 'OK', received '"
                               +:+ Message msg +:+ "'"))
          else
            run stopSync then
            let* c := chanMake size in
            run modify (set_eventChan (Some c)) then
            ret (Some c, None)
      end
  end.

(** [func (disc *Client) StartSync(size int) (<-chan *Event, error)] *)
Definition StartSync (size : Z) (sel : Select) : Go Client (option loc * error) :=
  run Lock then
  let* r := startSyncLocked size sel in
  run Unlock then
  ret r.

(** Whether [c] is an event channel that was made and is not closed. *)
Definition isOpen (d : Client) (c : loc) : bool :=
  match chans d !! c with
  | Some ch => negb (closed ch)
  | None => false
  end.

(** At most one event channel is active, and it is the one in the slot
    [eventChan]: the slot holds an open channel or nil, and every other
    channel that was ever made is closed. *)
Definition oneActive (d : Client) : Prop :=
  (forall c, eventChan d = Some c -> isOpen d c = true)
  /\ (forall c, isOpen d c = true -> eventChan d = Some c).

(** The synthetic event that [stopSync] sends before closing. *)
Definition stopEvent (d : Client) : Event :=
  {| Type_ := "stop"; ePort := None; DiscoveryID := id d |}.

(** The reply that [StartSync] accepts. *)
Definition startSyncOk (msg : discoveryMessage) : Prop :=
  EventType msg = "start_sync" /\ Error msg = false
  /\ ToUpper (Message msg) = "OK".



(** [m] keeps [oneActive], whatever way it ends. *)
Definition keeps {A} (m : Go Client A) : Prop :=
  forall d, oneActive d ->
    match m d with
    | Done _ d' | Panic _ d' | Blocked d' => oneActive d'
    | OutOfFuel => True
    end.

(** The slot is empty and every channel is closed, as after [stopSync]. *)
Definition allClosed (d : Client) : Prop :=
  eventChan d = None /\ forall x ch, chans d !! x = Some ch -> closed ch = true.

(** A call of one of the client's operations, by the consumer or, for
    the decode loop, by the goroutine that [runProcess] starts; the
    calls of a session run one after the other. *)
Inductive Call :=
| CallSetUserAgent (userAgent : string)
| CallAlive
| CallRun (sp : Spawn) (stdin : P) (sel : Select)
| CallStart (sel : Select)
| CallStop (sel : Select)
| CallQuit (sel : Select)
| CallList (sel : Select)
| CallStartSync (size : Z) (sel : Select)
| CallDecode (stream : list Decoded).

Definition perform (c : Call) : Go Client unit :=
  match c with
  | CallSetUserAgent userAgent => SetUserAgent userAgent
  | CallAlive => run Alive then ret tt
  | CallRun sp stdin sel => run Run sp stdin sel then ret tt
  | CallStart sel => run Start sel then ret tt
  | CallStop sel => run Stop sel then ret tt
  | CallQuit sel => Quit sel
  | CallList sel => run List sel then ret tt
  | CallStartSync size sel => run StartSync size sel then ret tt
  | CallDecode stream => jsonDecodeLoop stream
  end.

Fixpoint performAll (calls : list Call) : Go Client unit :=
  match calls with
  | [] => ret tt
  | c :: rest => run perform c then performAll rest
  end.

End ClientModel.
Arguments Client : clear implicits.
Arguments Call : clear implicits.

End DiscoveryClient.

(** ** Notions used in the statements about the server *)

(** The writer takes every write in full. *)
Definition reliable (W : Type) `{!Writer W} : Prop :=
  forall (w : W) (data : string), exists w', Write w data = (len data, None, w').

(** The JSON encoder accepts [msg]. *)
Definition encodes `{!GoRuntime} (msg : message) : Prop :=
  exists data, MarshalIndent msg = inl data.

Definition encoderTotal `{!GoRuntime} : Prop := forall msg, encodes msg.

(** [d'] is [d] after one more message, [msg], went out and nothing
    else changed. *)
Definition replied {I W : Type} (d : Server I W) (msg : message)
    (d' : Server I W) : Prop :=
  session d' = session d /\ impl d' = impl d
  /\ emitted d' = emitted d ++ [msg] /\ is_Some (output d').

Definition lowerByte (a : ascii) : ascii :=
  if ((65 <=? byte a) && (byte a <=? 90))%N
  then ascii_of_N (byte a + 32)
  else a.

(** The commands of the protocol, as [Run] compares them. *)
Definition knownCommands : list string :=
  ["HELLO"; "START"; "LIST"; "START_SYNC"; "STOP"; "QUIT"].

Definition isKnown (cmd : string) : bool :=
  bool_decide (cmd ∈ knownCommands).

(** The event type of the reply when it is "the lowercase form of the
    command when the command is known, or command_error when the
    command is unknown". *)
Definition replyTypeFor (cmd : string) : string :=
  if isKnown cmd then mapBytes lowerByte cmd else "command_error".

(** The guard at the head of the loop of [Run]. *)
Definition beforeHello {I W : Type} (d : Server I W) (cmd : string) : bool :=
  negb (initialized d) && negb (String.eqb cmd "HELLO")
  && negb (String.eqb cmd "QUIT").

(** The message that [syncEvent] or [errorEvent] sends for a call of
    the implementation. *)
Definition callMessage (c : CallbackCall) : message :=
  match c with
  | CallEvent event port =>
      {| EventType := event; Message := ""; Error := false;
         ProtocolVersion := 0; mPort := port; Ports := None |}
  | CallError err => messageError "start_sync" err
  end.

Definition hasPort (c : CallbackCall) : Prop :=
  match c with
  | CallEvent _ None => False
  | _ => True
  end.

(** The calls that the implementation makes inside [StartSync]. *)
Definition syncCallsOf {I : Type} `{!Discovery I} (i : I) : list CallbackCall :=
  (StartSync i).1.2.

(** A command arrives in a phase where the state machine forbids it. *)
Definition forbidden {I W : Type} (d : Server I W) (cmd : string) : Prop :=
  (initialized d = false /\ cmd <> "HELLO" /\ cmd <> "QUIT")
  \/ (cmd = "HELLO" /\ initialized d = true)
  \/ ((cmd = "START" \/ cmd = "START_SYNC")
      /\ (started d = true \/ syncStarted d = true))
  \/ (cmd = "LIST" /\ (started d = false \/ syncStarted d = true))
  \/ (cmd = "STOP" /\ started d = false /\ syncStarted d = false).

(** A port event of the implementation in polling mode. *)
Inductive PortEvent :=
| EvAdd (p : Port)
| EvRemove (p : Port).

Definition eventPort (e : PortEvent) : Port :=
  match e with EvAdd p | EvRemove p => p end.

Definition eventName (e : PortEvent) : string :=
  match e with EvAdd _ => "add" | EvRemove _ => "remove" end.

(** The event as a call made inside [StartSync], and as a call made
    later from a goroutine of the implementation. *)
Definition asCall (e : PortEvent) : CallbackCall :=
  CallEvent (eventName e) (Some (eventPort e)).

Definition asInput (e : PortEvent) : Input :=
  Async (CbEventCallback (eventName e) (Some (eventPort e))).

(** [add(p)] is the last event of [evs] for the key of [p]. *)
Definition lastAdded (evs : list PortEvent) (p : Port) : Prop :=
  exists pre post,
    evs = pre ++ EvAdd p :: post
    /\ Forall (fun e => portID (eventPort e) <> portID p) post.

Definition listMessage (ports : list Port) : message :=
  {| EventType := "list"; Message := ""; Error := false;
     ProtocolVersion := 0; mPort := None; Ports := Some ports |}.

(** The complete lines of an input, each with its newline, as
    [reader.ReadString] returns them one after the other; the bytes
    after the last newline come back together with the read error. *)
Fixpoint readLines (cur : string) (input : string) : list string :=
  match input with
  | EmptyString => []
  | String a rest =>
      if (byte a =? 10)%N
      then (cur +:+ String a "") :: readLines "" rest
      else readLines (cur +:+ String a "") rest
  end.

(** ** Instances on which the statements are exercised *)

(** A writer that keeps what it is given, like a [bytes.Buffer]. *)
Global Instance Buffer_Writer : Writer string :=
  {| Write buf data := (len data, None, buf +:+ data) |}.

(** The write end of a pipe whose reader is gone. *)
Inductive ClosedPipe := closedPipe.

Global Instance ClosedPipe_Writer : Writer ClosedPipe :=
  {| Write w data := (0, Some "write |1: broken pipe", w) |}.

(** An implementation that answers from a script and counts the calls
    of [Quit]. *)
Record Scripted := mkScripted {
  onHello : error;
  onStartSync : error;
  syncCalls : list CallbackCall;
  onStop : error;
  quitCalls : nat
}.

Global Instance Scripted_Discovery : Discovery Scripted :=
  {| Hello i _ _ := (onHello i, i);
     StartSync i := (onStartSync i, syncCalls i, i);
     Stop i := (onStop i, i);
     Quit i := mkScripted (onHello i) (onStartSync i) (syncCalls i) (onStop i)
                 (S (quitCalls i)) |}.

(** A runtime for the worked examples: text that is not ASCII is left
    as it is, the encoder writes the event type of the message, and
    [range] visits a map in the order of [map_to_list]. *)
Global Instance exampleRuntime : GoRuntime :=
  {| MapToUpper s := s;
     MarshalIndent msg := inl (EventType msg);
     rangeOrder m := (map_to_list m).*2;
     rangeOrder_perm m := Permutation_refl _ |}.

Fixpoint allBytes (f : ascii -> bool) (s : string) : bool :=
  match s with
  | String a s' => f a && allBytes f s'
  | EmptyString => true
  end.

(** [<digits>]: one or more decimal digits. *)
Definition isDigits (s : string) : bool :=
  negb (String.eqb s "") && allBytes isDigit s.

(** [<agent>]: one or more bytes, none of them the double quote. *)
Definition isAgent (s : string) : bool :=
  negb (String.eqb s "") && allBytes (fun a => negb (byte a =? 34)%N) s.

(** The HELLO payload [<digits> "<agent>"]. *)
Definition helloPayload (digits agent : string) : string :=
  digits +:+ " " +:+ QUOTE +:+ agent +:+ QUOTE.

(** The effect of a port event on the map of cached ports. *)
Definition applyEvent (m : gmap string Port) (e : PortEvent) : gmap string Port :=
  match e with
  | EvAdd p => <[portID p := p]> m
  | EvRemove p => delete (portID p) m
  end.

(** A server that has just been given its output, as [Run] finds it. *)
Definition freshServer : Server Scripted string :=
  set_output (Some "") (NewServer (mkScripted None None [] None 0)).

(** The command is START_SYNC and the server hands its event-mode
    callbacks to the implementation. *)
Definition servesStartSync {I W : Type} (d : Server I W) (cmd : string) : bool :=
  negb (beforeHello d cmd) && String.eqb cmd "START_SYNC"
  && negb (syncStarted d) && negb (started d).

(** ** Notions used in the statements about the client *)

Section ClientNotions.
Import DiscoveryClient.
Context {P : Type} `{!Writer P} `{!GoRuntime}.


(** Every send on an event channel among the actions [new], which
    follow the actions [old], is made while the status mutex is free
    (respectively held). *)
Definition sendsWithMutex (held : bool) (old new : list Action) : Prop :=
  forall pre c e post,
    new = pre ++ ASend c e :: post -> mutexHeldAfter (old ++ pre) = held.

End ClientNotions.

(** A client in event mode: one open channel of capacity 8 in the slot. *)
Definition syncingClient : DiscoveryClient.Client string :=
  DiscoveryClient.set_eventChan (Some 0%nat)
    (DiscoveryClient.set_chans [DiscoveryClient.mkChan 8 [] false]
       (DiscoveryClient.set_outgoingCommandsPipe (Some "")
          (DiscoveryClient.NewClient "dummy" ["dummy-discovery"]))).

Definition dummyPort : Port :=
  {| Address := "1"; AddressLabel := "Dummy upload port"; Protocol := "dummy";
     ProtocolLabel := "Dummy protocol"; Properties := None; HardwareID := "" |}.

Definition addMessage : DiscoveryClient.discoveryMessage :=
  DiscoveryClient.mkDiscoveryMessage "add" "" false 0 [] (Some dummyPort).

Definition addEvent : DiscoveryClient.Event :=
  DiscoveryClient.mkEvent "add" (Some dummyPort) "dummy".

Definition secondPort : Port :=
  {| Address := "2"; AddressLabel := "Dummy upload port"; Protocol := "dummy";
     ProtocolLabel := "Dummy protocol"; Properties := Some 0%nat;
     HardwareID := "" |}.

(** A server after a successful HELLO, over an implementation that
    makes [calls] inside [StartSync]. *)
Definition readyServer (calls : list CallbackCall) : Server Scripted string :=
  set_initialized true
    (set_output (Some "") (NewServer (mkScripted None None calls None 0))).

(** A server whose output is a pipe that nobody reads. *)
Definition brokenServer : Server Scripted ClosedPipe :=
  set_output (Some closedPipe) (NewServer (mkScripted None None [] None 0)).

(** A store with two ports; the second has a map of properties. *)
Definition exampleHeap : PortStore.Heap :=
  PortStore.mkHeap [dummyPort; secondPort]
    [[("vid", "0x2341"); ("pid", "0x0041"); ("mac", "73622384782")]].

Definition spawnOk : DiscoveryClient.Spawn :=
  DiscoveryClient.mkSpawn None None None None.

Definition helloReply : DiscoveryClient.discoveryMessage :=
  DiscoveryClient.mkDiscoveryMessage "hello" "OK" false 1 [] None.

Definition startSyncReply : DiscoveryClient.discoveryMessage :=
  DiscoveryClient.mkDiscoveryMessage "start_sync" "OK" false 0 [] None.

(** A new client, and the same client once [runProcess] has started
    the child. *)
Definition newClient : DiscoveryClient.Client string :=
  DiscoveryClient.NewClient "dummy" ["dummy-discovery"].

Definition startedClient : DiscoveryClient.Client string :=
  DiscoveryClient.mkClient "dummy" ["dummy-discovery"] (Some tt) (Some "") []
    false "pluggable-discovery-protocol-handler" false None None []
    DiscoveryClient.Running [DiscoveryClient.ALock; DiscoveryClient.AUnlock].

(** ** Tactics *)

(** Open the monad of [Go]. *)
Ltac go_unfold := unfold bind, get, modify, ret, panic.

(** Close a branch of a handler that ends with one [send] of [msg] from
    the state [d0]; [L] is the lemma that describes the send. *)
Ltac one_send L d0 msg Ho :=
  let d' := fresh "d'" in
  let Hs := fresh "Hs" in
  let He := fresh "He" in
  destruct (L d0 msg Ho) as (d' & Hs & He & _);
  simpl in He; exists msg, d'; rewrite Hs; repeat split; auto.

(** ** The lifecycle of a session *)

(** [Q] holds of the state in which [m] ends from [d], whatever way it
    ends. *)
Definition ensures {S A : Type} (m : Go S A) (d : S) (Q : S -> Prop) : Prop :=
  match m d with
  | Done _ d' | Panic _ d' | Blocked d' => Q d'
  | OutOfFuel => True
  end.

(** The phases of a session, as the flags [initialized], [started] and
    [syncStarted] spell them. *)
Inductive Phase := Uninitialized | Idle | Polling | Syncing.

Definition phaseOf {I W : Type} (d : Server I W) : Phase :=
  if negb (initialized d) then Uninitialized
  else if started d then Polling
  else if syncStarted d then Syncing
  else Idle.

(** The flags spell one phase: no mode is on before HELLO, the two
    modes are never on together, and the map of cached ports exists
    while polling. *)
Definition consistent {I W : Type} (d : Server I W) : Prop :=
  (started d = true -> initialized d = true)
  /\ (syncStarted d = true -> initialized d = true)
  /\ (started d = true -> syncStarted d = false)
  /\ (started d = true -> is_Some (cachedPorts d)).

(** The moves of the lifecycle: a command leaves the phase as it is, or
    HELLO initializes, START and START_SYNC enter a mode from [Idle],
    STOP leaves it. *)
Definition lifecycle (p : Phase) (cmd : string) (p' : Phase) : Prop :=
  p' = p
  \/ (p = Uninitialized /\ cmd = "HELLO" /\ p' = Idle)
  \/ (p = Idle /\ cmd = "START" /\ p' = Polling)
  \/ (p = Idle /\ cmd = "START_SYNC" /\ p' = Syncing)
  \/ ((p = Polling \/ p = Syncing) /\ cmd = "STOP" /\ p' = Idle).

(** What a step of the server keeps: an output and a map of cached
    ports, once there, stay. *)
Definition keepsOutput {I W : Type} (d d' : Server I W) : Prop :=
  (is_Some (output d) -> is_Some (output d'))
  /\ (is_Some (cachedPorts d) -> is_Some (cachedPorts d')).

(** The fields that no callback and no reply touches. *)
Definition sameFlags {I W : Type} (d d' : Server I W) : Prop :=
  initialized d' = initialized d /\ started d' = started d
  /\ syncStarted d' = syncStarted d /\ keepsOutput d d'.

(** A line whose command is QUIT. *)
Definition isQuit `{!GoRuntime} (i : Input) : Prop :=
  match i with
  | Line line => commandOf line = "QUIT"
  | Async _ => False
  end.

(** An input that the server in state [d] can take: a polling callback
    needs a port and the map of cached ports. *)
Definition deliverable {I W : Type} (d : Server I W) (i : Input) : Prop :=
  match i with
  | Async (CbEventCallback _ port) => is_Some port /\ is_Some (cachedPorts d)
  | _ => True
  end.

(** A call of the implementation on the event-mode callbacks, made from
    one of its goroutines. *)
Definition asSyncInput (c : CallbackCall) : Input :=
  match c with
  | CallEvent event port => Async (CbSyncEvent event port)
  | CallError err => Async (CbErrorEvent err)
  end.

(** ** Notions used in the further statements about the client *)

(** [s[:n]] for [0 <= n <= len(s)]. *)
Fixpoint take_bytes (n : nat) (s : string) : string :=
  match n, s with
  | O, _ => EmptyString
  | S n', String a s' => String a (take_bytes n' s')
  | S _, EmptyString => EmptyString
  end.

(** A writer in the sense of [io.Writer] that may take a part of the
    data only: it reports no error, takes at least one byte of data
    that is not empty and never more than there is; [received] is what
    has reached the other end. *)
Definition takesPrefix (P : Type) `{!Writer P} (received : P -> string) : Prop :=
  forall (w : P) (data : string),
    exists (n : Z) (w' : P),
      Write w data = (n, None, w')
      /\ 0 <= n <= len data /\ (data <> "" -> 0 < n)
      /\ received w' = received w +:+ take_bytes (Z.to_nat n) data.

(** A pipe that takes at most [chunk] bytes for each call of [Write]. *)
Record ChunkPipe := mkChunkPipe {
  chunk : Z;
  taken : string
}.

Global Instance ChunkPipe_Writer : Writer ChunkPipe :=
  {| Write w data :=
       let n := Z.min (Z.max 1 (chunk w)) (len data) in
       (n, None, mkChunkPipe (chunk w) (taken w +:+ take_bytes (Z.to_nat n) data)) |}.

(** The message of the server as the decoder of the client reads it:
    the two structs carry the same JSON names, a field left out for
    [omitempty] is read as its zero value. *)
Definition asReceived (msg : message) : DiscoveryClient.discoveryMessage :=
  DiscoveryClient.mkDiscoveryMessage (EventType msg) (Message msg) (Error msg)
    (ProtocolVersion msg) (default [] (Ports msg)) (mPort msg).

Section ClientNotions2.
Import DiscoveryClient.
Context `{!GoRuntime}.

(** The decoded message is a port event: the decode loop forwards it
    to the event channel. *)
Definition isPortEvent (msg : discoveryMessage) : bool :=
  String.eqb (EventType msg) "add" || String.eqb (EventType msg) "remove".

(** The event that the decode loop makes of a decoded message, for the
    client [id]. *)
Definition eventOf (id : string) (msg : discoveryMessage) : option Event :=
  if isPortEvent msg
  then (fun p => mkEvent (EventType msg) (Some p) id) <$> mPort msg
  else None.

(** The decoded message when the loop hands it to [waitMessage]. *)
Definition replyOf (msg : discoveryMessage) : option discoveryMessage :=
  if isPortEvent msg then None else Some msg.

(** The error with which the decode loop ends on [x], if it ends. *)
Definition endOf (x : Decoded) : option error :=
  match x with
  | DecEOF => Some None
  | DecErr err => Some (Some err)
  | DecMsg msg =>
      match mPort msg with
      | Some _ => None
      | None =>
          if String.eqb (EventType msg) "add"
          then Some (Some "invalid 'add' message: missing port")
          else if String.eqb (EventType msg) "remove"
          then Some (Some "invalid 'remove' message: missing port")
          else None
      end
  end.

(** The reply that [Stop] accepts. *)
Definition stopOk (msg : discoveryMessage) : Prop :=
  EventType msg = "stop" /\ Error msg = false /\ ToUpper (Message msg) = "OK".

End ClientNotions2.

(** A client whose child takes two bytes for each write. *)
Definition chunkedClient : DiscoveryClient.Client ChunkPipe :=
  DiscoveryClient.set_outgoingCommandsPipe (Some (mkChunkPipe 2 ""))
    (DiscoveryClient.NewClient "dummy" ["dummy-discovery"]).


(** The first error among the steps of [runProcess]. *)
Definition firstError (sp : DiscoveryClient.Spawn) : error :=
  match DiscoveryClient.newProcessErr sp with
  | Some e => Some e
  | None =>
      match DiscoveryClient.stdoutPipeErr sp with
      | Some e => Some e
      | None =>
          match DiscoveryClient.stdinPipeErr sp with
          | Some e => Some e
          | None => DiscoveryClient.startErr sp
          end
      end
  end.

(** ** The example implementation (dummy-discovery/main.go) *)

(** A Go [int] of 64 bits after an addition. *)
Definition wrap64 (z : Z) : Z := (z + 2 ^ 63) mod 2 ^ 64 - 2 ^ 63.

(** [type dummyDiscovery struct]; [closeChan] is kept as whether it is
    not nil. The goroutine that [StartSync] starts makes its calls on
    the callbacks after [StartSync] has returned: they are inputs of
    the server, not calls inside [StartSync]. *)
Record dummyDiscovery := mkDummy {
  startSyncCount : Z;
  closeChan : bool
}.

(** The methods [Hello], [StartSync], [Stop] and [Quit] of
    [dummyDiscovery]. [%] is the remainder of the truncated division. *)
Global Instance dummy_Discovery : Discovery dummyDiscovery :=
  {| Hello d _ _ := (None, d);
     StartSync d :=
       let count := wrap64 (startSyncCount d + 1) in
       if Z.rem count 5 =? 0
       then (Some "could not start_sync every 5 times", [],
             mkDummy count (closeChan d))
       else (None, [], mkDummy count true);
     Stop d := (None, mkDummy (startSyncCount d) false);
     Quit d := d |}.

(** ** More instances on which the statements are exercised *)

(** A server in polling mode with an empty cache. *)
Definition pollingServer : Server Scripted string :=
  set_started true (set_cachedPorts (Some ∅) (readyServer [])).

(** A server in polling mode whose implementation refuses to stop. *)
Definition stubbornServer : Server Scripted string :=
  set_started true
    (set_cachedPorts (Some ∅)
       (set_initialized true
          (set_output (Some "")
             (NewServer (mkScripted None None [] (Some "busy") 0))))).


(** A server over the example implementation, after HELLO and four
    calls of [StartSync]. *)
Definition dummyServer : Server dummyDiscovery string :=
  set_initialized true (set_output (Some "") (NewServer (mkDummy 4 false))).


Definition stopReply : DiscoveryClient.discoveryMessage :=
  DiscoveryClient.mkDiscoveryMessage "stop" "OK" false 0 [] None.

Definition removeMessage : DiscoveryClient.discoveryMessage :=
  DiscoveryClient.mkDiscoveryMessage "remove" "" false 0 [] (Some dummyPort).

Definition removeEvent : DiscoveryClient.Event :=
  DiscoveryClient.mkEvent "remove" (Some dummyPort) "dummy".

(** * The server: replies and the state machine *)

Section ServerFacts.
Context {I W : Type} `{!Discovery I} `{!Writer W} `{!GoRuntime}.
Implicit Types (d : Server I W) (msg : message).

Lemma wireData_encodes msg :
  encodes msg -> exists data, wireData msg = (data, Some msg).
Proof.
  intros [data Hd]. unfold wireData. rewrite Hd. eauto.
Qed.

Lemma send_replied d msg :
  reliable W -> encodes msg -> is_Some (output d) ->
  exists d', send msg d = Done tt d' /\ replied d msg d'.
Proof.
  intros Hw Henc [o Ho].
  destruct (wireData_encodes msg Henc) as [data Hdata].
  destruct (Hw o data) as [o' Hwrite].
  unfold send. rewrite Hdata, Ho, Hwrite.
  rewrite Z.eqb_refl. simpl.
  eexists; split; [reflexivity|].
  unfold replied, session; simpl. eauto.
Qed.

Lemma replied_output d msg d' : replied d msg d' -> is_Some (output d').
Proof. intros (_ & _ & _ & H0). exact H0. Qed.

Lemma session_eq d d' :
  session d' = session d ->
  initialized d' = initialized d /\ started d' = started d
  /\ syncStarted d' = syncStarted d /\ cachedPorts d' = cachedPorts d
  /\ cachedErr d' = cachedErr d /\ userAgent d' = userAgent d
  /\ reqProtocolVersion d' = reqProtocolVersion d.
Proof. unfold session. intros [= -> -> -> -> -> -> ->]. repeat split. Qed.

End ServerFacts.

Section ServerSteps.
Context {I W : Type} `{!Discovery I} `{!Writer W} `{!GoRuntime}.
Implicit Types (d : Server I W) (msg : message).

(** Sending a reply and going on with [ctl]. *)
Lemma reply_then d msg (ctl : Ctl) :
  reliable W -> encodes msg -> is_Some (output d) ->
  exists d', (run send msg then ret ctl) d = Done ctl d' /\ replied d msg d'.
Proof.
  intros Hw Henc Ho.
  destruct (send_replied d msg Hw Henc Ho) as (d' & Hs & Hr).
  exists d'. unfold bind. rewrite Hs. split; [reflexivity | exact Hr].
Qed.

Lemma eqb_ne (s t : string) : s <> t -> String.eqb s t = false.
Proof. apply String.eqb_neq. Qed.

(** Claim C3. A command that arrives in a phase where the state machine
    forbids it (anything but HELLO or QUIT before initialization, a
    second HELLO, START or START_SYNC while started or syncStarted,
    LIST when not started or when syncStarted, STOP when neither) is
    answered with one message that has [error: true], and the session
    state (initialized, started, syncStarted, cachedPorts, cachedErr,
    userAgent, reqProtocolVersion) and the implementation are left as
    they were. *)
Theorem forbidden_command_rejected d (line : string) :
  reliable W -> encoderTotal -> is_Some (output d) ->
  forbidden d (commandOf line) ->
  exists reply d',
    runCommand line d = Done Continue d'
    /\ emitted d' = emitted d ++ [reply]
    /\ Error reply = true
    /\ session d' = session d
    /\ impl d' = impl d.
Proof.
  intros Hw Henc Ho Hf.
  assert (Hgen : forall msg, Error msg = true ->
            forall (k : Go (Server I W) unit), k d = send msg d ->
            exists reply d',
              (run k then ret Continue) d = Done Continue d'
              /\ emitted d' = emitted d ++ [reply]
              /\ Error reply = true
              /\ session d' = session d /\ impl d' = impl d).
  { intros msg He k Hk.
    destruct (send_replied d msg Hw (Henc msg) Ho) as (d' & Hs & Hs1 & Hi & He' & _).
    exists msg, d'. unfold bind. rewrite Hk, Hs. auto. }
  unfold runCommand. fold (commandOf line).
  set (cmd := commandOf line) in *.
  unfold bind at 1. unfold get at 1.
  destruct Hf as [(Hi & Hh & Hq) | [(Hc & Hi) | [(Hc & Hs) | [(Hc & Hs) | (Hc & Hs & Hy)]]]].
  - rewrite Hi, (eqb_ne _ _ Hh), (eqb_ne _ _ Hq). simpl.
    eapply Hgen; [|reflexivity]. reflexivity.
  - rewrite Hc, Hi. simpl.
    destruct (len (TrimSpace line) <? 7);
      (eapply Hgen; [|unfold hello; go_unfold; rewrite Hi; reflexivity]; reflexivity).
  - destruct (initialized d) eqn:Hi.
    + destruct Hc as [Hc | Hc]; rewrite Hc; simpl.
      * destruct (started d) eqn:Hst.
        -- eapply Hgen; [|unfold start; go_unfold; rewrite Hst; reflexivity]; reflexivity.
        -- destruct Hs as [Hs | Hs]; [discriminate|].
           eapply Hgen; [|unfold start; go_unfold; rewrite Hst, Hs; reflexivity]; reflexivity.
      * destruct (syncStarted d) eqn:Hsy.
        -- eapply Hgen; [|unfold startSync; go_unfold; rewrite Hsy; reflexivity]; reflexivity.
        -- destruct Hs as [Hs | Hs]; [|discriminate].
           eapply Hgen; [|unfold startSync; go_unfold; rewrite Hsy, Hs; reflexivity]; reflexivity.
    + destruct Hc as [Hc | Hc]; rewrite Hc; simpl;
        (eapply Hgen; [|reflexivity]; reflexivity).
  - destruct (initialized d) eqn:Hi; rewrite Hc; simpl.
    + destruct (started d) eqn:Hst.
      * destruct Hs as [Hs | Hs]; [discriminate|].
        eapply Hgen; [|unfold list_; go_unfold; rewrite Hst, Hs; reflexivity]; reflexivity.
      * eapply Hgen; [|unfold list_; go_unfold; rewrite Hst; reflexivity]; reflexivity.
    + eapply Hgen; [|reflexivity]; reflexivity.
  - destruct (initialized d) eqn:Hi; rewrite Hc; simpl.
    + eapply Hgen; [|unfold stop; go_unfold; rewrite Hs, Hy; reflexivity]; reflexivity.
    + eapply Hgen; [|reflexivity]; reflexivity.
Qed.

End ServerSteps.

Section ServerClaims.
Context {I W : Type} `{!Discovery I} `{!Writer W} `{!GoRuntime}.
Implicit Types (d : Server I W) (msg : message).

(** Claim C4. When the server reads QUIT, in any state and also before
    HELLO, it calls [impl.Quit()], emits the reply
    [{eventType: "quit", message: "OK"}], and [Run] returns nil without
    reading the rest of the input. *)
Theorem quit_accepted_in_any_state d (line : string) (rest : list Input)
    (readErr : string) :
  reliable W -> encodes (messageOk "quit") -> is_Some (output d) ->
  commandOf line = "QUIT" ->
  exists d',
    runLoop (Line line :: rest) readErr d = Done None d'
    /\ impl d' = Quit (impl d)
    /\ emitted d' = emitted d
         ++ [{| EventType := "quit"; Message := "OK"; Error := false;
                ProtocolVersion := 0; mPort := None; Ports := None |}]
    /\ session d' = session d.
Proof.
  intros Hw Henc Ho Hc.
  set (d0 := set_impl (Quit (impl d)) d).
  destruct (send_replied d0 (messageOk "quit") Hw Henc Ho)
    as (d' & Hs & Hse & Hi & He & _).
  exists d'. simpl. unfold runCommand. fold (commandOf line). rewrite Hc.
  unfold bind at 1 2. unfold get at 1.
  replace (negb (initialized d) && negb ("QUIT" =? "HELLO")%string
           && negb ("QUIT" =? "QUIT")%string) with false
    by (destruct (initialized d); reflexivity).
  simpl. go_unfold. fold d0. rewrite Hs. auto.
Qed.

(** Claim C8. When the writer returns an error for a message, or takes
    fewer bytes than the serialised message with its newline has,
    [send] panics, and nothing that follows the send in the session is
    run. *)
Theorem send_aborts_on_failed_write d msg (o o' : W) (n : Z) (err : error) :
  output d = Some o ->
  Write o (wireData msg).1 = (n, err, o') ->
  n <> len (wireData msg).1 \/ err <> None ->
  send msg d = Panic "ERROR" (set_output (Some o') d)
  /\ forall (A : Type) (k : unit -> Go (Server I W) A),
       (let* u := send msg in k u) d = Panic "ERROR" (set_output (Some o') d).
Proof.
  intros Ho Hwr Hbad.
  assert (Hs : send msg d = Panic "ERROR" (set_output (Some o') d)).
  { unfold send. destruct (wireData msg) as [data wire]. simpl in *.
    rewrite Ho, Hwr.
    destruct Hbad as [Hn | He].
    - apply Z.eqb_neq in Hn. rewrite Hn. reflexivity.
    - rewrite (bool_decide_eq_true_2 _ He), orb_true_r. reflexivity. }
  split; [exact Hs|]. intros A k. unfold bind. rewrite Hs. reflexivity.
Qed.

End ServerClaims.

(** * The server: the HELLO payload *)

Lemma spanDigits_app (ds r : string) :
  allBytes isDigit ds = true ->
  (forall a r', r = String a r' -> isDigit a = false) ->
  spanDigits (ds +:+ r) = (ds, r).
Proof.
  intros Hds Hr. induction ds as [|a ds IH]; simpl in *.
  - destruct r as [|b r']; [reflexivity|].
    simpl. rewrite (Hr b r' eq_refl). reflexivity.
  - apply andb_true_iff in Hds as [Ha Hds].
    rewrite Ha, (IH Hds). reflexivity.
Qed.

Lemma quotedTail_app (agent : string) :
  allBytes (fun a => negb (byte a =? 34)%N) agent = true ->
  quotedTail (agent +:+ QUOTE) = Some agent.
Proof.
  induction agent as [|a agent IH]; simpl; [reflexivity|].
  intros [Ha Hag]%andb_true_iff.
  apply negb_true_iff in Ha. rewrite Ha, (IH Hag). reflexivity.
Qed.

Lemma helloRe_payload (digits agent : string) :
  isDigits digits = true -> isAgent agent = true ->
  helloRe (helloPayload digits agent) = Some (digits, agent).
Proof.
  unfold isDigits, isAgent.
  intros [Hd0 Hd]%andb_true_iff [Ha0 Ha]%andb_true_iff.
  change (helloPayload digits agent)
    with (digits +:+ String " "%char (String "034"%char (agent +:+ QUOTE))).
  unfold helloRe. rewrite spanDigits_app; [|exact Hd|].
  - destruct digits as [|c digits]; [discriminate|].
    cbn -[quotedTail String.append QUOTE].
    rewrite (quotedTail_app agent Ha).
    destruct agent; [discriminate | reflexivity].
  - intros a r' [= <- _]. reflexivity.
Qed.

Section HelloClaim.
Context {I W : Type} `{!Discovery I} `{!Writer W} `{!GoRuntime}.
Implicit Types (d : Server I W) (msg : message).

Lemma hello_version_error d (digits agent : string)
    (e : NumError) :
  reliable W ->
  encodes (messageError "hello" ("Invalid protocol version: " +:+ agent)) ->
  is_Some (output d) -> initialized d = false ->
  isDigits digits = true -> isAgent agent = true ->
  ParseInt digits = inr e ->
  exists d',
    hello (helloPayload digits agent) d = Done tt d'
    /\ emitted d' = emitted d
         ++ [{| EventType := "hello";
                Message := "Invalid protocol version: " +:+ agent;
                Error := true; ProtocolVersion := 0;
                mPort := None; Ports := None |}]
    /\ initialized d' = false.
Proof.
  intros Hw Henc Ho Hi Hd Ha Hp.
  set (msg := messageError "hello" ("Invalid protocol version: " +:+ agent)) in *.
  destruct (send_replied (set_userAgent agent d) msg Hw Henc Ho)
    as (d' & Hs & Hse & _ & He & _).
  exists d'. unfold hello. go_unfold. rewrite Hi.
  rewrite (helloRe_payload digits agent Hd Ha), Hp.
  fold msg. rewrite Hs. split; [reflexivity|]. split; [exact He|].
  apply session_eq in Hse as (Hin & _). rewrite Hin. exact Hi.
Qed.

End HelloClaim.

(** * The server: one reply for each command *)

Section Replies.
Context {I W : Type} `{!Discovery I} `{!Writer W} `{!GoRuntime}.
Implicit Types (d : Server I W) (msg : message).
Hypothesis Hw : reliable W.
Hypothesis Henc : encoderTotal.

(** One message goes out from [d0], which differs from [d] in fields
    other than the output. *)
Lemma send_appends d0 msg :
  is_Some (output d0) ->
  exists d', send msg d0 = Done tt d'
    /\ emitted d' = emitted d0 ++ [msg] /\ is_Some (output d')
    /\ session d' = session d0 /\ impl d' = impl d0.
Proof.
  intros Ho. destruct (send_replied d0 msg Hw (Henc msg) Ho)
    as (d' & Hs & Hse & Hi & He & Hout).
  exists d'. auto.
Qed.

Lemma send_appends_plain d msg :
  is_Some (output d) ->
  exists reply d', send msg d = Done tt d'
    /\ emitted d' = emitted d ++ [] ++ [reply] /\ EventType reply = EventType msg.
Proof.
  intros Ho. destruct (send_appends d msg Ho) as (d' & Hs & He & _).
  exists msg, d'. auto.
Qed.

Lemma hello_one_reply d (arg : string) :
  is_Some (output d) ->
  exists reply d',
    hello arg d = Done tt d'
    /\ emitted d' = emitted d ++ [reply] /\ EventType reply = "hello".
Proof.
  intros Ho. unfold hello. go_unfold.
  destruct (initialized d).
  { one_send send_appends d (messageError "hello" "HELLO already called") Ho. }
  destruct (helloRe arg) as [[version agent]|].
  2:{ one_send send_appends d (messageError "hello" "Invalid HELLO command") Ho. }
  destruct (ParseInt version) as [v|e].
  2:{ one_send send_appends (set_userAgent agent d)
        (messageError "hello" ("Invalid protocol version: " +:+ agent)) Ho. }
  unfold callHello. simpl.
  destruct (Hello (impl d) agent 1) as [[e|] i'].
  { one_send send_appends (set_impl i' (set_reqProtocolVersion v (set_userAgent agent d)))
      (messageError "hello" e) Ho. }
  destruct (send_appends (set_impl i' (set_reqProtocolVersion v (set_userAgent agent d)))
              {| EventType := "hello"; Message := "OK"; Error := false;
                 ProtocolVersion := 1; mPort := None; Ports := None |} Ho)
    as (d' & Hs & He & _).
  simpl in He. eexists _, _. rewrite Hs. simpl.
  split; [reflexivity|]. split; [exact He | reflexivity].
Qed.

Lemma eventCallback_polling (event : string) (p : Port) d m :
  cachedPorts d = Some m ->
  exists m', eventCallback event (Some p) d = Done tt (set_cachedPorts (Some m') d).
Proof.
  intros Hm. unfold eventCallback. go_unfold.
  destruct (String.eqb event "add"), (String.eqb event "remove");
    rewrite ?Hm; simpl; rewrite ?Hm; simpl; eexists; try reflexivity.
  destruct d; simpl in *; subst; reflexivity.
Qed.

Lemma runCalls_polling (calls : list CallbackCall) d :
  Forall hasPort calls -> is_Some (cachedPorts d) ->
  exists d',
    runCalls eventCallback errorCallback calls d = Done tt d'
    /\ emitted d' = emitted d /\ output d' = output d.
Proof.
  intros Hc. revert d. induction Hc as [|c calls Hp _ IH]; intros d [m Hm].
  - exists d. auto.
  - destruct c as [event [p|] | err]; simpl in Hp; [|contradiction|].
    + cbn [runCalls]. unfold bind at 1.
      destruct (eventCallback_polling event p d m Hm) as [m' ->].
      destruct (IH (set_cachedPorts (Some m') d)) as (d' & Hr & He & Hout);
        [simpl; eauto | exists d'; rewrite Hr; auto].
    + cbn [runCalls]. unfold bind at 1.
      change (errorCallback err d) with (@Done (Server I W) unit tt (set_cachedErr err d)).
      cbv beta iota.
      destruct (IH (set_cachedErr err d)) as (d' & Hr & He & Hout);
        [simpl; eauto | exists d'; rewrite Hr; auto].
Qed.

Lemma runCalls_sync (calls : list CallbackCall) d :
  is_Some (output d) ->
  exists d',
    runCalls syncEvent errorEvent calls d = Done tt d'
    /\ emitted d' = emitted d ++ map callMessage calls
    /\ is_Some (output d') /\ session d' = session d /\ impl d' = impl d.
Proof.
  revert d. induction calls as [|c calls IH]; intros d Ho.
  - exists d. simpl. rewrite app_nil_r. auto.
  - assert (Hc : exists d1, match c with
                   | CallEvent event port => syncEvent event port
                   | CallError err => errorEvent err end d = Done tt d1
                   /\ emitted d1 = emitted d ++ [callMessage c]
                   /\ is_Some (output d1) /\ session d1 = session d
                   /\ impl d1 = impl d).
    { destruct c; simpl; unfold syncEvent, errorEvent; apply send_appends, Ho. }
    destruct Hc as (d1 & H1 & He1 & Ho1 & Hs1 & Hi1).
    destruct (IH d1 Ho1) as (d' & Hr & He & Hout & Hs & Hi).
    exists d'. simpl. destruct c; unfold bind at 1; rewrite H1, Hr;
      (split; [reflexivity|]);
      rewrite He, He1, <- app_assoc; simpl;
      (repeat split; auto; congruence).
Qed.

Lemma start_one_reply d :
  is_Some (output d) -> Forall hasPort (syncCallsOf (impl d)) ->
  exists reply d',
    start d = Done tt d'
    /\ emitted d' = emitted d ++ [reply] /\ EventType reply = "start".
Proof.
  intros Ho Hc. unfold start. go_unfold.
  destruct (started d).
  { one_send send_appends d (messageError "start" "Discovery already STARTed") Ho. }
  destruct (syncStarted d).
  { one_send send_appends d (messageError "start" "Discovery already START_SYNCed, cannot START") Ho. }
  unfold callStartSync, syncCallsOf in *. simpl.
  destruct (StartSync (impl d)) as [[err calls] i']. simpl in Hc.
  go_unfold.
  match goal with |- context [runCalls _ _ calls ?d0] =>
    destruct (runCalls_polling calls d0 Hc) as (d1 & Hr & He1 & Ho1);
      [simpl; eauto | rewrite Hr] end.
  simpl in He1, Ho1. rewrite <- Ho1 in Ho.
  destruct err as [e|].
  - destruct (send_appends d1 (messageError "start" ("Cannot START: " +:+ e)) Ho)
      as (d' & Hs & He & _).
    eexists _, d'. rewrite Hs. rewrite He, He1. auto.
  - assert (Ho2 : is_Some (output (set_started true d1))) by exact Ho.
    destruct (send_appends _ (messageOk "start") Ho2) as (d' & Hs & He & _).
    eexists _, d'. rewrite Hs. rewrite He. simpl. rewrite He1. auto.
Qed.

Lemma list_one_reply d :
  is_Some (output d) ->
  exists reply d',
    list_ d = Done tt d'
    /\ emitted d' = emitted d ++ [reply] /\ EventType reply = "list".
Proof.
  intros Ho. unfold list_. go_unfold.
  destruct (started d); cbn [negb].
  2:{ one_send send_appends d (messageError "list" "Discovery not STARTed") Ho. }
  destruct (syncStarted d).
  { one_send send_appends d (messageError "list" "discovery already START_SYNCed, LIST not allowed") Ho. }
  destruct (String.eqb (cachedErr d) ""); cbn [negb].
  2:{ one_send send_appends d (messageError "list" (cachedErr d)) Ho. }
  fold (listMessage (rangeOrder (default ∅ (cachedPorts d)))).
  one_send send_appends d (listMessage (rangeOrder (default ∅ (cachedPorts d)))) Ho.
Qed.

Lemma startSync_one_reply d :
  is_Some (output d) ->
  exists reply d',
    startSync d = Done tt d'
    /\ emitted d' = emitted d
         ++ (if negb (syncStarted d) && negb (started d)
             then map callMessage (syncCallsOf (impl d)) else [])
         ++ [reply]
    /\ EventType reply = "start_sync".
Proof.
  intros Ho. unfold startSync. go_unfold.
  destruct (syncStarted d); simpl.
  { one_send send_appends d (messageError "start_sync" "Discovery already START_SYNCed") Ho. }
  destruct (started d); simpl.
  { one_send send_appends d (messageError "start_sync" "Discovery already STARTed, cannot START_SYNC") Ho. }
  unfold callStartSync, syncCallsOf. 
  destruct (StartSync (impl d)) as [[err calls] i']. simpl.
  go_unfold.
  destruct (runCalls_sync calls (set_impl i' d) Ho) as (d1 & Hr & He1 & Ho1 & _).
  rewrite Hr. simpl in He1.
  destruct err as [e|].
  - destruct (send_appends d1 (messageError "start_sync" ("Cannot START_SYNC: " +:+ e)) Ho1)
      as (d' & Hs & He & _).
    eexists _, d'. rewrite Hs. rewrite He, He1, <- app_assoc. auto.
  - assert (Ho2 : is_Some (output (set_syncStarted true d1))) by exact Ho1.
    destruct (send_appends _ (messageOk "start_sync") Ho2) as (d' & Hs & He & _).
    eexists _, d'. rewrite Hs. rewrite He. simpl. rewrite He1, <- app_assoc. auto.
Qed.

Lemma stop_one_reply d :
  is_Some (output d) ->
  exists reply d',
    stop d = Done tt d'
    /\ emitted d' = emitted d ++ [reply] /\ EventType reply = "stop".
Proof.
  intros Ho. unfold stop. go_unfold.
  destruct (negb (syncStarted d) && negb (started d)).
  { one_send send_appends d (messageError "stop" "Discovery already STOPped") Ho. }
  unfold callStop. destruct (Stop (impl d)) as [[e|] i'].
  { one_send send_appends (set_impl i' d) (messageError "stop" ("Cannot STOP: " +:+ e)) Ho. }
  simpl.
  destruct (syncStarted d); simpl.
  - assert (Ho2 : is_Some (output (set_syncStarted false (set_started false (set_impl i' d)))))
      by exact Ho.
    one_send send_appends (set_syncStarted false (set_started false (set_impl i' d))) (messageOk "stop") Ho2.
  - assert (Ho2 : is_Some (output (set_started false (set_impl i' d)))) by exact Ho.
    one_send send_appends (set_started false (set_impl i' d)) (messageOk "stop") Ho2.
Qed.

Lemma isKnown_false (cmd : string) :
  String.eqb cmd "HELLO" = false -> String.eqb cmd "START" = false ->
  String.eqb cmd "LIST" = false -> String.eqb cmd "START_SYNC" = false ->
  String.eqb cmd "STOP" = false -> String.eqb cmd "QUIT" = false ->
  isKnown cmd = false.
Proof.
  rewrite !String.eqb_neq. intros. unfold isKnown, knownCommands.
  apply bool_decide_eq_false. rewrite !elem_of_cons, elem_of_nil. tauto.
Qed.

(** Claim C2, as the code has it. For every line that the loop of [Run]
    processes the server emits exactly one reply, the last message of
    the command (before it come only the messages that the event-mode
    callbacks emit while START_SYNC is served). Its [eventType] is
    [command_error] when the session is not initialized and the command
    is neither HELLO nor QUIT; otherwise it is the lowercase form of
    the command when the command is known, and [command_error] when it
    is unknown. *)
Theorem reply_event_type d (line : string) :
  is_Some (output d) ->
  (commandOf line = "START" -> Forall hasPort (syncCallsOf (impl d))) ->
  exists reply ctl d',
    runCommand line d = Done ctl d'
    /\ emitted d' = emitted d
         ++ (if servesStartSync d (commandOf line)
             then map callMessage (syncCallsOf (impl d)) else [])
         ++ [reply]
    /\ EventType reply =
         (if beforeHello d (commandOf line) then "command_error"
          else replyTypeFor (commandOf line)).
Proof.
  intros Ho Hports.
  assert (Hlift : forall (k : Go (Server I W) unit) (ev : list message) (ty : string),
            (exists reply d', k d = Done tt d'
               /\ emitted d' = emitted d ++ ev ++ [reply] /\ EventType reply = ty) ->
            exists reply ctl d', (run k then ret Continue) d = Done ctl d'
               /\ emitted d' = emitted d ++ ev ++ [reply] /\ EventType reply = ty).
  { intros k ev ty (reply & d' & Hk & He & Ht).
    exists reply, Continue, d'. unfold bind. rewrite Hk. auto. }
  unfold runCommand, servesStartSync. fold (commandOf line).
  set (cmd := commandOf line) in *. clearbody cmd.
  unfold bind at 1. unfold get at 1. fold (beforeHello d cmd).
  destruct (beforeHello d cmd) eqn:Hb; cbn [negb andb].
  { apply (Hlift _ []). apply send_appends_plain, Ho. }
  destruct (String.eqb cmd "HELLO") eqn:E1.
  { apply String.eqb_eq in E1. subst cmd. cbn [String.eqb Ascii.eqb Bool.eqb andb].
    apply (Hlift _ []).
    destruct (len (TrimSpace line) <? 7); apply hello_one_reply, Ho. }
  destruct (String.eqb cmd "START") eqn:E2.
  { apply String.eqb_eq in E2. subst cmd. cbn [String.eqb Ascii.eqb Bool.eqb andb].
    apply (Hlift _ []). apply start_one_reply; auto. }
  destruct (String.eqb cmd "LIST") eqn:E3.
  { apply String.eqb_eq in E3. subst cmd. cbn [String.eqb Ascii.eqb Bool.eqb andb].
    apply (Hlift _ []). apply list_one_reply, Ho. }
  destruct (String.eqb cmd "START_SYNC") eqn:E4.
  { apply String.eqb_eq in E4. subst cmd. cbn [andb].
    apply Hlift. apply startSync_one_reply, Ho. }
  cbn [andb].
  destruct (String.eqb cmd "STOP") eqn:E5.
  { apply String.eqb_eq in E5. subst cmd.
    apply (Hlift _ []). apply stop_one_reply, Ho. }
  destruct (String.eqb cmd "QUIT") eqn:E6.
  { apply String.eqb_eq in E6. subst cmd. go_unfold.
    destruct (send_appends (set_impl (Quit (impl d)) d) (messageOk "quit") Ho)
      as (d' & Hs & He & _).
    exists (messageOk "quit"), (Return None), d'. rewrite Hs. auto. }
  unfold replyTypeFor. rewrite isKnown_false by assumption.
  apply (Hlift _ []). apply send_appends_plain, Ho.
Qed.

End Replies.

(** * The server: the cache of ports in polling mode *)

(** The cache after a run of port events. *)

Lemma foldl_snoc {A B} (f : A -> B -> A) (a : A) (l : list B) (x : B) :
  foldl f a (l ++ [x]) = f (foldl f a l) x.
Proof. rewrite foldl_app. reflexivity. Qed.

Lemma cache_keys (evs : list PortEvent) (m0 : gmap string Port) :
  (forall k p, m0 !! k = Some p -> k = portID p) ->
  forall k p, foldl applyEvent m0 evs !! k = Some p -> k = portID p.
Proof.
  intros H0. induction evs as [|e evs IH] using rev_ind; [exact H0|].
  intros k p. rewrite foldl_snoc. destruct e as [q|q]; simpl.
  - rewrite lookup_insert. case_decide as Hk.
    + intros [= ->]. congruence.
    + apply IH.
  - rewrite lookup_delete. case_decide as Hk; [discriminate | apply IH].
Qed.

Lemma cache_keys_empty (evs : list PortEvent) (k : string) (p : Port) :
  foldl applyEvent ∅ evs !! k = Some p -> k = portID p.
Proof.
  apply cache_keys. intros k0 p0 H0. rewrite lookup_empty in H0. discriminate.
Qed.

Lemma lastAdded_snoc_other (evs : list PortEvent) (e : PortEvent) (p : Port) :
  portID (eventPort e) <> portID p ->
  lastAdded (evs ++ [e]) p <-> lastAdded evs p.
Proof.
  intros Hne. split.
  - intros (pre & post & Heq & Hpost).
    destruct post as [|x post _] using rev_ind.
    + apply (app_inj_tail evs pre) in Heq as [_ ->]. simpl in Hne. congruence.
    + rewrite app_comm_cons, app_assoc in Heq.
      apply app_inj_tail in Heq as [-> ->].
      apply Forall_app in Hpost as [Hpost _].
      exists pre, post. auto.
  - intros (pre & post & -> & Hpost).
    exists pre, (post ++ [e]). split.
    + rewrite <- app_assoc. reflexivity.
    + apply Forall_app. split; [exact Hpost|]. constructor; [exact Hne | constructor].
Qed.

Lemma lastAdded_snoc_same (evs : list PortEvent) (e : PortEvent) (p : Port) :
  portID (eventPort e) = portID p ->
  lastAdded (evs ++ [e]) p <-> e = EvAdd p.
Proof.
  intros Heq. split.
  - intros (pre & post & Hev & Hpost).
    destruct post as [|x post _] using rev_ind.
    + apply (app_inj_tail evs pre) in Hev as [_ ->]. reflexivity.
    + rewrite app_comm_cons, app_assoc in Hev.
      apply app_inj_tail in Hev as [_ ->].
      apply Forall_app in Hpost as [_ Hx]. inversion Hx; contradiction.
  - intros ->. exists evs, []. split; [reflexivity | constructor].
Qed.

Lemma cache_lastAdded (evs : list PortEvent) (p : Port) :
  foldl applyEvent ∅ evs !! portID p = Some p <-> lastAdded evs p.
Proof.
  induction evs as [|e evs IH] using rev_ind.
  - simpl. rewrite lookup_empty. split; [discriminate|].
    intros (pre & post & Heq & _). destruct pre; discriminate.
  - rewrite foldl_snoc.
    destruct (decide (portID (eventPort e) = portID p)) as [Heq | Hne].
    + rewrite (lastAdded_snoc_same evs e p Heq).
      destruct e as [q|q]; simpl in *.
      * rewrite Heq, lookup_insert_eq. split; congruence.
      * rewrite Heq, lookup_delete_eq. split; discriminate.
    + rewrite (lastAdded_snoc_other evs e p Hne), <- IH.
      destruct e as [q|q]; simpl in *.
      * rewrite lookup_insert_ne by exact Hne. reflexivity.
      * rewrite lookup_delete_ne by exact Hne. reflexivity.
Qed.

Section Listing.
Context `{!GoRuntime}.

Lemma listed_ports (evs : list PortEvent) (p : Port) :
  p ∈ rangeOrder (foldl applyEvent ∅ evs) <-> lastAdded evs p.
Proof.
  rewrite rangeOrder_perm, <- cache_lastAdded.
  rewrite list_elem_of_fmap. split.
  - intros ([k q] & -> & Hin). simpl.
    apply elem_of_map_to_list in Hin.
    rewrite <- (cache_keys_empty evs k q Hin). exact Hin.
  - intros Hl. exists (portID p, p). split; [reflexivity|].
    apply elem_of_map_to_list. exact Hl.
Qed.

Lemma listed_ports_NoDup (evs : list PortEvent) :
  NoDup (portID <$> rangeOrder (foldl applyEvent ∅ evs)).
Proof.
  rewrite rangeOrder_perm.
  set (m := foldl applyEvent ∅ evs).
  assert (Hk : portID <$> (map_to_list m).*2 = (map_to_list m).*1).
  { rewrite <- list_fmap_compose. apply list_fmap_ext.
    intros i [k q] Hin. simpl.
    apply list_elem_of_lookup_2, elem_of_map_to_list in Hin.
    symmetry. exact (cache_keys_empty evs k q Hin). }
  rewrite Hk. apply NoDup_fst_map_to_list.
Qed.

End Listing.

Section Polling.
Context {I W : Type} `{!Discovery I} `{!Writer W} `{!GoRuntime}.
Implicit Types (d : Server I W) (msg : message).

Lemma commandOf_START : commandOf ("START" +:+ NL) = "START".
Proof. reflexivity. Qed.

Lemma commandOf_LIST : commandOf ("LIST" +:+ NL) = "LIST".
Proof. reflexivity. Qed.

Lemma runCommand_START d :
  initialized d = true ->
  runCommand ("START" +:+ NL) d = (run start then ret Continue) d.
Proof.
  intros Hi. unfold runCommand. fold (commandOf ("START" +:+ NL)).
  rewrite commandOf_START. unfold bind at 1. unfold get at 1.
  rewrite Hi. reflexivity.
Qed.

Lemma runCommand_LIST d :
  initialized d = true ->
  runCommand ("LIST" +:+ NL) d = (run list_ then ret Continue) d.
Proof.
  intros Hi. unfold runCommand. fold (commandOf ("LIST" +:+ NL)).
  rewrite commandOf_LIST. unfold bind at 1. unfold get at 1.
  rewrite Hi. reflexivity.
Qed.

Lemma eventCallback_applyEvent (e : PortEvent) d (m : gmap string Port) :
  cachedPorts d = Some m ->
  eventCallback (eventName e) (Some (eventPort e)) d
  = Done tt (set_cachedPorts (Some (applyEvent m e)) d).
Proof.
  intros Hm. unfold eventCallback. go_unfold.
  destruct e as [p|p]; simpl; rewrite Hm; reflexivity.
Qed.

Lemma runCalls_events (evs : list PortEvent) d (m : gmap string Port) :
  cachedPorts d = Some m ->
  runCalls eventCallback errorCallback (map asCall evs) d
  = Done tt (set_cachedPorts (Some (foldl applyEvent m evs)) d).
Proof.
  revert d m. induction evs as [|e evs IH]; intros d m Hm.
  - simpl. unfold ret. destruct d; simpl in *; subst; reflexivity.
  - cbn [map runCalls asCall]. unfold bind.
    rewrite (eventCallback_applyEvent e d m Hm).
    rewrite (IH (set_cachedPorts (Some (applyEvent m e)) d) (applyEvent m e) eq_refl).
    reflexivity.
Qed.

Lemma runLoop_events (evs : list PortEvent) (rest : list Input)
    (readErr : string) d (m : gmap string Port) :
  cachedPorts d = Some m ->
  runLoop (map asInput evs ++ rest) readErr d
  = runLoop rest readErr (set_cachedPorts (Some (foldl applyEvent m evs)) d).
Proof.
  revert d m. induction evs as [|e evs IH]; intros d m Hm.
  - simpl. destruct d; simpl in *; subst; reflexivity.
  - cbn [map app runLoop asInput invoke]. unfold bind.
    rewrite (eventCallback_applyEvent e d m Hm).
    rewrite (IH (set_cachedPorts (Some (applyEvent m e)) d) (applyEvent m e) eq_refl).
    reflexivity.
Qed.

(** Claim C1. In polling mode, after a START that succeeds (it resets
    [cachedPorts] and [cachedErr] and then hands the polling callbacks
    to [impl.StartSync]), whatever [add] and [remove] events the
    implementation reports, inside [StartSync] ([evs0]) or later from
    its own goroutines ([evs1]), the next LIST reply holds exactly the
    ports [p] for which [add(p)] is the last event seen for the key
    [address|protocol] of [p], each key once. The run is the one of the
    loop of [Run] on START, the events, LIST and the end of the input. *)
Theorem polling_list_reports_last_added d (evs0 evs1 : list PortEvent)
    (i' : I) (readErr : string) :
  reliable W -> encoderTotal -> is_Some (output d) ->
  initialized d = true -> started d = false -> syncStarted d = false ->
  StartSync (impl d) = (None, map asCall evs0, i') ->
  exists ports d',
    runLoop (Line ("START" +:+ NL) :: map asInput evs1 ++ [Line ("LIST" +:+ NL)])
      readErr d = Done (Some readErr) d'
    /\ emitted d' = emitted d
         ++ [messageOk "start"; listMessage ports;
             messageError "command_error" readErr]
    /\ (forall p, p ∈ ports <-> lastAdded (evs0 ++ evs1) p)
    /\ NoDup (portID <$> ports).
Proof.
  intros Hw Henc Ho Hi Hst Hsy Himpl.
  set (m0 := foldl applyEvent ∅ evs0).
  set (m := foldl applyEvent ∅ (evs0 ++ evs1)).
  (* START *)
  set (dS := set_started true
               (set_cachedPorts (Some m0)
                  (set_impl i' (set_cachedErr "" (set_cachedPorts (Some ∅) d))))).
  destruct (send_replied dS (messageOk "start") Hw (Henc _) Ho)
    as (d1 & Hs1 & Hse1 & _ & He1 & Ho1).
  assert (H1 : runCommand ("START" +:+ NL) d = Done Continue d1).
  { rewrite (runCommand_START d Hi). unfold start. go_unfold. rewrite Hst, Hsy.
    unfold callStartSync. simpl. rewrite Himpl. unfold bind.
    rewrite (runCalls_events evs0 (set_impl i' (set_cachedErr "" (set_cachedPorts (Some ∅) d))) ∅ eq_refl). unfold ret.
    fold m0. change (send (messageOk "start") _) with (send (messageOk "start") dS).
    rewrite Hs1. reflexivity. }
  apply session_eq in Hse1 as (Hi1 & Hst1 & Hsy1 & Hcp1 & Hce1 & _).
  simpl in Hi1, Hst1, Hsy1, Hcp1, Hce1, He1. rewrite Hi in Hi1. rewrite Hsy in Hsy1.
  (* the events, then LIST *)
  set (d2 := set_cachedPorts (Some (foldl applyEvent m0 evs1)) d1).
  assert (Hm : foldl applyEvent m0 evs1 = m) by (unfold m, m0; rewrite foldl_app; reflexivity).
  destruct (send_replied d2 (listMessage (rangeOrder m)) Hw (Henc _) Ho1)
    as (d3 & Hs3 & _ & _ & He3 & Ho3).
  assert (H3 : runCommand ("LIST" +:+ NL) d2 = Done Continue d3).
  { rewrite (runCommand_LIST d2 Hi1). unfold list_. go_unfold.
    change (started d2) with (started d1). change (syncStarted d2) with (syncStarted d1).
    change (cachedErr d2) with (cachedErr d1).
    rewrite Hst1, Hsy1, Hce1. simpl. rewrite Hm.
    fold (listMessage (rangeOrder m)). rewrite Hs3. reflexivity. }
  (* the end of the input *)
  destruct (send_replied d3 (messageError "command_error" readErr) Hw (Henc _) Ho3)
    as (d4 & Hs4 & _ & _ & He4 & _).
  exists (rangeOrder m), d4. split; [|split; [|split]].
  - cbn [runLoop]. unfold bind at 1. rewrite H1. cbv beta iota.
    rewrite (runLoop_events evs1 _ readErr d1 m0 Hcp1). fold d2.
    cbn [runLoop]. unfold bind at 1. rewrite H3. cbv beta iota.
    unfold bind. rewrite Hs4. reflexivity.
  - rewrite He4, He3. simpl. rewrite He1, <- !app_assoc. reflexivity.
  - intros p. apply listed_ports.
  - apply listed_ports_NoDup.
Qed.

End Polling.

(** * Ports: equality and clones *)

Module PortFacts.
Import PortStore.

Lemma snoc_lookup_last {A} (l : list A) (x : A) : (l ++ [x]) !! length l = Some x.
Proof. rewrite lookup_app_r by lia. rewrite Nat.sub_diag. reflexivity. Qed.

Lemma snoc_lookup_old {A} (l : list A) (x y : A) (i : nat) :
  l !! i = Some y -> (l ++ [x]) !! i = Some y.
Proof. intros Hi. rewrite lookup_app_l; [exact Hi | eapply lookup_lt_Some, Hi]. Qed.

Lemma Equals_spec (h : Heap) (p o : loc) (vp vo : Port) :
  ports h !! p = Some vp -> ports h !! o = Some vo ->
  exists b, Equals (Some p) (Some o) h = Done b h
    /\ (b = true <-> Address vp = Address vo /\ Protocol vp = Protocol vo).
Proof.
  intros Hp Ho. unfold Equals, deref. go_unfold. rewrite Hp, Ho.
  eexists. split; [reflexivity|].
  rewrite andb_true_iff, !String.eqb_eq. reflexivity.
Qed.

(** Claim C9. [p.Equals(o)] holds exactly when [p] and [o] have the same
    [Address] and the same [Protocol]. For a port [p] that is not nil,
    [p.Clone()] returns a pointer other than [p] to a struct with the
    same address, labels, protocol and hardware id, and, when [p] has
    properties, a pointer to another map with the same entries; [p] and
    its map are as before, also after any later change of the clone's
    map. *)
Theorem equals_by_address_protocol_and_clone_independent
    (h : Heap) (p o : loc) (vp vo : Port) :
  ports h !! p = Some vp -> ports h !! o = Some vo ->
  (forall m, Properties vp = Some m -> is_Some (props h !! m)) ->
  (exists b, Equals (Some p) (Some o) h = Done b h
     /\ (b = true <-> Address vp = Address vo /\ Protocol vp = Protocol vo))
  /\ exists (r : loc) (vr : Port) (h' : Heap),
       Clone (Some p) h = Done (Some r) h'
       /\ r <> p
       /\ ports h' !! r = Some vr
       /\ ports h' !! p = Some vp
       /\ Address vr = Address vp /\ AddressLabel vr = AddressLabel vp
       /\ Protocol vr = Protocol vp /\ ProtocolLabel vr = ProtocolLabel vp
       /\ HardwareID vr = HardwareID vp
       /\ match Properties vp with
          | None => Properties vr = None
          | Some m =>
              exists m', Properties vr = Some m' /\ m' <> m
                /\ props h' !! m' = props h !! m
                /\ props h' !! m = props h !! m
                /\ forall f, props (mutateProps m' f h') !! m = props h !! m
                             /\ ports (mutateProps m' f h') !! p = Some vp
          end.
Proof.
  intros Hp Ho Hprops. split; [exact (Equals_spec h p o vp vo Hp Ho)|].
  assert (Hlt : (p < length (ports h))%nat) by (eapply lookup_lt_Some, Hp).
  unfold Clone, deref. go_unfold. rewrite Hp.
  destruct (Properties vp) as [m|] eqn:Hm.
  - destruct (Hprops m eq_refl) as [entries He].
    assert (Hmlt : (m < length (props h))%nat) by (eapply lookup_lt_Some, He).
    unfold propsClone. simpl. rewrite He. simpl.
    eexists (length (ports h)), (withProperties (Some (length (props h))) vp), _.
    split; [reflexivity|]. simpl.
    split; [lia|].
    split; [rewrite list_lookup_alter_eq, snoc_lookup_last; reflexivity|].
    split; [rewrite list_lookup_alter_ne by lia; apply snoc_lookup_old, Hp|].
    do 5 (split; [reflexivity|]).
    exists (length (props h)).
    split; [reflexivity|]. split; [lia|].
    split; [apply snoc_lookup_last|].
    split; [apply snoc_lookup_old, He|].
    intros f. unfold mutateProps. simpl. split.
    + rewrite list_lookup_alter_ne by lia. apply snoc_lookup_old, He.
    + rewrite list_lookup_alter_ne by lia. apply snoc_lookup_old, Hp.
  - simpl. eexists (length (ports h)), vp, _.
    split; [reflexivity|]. simpl.
    split; [lia|].
    split; [apply snoc_lookup_last|].
    split; [apply snoc_lookup_old, Hp|].
    rewrite Hm. repeat split; reflexivity.
Qed.

End PortFacts.

(** * The client: the event channel *)

Module ClientFacts.
Import DiscoveryClient.

Section Channel.
Context {P : Type} `{!Writer P} `{!GoRuntime}.
Implicit Types (d : Client P).

Lemma sendCommand_reliable d (command : string) (w : P) :
  reliable P -> outgoingCommandsPipe d = Some w ->
  exists w',
    sendCommand command d
    = Done None (set_outgoingCommandsPipe (Some w')
                   (set_trace (trace d ++ [ACommand command]) d)).
Proof.
  intros Hw Hp. destruct (Hw w command) as [w' Hwr].
  exists w'. unfold sendCommand, act. go_unfold. cbn [writeAll].
  cbn [outgoingCommandsPipe set_trace]. rewrite Hp, Hwr.
  rewrite Z.eqb_refl. reflexivity.
Qed.

Lemma stopSync_idle d : eventChan d = None -> stopSync d = Done tt d.
Proof. intros He. unfold stopSync. go_unfold. rewrite He. reflexivity. Qed.

Lemma stopSync_active d (c : loc) (ch : Chan) :
  eventChan d = Some c -> chans d !! c = Some ch -> closed ch = false ->
  stopSync d
  = Done tt
      (set_eventChan None
         (set_trace (trace d ++ [ASend c (stopEvent d); AClose c])
            (set_chans (<[c := mkChan (capacity ch) (queue ch ++ [stopEvent d]) true]>
                          (chans d)) d))).
Proof.
  intros He Hc Hcl.
  assert (Hlt : (c < length (chans d))%nat) by (eapply lookup_lt_Some, Hc).
  unfold stopSync. go_unfold. rewrite He.
  unfold chanSend. rewrite Hc, Hcl. unfold act. go_unfold.
  unfold chanClose. cbn [chans set_trace set_chans].
  rewrite list_lookup_insert_eq by exact Hlt. cbn [closed].
  unfold act. go_unfold. cbn.
  rewrite list_insert_insert_eq, <- app_assoc. reflexivity.
Qed.

Lemma isOpen_Some d (c : loc) :
  isOpen d c = true -> exists ch, chans d !! c = Some ch /\ closed ch = false.
Proof.
  unfold isOpen. destruct (chans d !! c) as [ch|]; [|discriminate].
  intros Hn%negb_true_iff. eauto.
Qed.

Lemma isOpen_lt d (c : loc) : isOpen d c = true -> (c < length (chans d))%nat.
Proof. intros (ch & Hc & _)%isOpen_Some. eapply lookup_lt_Some, Hc. Qed.

(** Installing a new channel when every older one is closed. *)
Lemma oneActive_install (chs : list Chan) (size : Z) (d' : Client P) :
  (forall x ch, chs !! x = Some ch -> closed ch = true) ->
  chans d' = chs ++ [mkChan size [] false] ->
  eventChan d' = Some (length chs) ->
  oneActive d'.
Proof.
  intros Hclosed Hch' He'. split.
  - intros c. rewrite He'. intros [= <-]. unfold isOpen. rewrite Hch'.
    rewrite lookup_app_r by lia. rewrite Nat.sub_diag. reflexivity.
  - intros c Hc. rewrite He'. f_equal.
    unfold isOpen in Hc. rewrite Hch' in Hc.
    destruct (decide (c < length chs)%nat) as [Hlt|Hge].
    + rewrite lookup_app_l in Hc by exact Hlt.
      destruct (lookup_lt_is_Some_2 chs c Hlt) as [ch Hl].
      rewrite Hl, (Hclosed c ch Hl) in Hc. done.
    + rewrite lookup_app_r in Hc by lia.
      destruct (c - length chs)%nat as [|k] eqn:Hk; [lia|].
      done.
Qed.

Lemma oneActive_idle_closed d (x : loc) (ch : Chan) :
  oneActive d -> eventChan d = None -> chans d !! x = Some ch -> closed ch = true.
Proof.
  intros [_ Hopen] He Hx. destruct (closed ch) eqn:Hcl; [reflexivity|].
  assert (Ho : isOpen d x = true) by (unfold isOpen; rewrite Hx, Hcl; reflexivity).
  apply Hopen in Ho. congruence.
Qed.

Lemma oneActive_stopped_closed d (c x : loc) (ch0 ch : Chan) :
  oneActive d -> eventChan d = Some c -> closed ch0 = true ->
  <[c := ch0]> (chans d) !! x = Some ch -> closed ch = true.
Proof.
  intros [_ Hopen] He Hcl0 Hx.
  destruct (decide (c = x)) as [->|Hne].
  - apply list_lookup_insert_Some in Hx as [(_ & Heq & _) | (Hne & _)];
      [subst ch; exact Hcl0 | congruence].
  - rewrite list_lookup_insert_ne in Hx by exact Hne.
    destruct (closed ch) eqn:Hcl; [reflexivity|].
    assert (Ho : isOpen d x = true) by (unfold isOpen; rewrite Hx, Hcl; reflexivity).
    apply Hopen in Ho. congruence.
Qed.

Lemma startSync_replaces_channel d (size : Z) (msg : discoveryMessage) :
  reliable P -> is_Some (outgoingCommandsPipe d) -> statusMutex d = false ->
  oneActive d -> startSyncOk msg -> 0 <= size ->
  (exists (c' : nat) (d' : Client P),
     StartSync size (RecvMsg (Some msg)) d = Done (Some c', None) d'
     /\ c' = length (chans d)
     /\ eventChan d' = Some c'
     /\ chans d' !! c' = Some (mkChan size [] false)
     /\ oneActive d'
     /\ match eventChan d with
        | Some c =>
            exists ch,
              chans d !! c = Some ch /\ closed ch = false
              /\ chans d' !! c
                 = Some (mkChan (capacity ch) (queue ch ++ [stopEvent d]) true)
              /\ trace d' = trace d
                   ++ [ALock; ACommand ("START_SYNC" +:+ NL);
                       ASend c (stopEvent d); AClose c; AMake c' size; AUnlock]
        | None =>
            trace d' = trace d
              ++ [ALock; ACommand ("START_SYNC" +:+ NL); AMake c' size; AUnlock]
        end)
  /\ (eventChan d = None -> stopSync d = Done tt d).
Proof.
  intros Hw [w Hp] Hmx Hinv (Hty & Herr & Hok) Hsize.
  split; [|apply stopSync_idle].
  assert (Hnz : (size <? 0) = false) by (apply Z.ltb_ge; lia).
  destruct (Hw w ("START_SYNC" +:+ NL)) as [w' Hwr].
  destruct (eventChan d) as [c|] eqn:Hec.
  - destruct (isOpen_Some d c (proj1 Hinv c Hec)) as (ch & Hc & Hcl).
    assert (Hlt : (c < length (chans d))%nat) by (eapply lookup_lt_Some, Hc).
    assert (Hins : oneActive
              (set_eventChan (Some (length (chans d)))
                 (set_chans (<[c := mkChan (capacity ch) (queue ch ++ [stopEvent d]) true]>
                               (chans d) ++ [mkChan size [] false]) d))).
    { eapply (oneActive_install
                (<[c := mkChan (capacity ch) (queue ch ++ [stopEvent d]) true]> (chans d)) size).
      - intros x ch1 Hx.
        eapply (oneActive_stopped_closed d c x _ ch1 Hinv Hec); [|exact Hx]. reflexivity.
      - reflexivity.
      - cbn. rewrite length_insert. reflexivity. }
    destruct d as [id0 args proc pipe inc incl ua mx ierr ec chs child tr].
    cbn in Hp, Hmx, Hec, Hc, Hlt, Hins |- *. subst pipe mx ec.
    unfold StartSync, Lock, Unlock, startSyncLocked, sendCommand, stopSync,
      chanSend, chanClose, chanMake, waitMessage, act.
    go_unfold. cbn -[String.append Z.ltb Z.eqb len ToUpper NL].
    rewrite Hwr. rewrite Z.eqb_refl. cbn -[String.append Z.ltb Z.eqb len ToUpper NL].
    rewrite Hty, Herr, Hok. cbn -[String.append Z.ltb Z.eqb len ToUpper NL].
    rewrite Hc, Hcl. cbn -[String.append Z.ltb Z.eqb len ToUpper NL].
    rewrite list_lookup_insert_eq by exact Hlt.
    cbn -[String.append Z.ltb Z.eqb len ToUpper NL].
    rewrite Hnz. cbn -[String.append Z.ltb Z.eqb len ToUpper NL].
    rewrite list_insert_insert_eq, length_insert.
    eexists _, _. split; [reflexivity|]. cbn -[String.append NL].
    split; [reflexivity|]. split; [reflexivity|].
    split. { rewrite lookup_app_r by (rewrite length_insert; lia).
             rewrite length_insert, Nat.sub_diag. reflexivity. }
    split.
    { destruct Hins as [Hi1 Hi2]. split; intros x; [apply (Hi1 x) | apply (Hi2 x)]. }
    exists ch. split; [reflexivity|]. split; [exact Hcl|]. split.
    { rewrite lookup_app_l by (rewrite length_insert; exact Hlt).
      apply list_lookup_insert_eq. exact Hlt. }
    rewrite <- !app_assoc. reflexivity.
  - assert (Hins : oneActive
              (set_eventChan (Some (length (chans d)))
                 (set_chans (chans d ++ [mkChan size [] false]) d))).
    { eapply (oneActive_install (chans d) size).
      - intros x ch1 Hx. eapply (oneActive_idle_closed d x ch1 Hinv Hec Hx).
      - reflexivity.
      - reflexivity. }
    destruct d as [id0 args proc pipe inc incl ua mx ierr ec chs child tr].
    cbn in Hp, Hmx, Hec, Hins |- *. subst pipe mx ec.
    unfold StartSync, Lock, Unlock, startSyncLocked, sendCommand, stopSync,
      chanSend, chanClose, chanMake, waitMessage, act.
    go_unfold. cbn -[String.append Z.ltb Z.eqb len ToUpper NL].
    rewrite Hwr. rewrite Z.eqb_refl. cbn -[String.append Z.ltb Z.eqb len ToUpper NL].
    rewrite Hty, Herr, Hok. cbn -[String.append Z.ltb Z.eqb len ToUpper NL].
    rewrite Hnz. cbn -[String.append Z.ltb Z.eqb len ToUpper NL].
    eexists _, _. split; [reflexivity|]. cbn -[String.append NL].
    split; [reflexivity|]. split; [reflexivity|].
    split. { rewrite lookup_app_r by lia. rewrite Nat.sub_diag. reflexivity. }
    split.
    { destruct Hins as [Hi1 Hi2]. split; intros x; [apply (Hi1 x) | apply (Hi2 x)]. }
    rewrite <- !app_assoc. reflexivity.
Qed.

End Channel.
End ClientFacts.

Module ChannelInvariant.
Import DiscoveryClient ClientFacts.

Section Invariant.
Context {P : Type} `{!Writer P} `{!GoRuntime}.
Implicit Types (d : Client P).
Local Abbreviation keeps := (@DiscoveryClient.keeps P _).

Lemma oneActive_frame d d' :
  eventChan d' = eventChan d -> chans d' = chans d ->
  oneActive d -> oneActive d'.
Proof.
  intros He Hc [H1 H2]. unfold oneActive, isOpen in *. rewrite He, Hc. auto.
Qed.

Lemma keeps_ret {A} (a : A) : keeps (ret a).
Proof. intros d Hd. exact Hd. Qed.

Lemma keeps_panic {A} (r : string) : keeps (@panic (Client P) A r).
Proof. intros d Hd. exact Hd. Qed.

Lemma keeps_get : keeps get.
Proof. intros d Hd. exact Hd. Qed.

Lemma keeps_bind {A B} (m : Go (Client P) A) (k : A -> Go (Client P) B) :
  keeps m -> (forall a, keeps (k a)) -> keeps (bind m k).
Proof.
  intros Hm Hk d Hd. unfold bind. specialize (Hm d Hd).
  destruct (m d) as [a d'|r d'|d'|]; try exact Hm. exact (Hk a d' Hm).
Qed.

Lemma keeps_modify (f : Client P -> Client P) :
  (forall d, eventChan (f d) = eventChan d /\ chans (f d) = chans d) ->
  keeps (modify f).
Proof.
  intros Hf d Hd. cbn. destruct (Hf d) as [He Hc].
  exact (oneActive_frame d (f d) He Hc Hd).
Qed.

Lemma keeps_act (a : Action) : keeps (act a).
Proof. apply keeps_modify. intros d. split; reflexivity. Qed.

Lemma keeps_Lock : keeps Lock.
Proof.
  intros d Hd. unfold Lock. destruct (statusMutex d); [exact Hd|].
  apply (keeps_bind (modify (set_statusMutex true)) (fun _ => act ALock));
    [apply keeps_modify; intros; split; reflexivity | intros; apply keeps_act | exact Hd].
Qed.

Lemma keeps_Unlock : keeps Unlock.
Proof.
  intros d Hd. unfold Unlock. destruct (statusMutex d); [|exact Hd].
  apply (keeps_bind (modify (set_statusMutex false)) (fun _ => act AUnlock));
    [apply keeps_modify; intros; split; reflexivity | intros; apply keeps_act | exact Hd].
Qed.

Lemma keeps_sendCommand (command : string) : keeps (sendCommand command).
Proof.
  intros d Hd. unfold sendCommand, act. go_unfold.
  assert (Hf : forall fuel data d0,
             match writeAll fuel data d0 with
             | Done _ d' | Panic _ d' | Blocked d' =>
                 eventChan d' = eventChan d0 /\ chans d' = chans d0
             | OutOfFuel => True
             end).
  { induction fuel as [|fuel IH]; intros data d0; [exact I|].
    cbn [writeAll]. destruct (outgoingCommandsPipe d0) as [w|]; [|auto].
    destruct (Write w data) as [[n err] w'].
    destruct err; [split; reflexivity|].
    destruct (n =? len data); [split; reflexivity|].
    destruct ((n <? 0) || (len data <? n)); [split; reflexivity|].
    exact (IH _ (set_outgoingCommandsPipe (Some w') d0)). }
  specialize (Hf (S (String.length command)) command
                (set_trace (trace d ++ [ACommand command]) d)).
  destruct (writeAll _ _ _) as [a d'|r d'|d'|]; try exact I;
    destruct Hf as [He Hc]; exact (oneActive_frame d d' He Hc Hd).
Qed.

Lemma keeps_waitMessage (sel : Select) : keeps (waitMessage sel).
Proof.
  unfold waitMessage. apply keeps_bind; [apply keeps_get|].
  intros d. destruct sel as [[msg|]|]; apply keeps_ret.
Qed.

Lemma keeps_killProcess : keeps killProcess.
Proof.
  unfold killProcess.
  apply keeps_bind; [apply keeps_Lock|]. intros _.
  apply keeps_bind; [|intros _; apply keeps_Unlock].
  apply keeps_bind; [apply keeps_get|]. intros d.
  destruct (process d); [|apply keeps_ret].
  apply keeps_bind; [apply keeps_modify; intros; split; reflexivity|]. intros _.
  apply keeps_bind; [apply keeps_modify; intros; split; reflexivity|]. intros _.
  apply keeps_act.
Qed.

Lemma keeps_deliver (msg : discoveryMessage) : keeps (deliver msg).
Proof.
  intros d Hd. unfold deliver. destruct (incomingClosed d); [exact Hd|].
  apply (keeps_bind (modify (set_incoming (incoming d ++ [msg])))
           (fun _ => act (ADeliver msg)));
    [apply keeps_modify; intros; split; reflexivity | intros; apply keeps_act | exact Hd].
Qed.

Lemma keeps_closeIncoming : keeps closeIncoming.
Proof.
  intros d Hd. unfold closeIncoming. destruct (incomingClosed d); [exact Hd|].
  apply (keeps_bind (modify (set_incomingClosed true)) (fun _ => act ACloseIncoming));
    [apply keeps_modify; intros; split; reflexivity | intros; apply keeps_act | exact Hd].
Qed.

Lemma allClosed_oneActive d : allClosed d -> oneActive d.
Proof.
  intros [He Hc]. split.
  - intros c. rewrite He. discriminate.
  - intros c Ho. apply isOpen_Some in Ho as (ch & Hl & Hcl).
    rewrite (Hc c ch Hl) in Hcl. discriminate.
Qed.

Lemma stopSync_allClosed d :
  oneActive d -> exists d', stopSync d = Done tt d' /\ allClosed d'.
Proof.
  intros Hd. destruct (eventChan d) as [c|] eqn:Hec.
  - destruct (isOpen_Some d c (proj1 Hd c Hec)) as (ch & Hc & Hcl).
    rewrite (stopSync_active d c ch Hec Hc Hcl). eexists. split; [reflexivity|].
    split; [reflexivity|]. cbn. intros x ch1 Hx.
    eapply (oneActive_stopped_closed d c x _ ch1 Hd Hec); [|exact Hx]. reflexivity.
  - rewrite (stopSync_idle d Hec). exists d. split; [reflexivity|].
    split; [exact Hec|]. intros x ch Hx. exact (oneActive_idle_closed d x ch Hd Hec Hx).
Qed.

Lemma keeps_stopSync : keeps stopSync.
Proof.
  intros d Hd. destruct (stopSync_allClosed d Hd) as (d' & -> & Hc).
  exact (allClosed_oneActive d' Hc).
Qed.

(** Making a channel and putting it in the slot, once the slot is
    empty and the older channels are closed. *)
Lemma install_keeps (size : Z) d :
  allClosed d ->
  match (let* c := chanMake size in
         run modify (set_eventChan (Some c)) then
         ret (Some c, @None string)) d with
  | Done _ d' | Panic _ d' | Blocked d' => oneActive d'
  | OutOfFuel => True
  end.
Proof.
  intros Hd. unfold chanMake. go_unfold. unfold act. go_unfold.
  destruct (size <? 0); [exact (allClosed_oneActive d Hd)|].
  cbn. eapply (oneActive_install (chans d) size); [exact (proj2 Hd) | reflexivity | reflexivity].
Qed.

Lemma keeps_startSyncLocked (size : Z) (sel : Select) :
  keeps (startSyncLocked size sel).
Proof.
  unfold startSyncLocked.
  apply keeps_bind; [apply keeps_sendCommand|]. intros [e|]; [apply keeps_ret|].
  apply keeps_bind; [apply keeps_waitMessage|]. intros [[msg|] [e|]];
    try apply keeps_ret; try apply keeps_panic.
  destruct (negb (String.eqb (EventType msg) "start_sync")); [apply keeps_ret|].
  destruct (Error msg); [apply keeps_ret|].
  destruct (negb (String.eqb (ToUpper (Message msg)) "OK")); [apply keeps_ret|].
  intros d Hd. unfold bind at 1.
  destruct (stopSync_allClosed d Hd) as (d' & -> & Hc).
  exact (install_keeps size d' Hc).
Qed.

Lemma keeps_forwardEvent (type : string) (port : Port) :
  keeps (forwardEvent type port).
Proof.
  unfold forwardEvent.
  apply keeps_bind; [apply keeps_Lock|]. intros _.
  apply keeps_bind; [|intros _; apply keeps_Unlock].
  intros d Hd. unfold bind, get.
  destruct (eventChan d) as [c|] eqn:Hec; [|exact Hd].
  unfold chanSend. destruct (chans d !! c) as [ch|] eqn:Hc; [|exact Hd].
  destruct (closed ch) eqn:Hcl; [exact Hd|].
  unfold act. go_unfold. destruct Hd as [H1 H2].
  assert (Hlt : (c < length (chans d))%nat) by (eapply lookup_lt_Some, Hc).
  assert (Hop : forall x, isOpen (set_trace (trace d ++ [ASend c (mkEvent type (Some port) (id d))])
                      (set_chans (<[c := mkChan (capacity ch)
                                           (queue ch ++ [mkEvent type (Some port) (id d)]) false]>
                                    (chans d)) d)) x = isOpen d x).
  { intros x. unfold isOpen. cbn. destruct (decide (c = x)) as [->|Hne].
    - rewrite list_lookup_insert_eq by exact Hlt. rewrite Hc. cbn. rewrite Hcl. reflexivity.
    - rewrite list_lookup_insert_ne by exact Hne. reflexivity. }
  split; intros x; rewrite Hop; [apply H1 | apply H2].
Qed.

Lemma keeps_closeAndReportError (err : error) : keeps (closeAndReportError err).
Proof.
  unfold closeAndReportError.
  apply keeps_bind; [apply keeps_Lock|]. intros _.
  apply keeps_bind; [apply keeps_modify; intros; split; reflexivity|]. intros _.
  apply keeps_bind; [apply keeps_Unlock|]. intros _.
  apply keeps_bind; [apply keeps_stopSync|]. intros _.
  apply keeps_bind; [apply keeps_killProcess|]. intros _.
  apply keeps_closeIncoming.
Qed.

Lemma keeps_jsonDecodeLoop (stream : list Decoded) : keeps (jsonDecodeLoop stream).
Proof.
  induction stream as [|[|err|msg] rest IH]; cbn [jsonDecodeLoop].
  - apply keeps_ret.
  - apply keeps_closeAndReportError.
  - apply keeps_closeAndReportError.
  - destruct (String.eqb (EventType msg) "add").
    { destruct (mPort msg); [|apply keeps_closeAndReportError].
      apply keeps_bind; [apply keeps_forwardEvent | intros _; exact IH]. }
    destruct (String.eqb (EventType msg) "remove").
    { destruct (mPort msg); [|apply keeps_closeAndReportError].
      apply keeps_bind; [apply keeps_forwardEvent | intros _; exact IH]. }
    apply keeps_bind; [apply keeps_deliver | intros _; exact IH].
Qed.

Lemma keeps_runProcess (sp : Spawn) (stdin : P) : keeps (runProcess sp stdin).
Proof.
  unfold runProcess.
  destruct (newProcessErr sp); [apply keeps_ret|].
  destruct (stdoutPipeErr sp); [apply keeps_ret|].
  destruct (stdinPipeErr sp); [apply keeps_ret|].
  apply keeps_bind; [apply keeps_modify; intros; split; reflexivity|]. intros _.
  apply keeps_bind; [apply keeps_modify; intros; split; reflexivity|]. intros _.
  apply keeps_bind; [apply keeps_modify; intros; split; reflexivity|]. intros _.
  destruct (startErr sp); [apply keeps_ret|].
  apply keeps_bind; [apply keeps_Lock|]. intros _.
  apply keeps_bind; [apply keeps_modify; intros; split; reflexivity|]. intros _.
  apply keeps_bind; [apply keeps_modify; intros; split; reflexivity|]. intros _.
  apply keeps_bind; [apply keeps_Unlock|]. intros _. apply keeps_ret.
Qed.

Lemma keeps_helloExchange (sel : Select) : keeps (helloExchange sel).
Proof.
  unfold helloExchange.
  apply keeps_bind; [apply keeps_get|]. intros d.
  apply keeps_bind; [apply keeps_sendCommand|]. intros [e|]; [apply keeps_ret|].
  apply keeps_bind; [apply keeps_waitMessage|]. intros [[msg|] [e|]];
    try apply keeps_ret; try apply keeps_panic.
  destruct (negb (String.eqb (EventType msg) "hello")); [apply keeps_ret|].
  destruct (Error msg); [apply keeps_ret|].
  destruct (negb (String.eqb (ToUpper (Message msg)) "OK")); [apply keeps_ret|].
  destruct (1 <? ProtocolVersion msg); apply keeps_ret.
Qed.

Lemma keeps_perform (c : Call P) : keeps (perform c).
Proof.
  destruct c as [ua | | sp stdin sel | sel | sel | sel | sel | size sel | stream];
    cbn [perform].
  - apply keeps_modify. intros; split; reflexivity.
  - apply keeps_bind; [|intros; apply keeps_ret]. unfold Alive.
    apply keeps_bind; [apply keeps_Lock|]. intros _.
    apply keeps_bind; [apply keeps_get|]. intros d.
    apply keeps_bind; [apply keeps_Unlock|]. intros _. apply keeps_ret.
  - apply keeps_bind; [|intros; apply keeps_ret]. unfold Run.
    apply keeps_bind; [apply keeps_runProcess|]. intros [e|]; [apply keeps_ret|].
    apply keeps_bind; [apply keeps_helloExchange|]. intros [e|]; [|apply keeps_ret].
    apply keeps_bind; [apply keeps_killProcess | intros _; apply keeps_ret].
  - apply keeps_bind; [|intros; apply keeps_ret]. unfold Start.
    apply keeps_bind; [apply keeps_sendCommand|]. intros [e|]; [apply keeps_ret|].
    apply keeps_bind; [apply keeps_waitMessage|]. intros [[msg|] [e|]];
      try apply keeps_ret; try apply keeps_panic.
    destruct (negb (String.eqb (EventType msg) "start")); [apply keeps_ret|].
    destruct (Error msg); [apply keeps_ret|].
    destruct (negb (String.eqb (ToUpper (Message msg)) "OK")); apply keeps_ret.
  - apply keeps_bind; [|intros; apply keeps_ret]. unfold Stop.
    apply keeps_bind; [apply keeps_sendCommand|]. intros [e|]; [apply keeps_ret|].
    apply keeps_bind; [apply keeps_waitMessage|]. intros [[msg|] [e|]];
      try apply keeps_ret; try apply keeps_panic.
    destruct (negb (String.eqb (EventType msg) "stop")); [apply keeps_ret|].
    destruct (Error msg); [apply keeps_ret|].
    destruct (negb (String.eqb (ToUpper (Message msg)) "OK")); [apply keeps_ret|].
    apply keeps_bind; [apply keeps_Lock|]. intros _.
    apply keeps_bind; [apply keeps_stopSync|]. intros _.
    apply keeps_bind; [apply keeps_Unlock|]. intros _. apply keeps_ret.
  - unfold Quit.
    apply keeps_bind; [apply keeps_sendCommand|]. intros _.
    apply keeps_bind; [apply keeps_waitMessage|]. intros _.
    apply keeps_bind; [apply keeps_stopSync|]. intros _.
    apply keeps_killProcess.
  - apply keeps_bind; [|intros; apply keeps_ret]. unfold List.
    apply keeps_bind; [apply keeps_sendCommand|]. intros [e|]; [apply keeps_ret|].
    apply keeps_bind; [apply keeps_waitMessage|]. intros [[msg|] [e|]];
      try apply keeps_ret; try apply keeps_panic.
    destruct (negb (String.eqb (EventType msg) "list")); [apply keeps_ret|].
    destruct (Error msg); apply keeps_ret.
  - apply keeps_bind; [|intros; apply keeps_ret]. unfold StartSync.
    apply keeps_bind; [apply keeps_Lock|]. intros _.
    apply keeps_bind; [apply keeps_startSyncLocked|]. intros r.
    apply keeps_bind; [apply keeps_Unlock|]. intros _. apply keeps_ret.
  - apply keeps_jsonDecodeLoop.
Qed.

Lemma keeps_performAll (calls : list (Call P)) : keeps (performAll calls).
Proof.
  induction calls as [|c calls IH]; cbn [performAll].
  - apply keeps_ret.
  - apply keeps_bind; [apply keeps_perform | intros _; exact IH].
Qed.

Lemma oneActive_at_all_times (calls : list (Call P)) d d' :
  oneActive d -> final (performAll calls d) = Some d' -> oneActive d'.
Proof.
  intros Hd Hf. pose proof (keeps_performAll calls d Hd) as Hk.
  destruct (performAll calls d) as [a d1|r d1|d1|]; try discriminate;
    injection Hf as <-; exact Hk.
Qed.

Lemma NewClient_oneActive (name : string) (args : list string) :
  oneActive (NewClient (P := P) name args).
Proof.
  split; intros c.
  - discriminate.
  - unfold isOpen. cbn. discriminate.
Qed.

(** Claim C10. The client has at most one active event channel at any
    time. A [StartSync] that succeeds first runs [stopSync] on the
    channel in the slot, if there is one (the stop event is sent on it
    and it is closed), and only then makes the new buffered channel and
    puts it in the slot; afterwards the new channel is the only open
    one. [stopSync] does nothing when the slot is empty. *)
Theorem startSync_closes_previous_channel d (size : Z) (msg : discoveryMessage) :
  reliable P -> is_Some (outgoingCommandsPipe d) -> statusMutex d = false ->
  oneActive d -> startSyncOk msg -> 0 <= size ->
  (exists (c' : nat) (d' : Client P),
     StartSync size (RecvMsg (Some msg)) d = Done (Some c', None) d'
     /\ c' = length (chans d)
     /\ eventChan d' = Some c'
     /\ chans d' !! c' = Some (mkChan size [] false)
     /\ oneActive d'
     /\ match eventChan d with
        | Some c =>
            exists ch,
              chans d !! c = Some ch /\ closed ch = false
              /\ chans d' !! c
                 = Some (mkChan (capacity ch) (queue ch ++ [stopEvent d]) true)
              /\ trace d' = trace d
                   ++ [ALock; ACommand ("START_SYNC" +:+ NL);
                       ASend c (stopEvent d); AClose c; AMake c' size; AUnlock]
        | None =>
            trace d' = trace d
              ++ [ALock; ACommand ("START_SYNC" +:+ NL); AMake c' size; AUnlock]
        end)
  /\ (eventChan d = None -> stopSync d = Done tt d)
  /\ (forall (calls : list (Call P)) d',
        final (performAll calls d) = Some d' -> oneActive d').
Proof.
  intros Hw Hp Hmx Hinv Hok Hsize.
  destruct (startSync_replaces_channel d size msg Hw Hp Hmx Hinv Hok Hsize)
    as [Hstart Hidle].
  split; [exact Hstart|]. split; [exact Hidle|].
  intros calls d'. exact (oneActive_at_all_times calls d d' Hinv).
Qed.

End Invariant.
End ChannelInvariant.

(** * The client: the decode loop *)

Module DecodeFacts.
Import DiscoveryClient ClientFacts.

Lemma mutexHeldAfter_lock (tr : list Action) : mutexHeldAfter (tr ++ [ALock]) = true.
Proof. unfold mutexHeldAfter. rewrite fold_left_app. reflexivity. Qed.

Lemma mutexHeldAfter_unlock (tr : list Action) : mutexHeldAfter (tr ++ [AUnlock]) = false.
Proof. unfold mutexHeldAfter. rewrite fold_left_app. reflexivity. Qed.

Section Decode.
Context {P : Type} `{!Writer P} `{!GoRuntime}.
Implicit Types (d : Client P).

Lemma forwardEvent_trace d (type : string) (port : Port) :
  statusMutex d = false ->
  (forall c, eventChan d = Some c -> isOpen d c = true) ->
  exists d',
    forwardEvent type port d = Done tt d'
    /\ statusMutex d' = false
    /\ trace d' = trace d
         ++ match eventChan d with
            | Some c => [ALock; ASend c (mkEvent type (Some port) (id d)); AUnlock]
            | None => [ALock; AUnlock]
            end.
Proof.
  intros Hmx Hslot.
  destruct (eventChan d) as [c|] eqn:Hec.
  - destruct (isOpen_Some d c (Hslot c eq_refl)) as (ch & Hc & Hcl).
    destruct d as [id0 args proc pipe inc incl ua mx ierr ec chs child tr].
    cbn in Hmx, Hec, Hc |- *. subst mx ec.
    unfold forwardEvent, Lock, Unlock, chanSend, act. go_unfold. cbn.
    rewrite Hc, Hcl. cbn.
    eexists. split; [reflexivity|]. cbn. split; [reflexivity|].
    rewrite <- !app_assoc. reflexivity.
  - destruct d as [id0 args proc pipe inc incl ua mx ierr ec chs child tr].
    cbn in Hmx, Hec |- *. subst mx ec.
    unfold forwardEvent, Lock, Unlock, act. go_unfold. cbn.
    eexists. split; [reflexivity|]. cbn. split; [reflexivity|].
    rewrite <- !app_assoc. reflexivity.
Qed.

(** Claim C7, as the code has it. In the decode loop a decoded [add] or
    [remove] event is sent on the active event channel while the status
    mutex is held: the loop locks the mutex, reads the slot, sends when
    the slot holds a channel, and unlocks only after that. *)
Theorem decoded_event_sent_under_mutex d (msg : discoveryMessage) (port : Port)
    (rest : list Decoded) :
  statusMutex d = false ->
  (forall c, eventChan d = Some c -> isOpen d c = true) ->
  EventType msg = "add" \/ EventType msg = "remove" ->
  mPort msg = Some port ->
  exists d',
    jsonDecodeLoop (DecMsg msg :: rest) d = jsonDecodeLoop rest d'
    /\ trace d' = trace d
         ++ match eventChan d with
            | Some c =>
                [ALock; ASend c (mkEvent (EventType msg) (Some port) (id d)); AUnlock]
            | None => [ALock; AUnlock]
            end
    /\ sendsWithMutex true (trace d)
         (match eventChan d with
          | Some c =>
              [ALock; ASend c (mkEvent (EventType msg) (Some port) (id d)); AUnlock]
          | None => [ALock; AUnlock]
          end)
    /\ mutexHeldAfter (trace d') = false.
Proof.
  intros Hmx Hslot Hty Hport.
  destruct (forwardEvent_trace d (EventType msg) port Hmx Hslot)
    as (d' & Hf & Hmx' & Htr).
  exists d'. split; [|split; [exact Htr|split]].
  - cbn [jsonDecodeLoop]. rewrite Hport.
    destruct Hty as [Hty | Hty]; rewrite Hty in *; cbn [String.eqb Ascii.eqb Bool.eqb];
      unfold bind; rewrite Hf; reflexivity.
  - intros pre c e post Heq.
    destruct (eventChan d) as [c0|].
    + destruct pre as [|a pre]; simpl in Heq; [discriminate|].
      injection Heq as Ha Heq.
      destruct pre as [|b pre]; simpl in Heq.
      { subst a. apply mutexHeldAfter_lock. }
      injection Heq as Hb Heq.
      destruct pre as [|b' pre]; simpl in Heq; [discriminate|].
      injection Heq as _ Heq. destruct pre; discriminate.
    + destruct pre as [|a pre]; simpl in Heq; [discriminate|].
      injection Heq as _ Heq.
      destruct pre as [|b pre]; simpl in Heq; [discriminate|].
      injection Heq as _ Heq. destruct pre; discriminate.
  - rewrite Htr. destruct (eventChan d).
    + change [ALock; ASend n (mkEvent (EventType msg) (Some port) (id d)); AUnlock]
        with ([ALock; ASend n (mkEvent (EventType msg) (Some port) (id d))] ++ [AUnlock]).
      rewrite app_assoc. apply mutexHeldAfter_unlock.
    + change [ALock; AUnlock] with ([ALock] ++ [AUnlock]).
      rewrite app_assoc. apply mutexHeldAfter_unlock.
Qed.

End Decode.

(** C7 as stated fails: the send is made between [Lock] and [Unlock]. *)
Lemma decode_loop_sends_while_mutex_held :
  exists d',
    jsonDecodeLoop [DecMsg addMessage] syncingClient = Done tt d'
    /\ trace d' = [ALock; ASend 0%nat addEvent; AUnlock]
    /\ mutexHeldAfter [ALock] = true
    /\ ~ sendsWithMutex false (trace syncingClient) (trace d').
Proof.
  eexists. split; [reflexivity|]. split; [reflexivity|]. split; [reflexivity|].
  intros Hs. specialize (Hs [ALock] 0%nat addEvent [AUnlock] eq_refl).
  discriminate Hs.
Qed.

End DecodeFacts.

(** * The client: the HELLO handshake of Run *)

Module RunFacts.
Import DiscoveryClient ClientFacts.

Section Handshake.
Context {P : Type} `{!Writer P} `{!GoRuntime}.
Implicit Types (d : Client P).








(** When the child cannot be started, [Run] returns the error and
    sends nothing. *)
Lemma run_without_child d (sp : Spawn) (stdin : P) (sel : Select) (e : string) d1 :
  runProcess sp stdin d = Done (Some e) d1 ->
  Run sp stdin sel d = Done (Some e) d1
  /\ commands (trace d1) = commands (trace d) /\ process d1 = process d.
Proof.
  intros Hrun. split; [unfold Run, bind; rewrite Hrun; reflexivity|].
  revert Hrun. unfold runProcess.
  destruct (newProcessErr sp); [intros [= _ <-]; auto|].
  destruct (stdoutPipeErr sp); [intros [= _ <-]; auto|].
  destruct (stdinPipeErr sp); [intros [= _ <-]; auto|].
  destruct (startErr sp).
  - go_unfold. intros [= _ <-]. auto.
  - unfold Lock, Unlock, act. go_unfold. cbn.
    destruct (statusMutex d); cbn; intros [=].
Qed.


End Handshake.
End RunFacts.

(** * The server: the HELLO line through the command loop *)

(** Trimming a line that ends with a quote and a newline. *)

Lemma rev_app_app (s t u : string) :
  String.rev_app (s +:+ t) u = String.rev_app t (String.rev_app s u).
Proof.
  revert u. induction s as [|a s IH]; intros u; [reflexivity|].
  change (String a s +:+ t) with (String a (s +:+ t)). simpl. apply IH.
Qed.

Lemma rev_app_rev_app (s t u : string) :
  String.rev_app (String.rev_app s t) u = String.rev_app t (s +:+ u).
Proof.
  revert t u. induction s as [|a s IH]; intros t u; [reflexivity|].
  simpl. rewrite IH. reflexivity.
Qed.

Lemma isSpace2_quote (a : ascii) : isSpace2 a "034"%char = false.
Proof. unfold isSpace2. apply andb_false_r. Qed.

Lemma isSpace3_quote (a b : ascii) : isSpace3 a b "034"%char = false.
Proof.
  unfold isSpace3.
  change (byte "034"%char) with 34%N. cbn [N.eqb N.leb Pos.eqb N.compare Pos.compare Pos.compare_cont].
  rewrite !andb_false_r. reflexivity.
Qed.

Lemma TrimLeftSpaceRev_quote (r : string) :
  TrimLeftSpaceRev (String "034"%char r) = String "034"%char r.
Proof.
  cbn [TrimLeftSpaceRev]. change (isASCIISpace "034"%char) with false. cbv iota.
  destruct r as [|b [|a r]]; [reflexivity | |].
  - rewrite isSpace2_quote. reflexivity.
  - rewrite isSpace2_quote, isSpace3_quote. reflexivity.
Qed.

Lemma TrimLeftSpaceRev_newline (r : string) :
  TrimLeftSpaceRev (String "010"%char r) = TrimLeftSpaceRev r.
Proof. reflexivity. Qed.

Lemma TrimRightSpace_quote_newline (s : string) :
  TrimRightSpace (s +:+ QUOTE +:+ NL) = s +:+ QUOTE.
Proof.
  unfold TrimRightSpace, String.rev.
  rewrite rev_app_app. change (QUOTE +:+ NL) with (String "034"%char (String "010"%char "")).
  cbn [String.rev_app].
  rewrite TrimLeftSpaceRev_newline, TrimLeftSpaceRev_quote. cbn [String.rev_app].
  rewrite rev_app_rev_app. reflexivity.
Qed.

Lemma append_assoc (s t u : string) : (s +:+ t) +:+ u = s +:+ t +:+ u.
Proof.
  induction s as [|a s IH]; [reflexivity|].
  change (String a s +:+ t) with (String a (s +:+ t)).
  change (String a (s +:+ t) +:+ u) with (String a ((s +:+ t) +:+ u)).
  rewrite IH. reflexivity.
Qed.

(** The line [HELLO <digits> "<agent>"] with its newline. *)
Lemma helloLine_trimmed (digits agent : string) :
  TrimSpace ("HELLO " +:+ helloPayload digits agent +:+ NL)
  = "HELLO " +:+ helloPayload digits agent.
Proof.
  unfold TrimSpace.
  assert (Hl : TrimLeftSpace ("HELLO " +:+ helloPayload digits agent +:+ NL)
               = "HELLO " +:+ helloPayload digits agent +:+ NL) by reflexivity.
  rewrite Hl.
  set (X := "HELLO " +:+ digits +:+ " " +:+ QUOTE +:+ agent).
  assert (H1 : "HELLO " +:+ helloPayload digits agent +:+ NL = X +:+ QUOTE +:+ NL).
  { unfold X, helloPayload. rewrite !append_assoc. reflexivity. }
  assert (H2 : "HELLO " +:+ helloPayload digits agent = X +:+ QUOTE).
  { unfold X, helloPayload. rewrite !append_assoc. reflexivity. }
  rewrite H1, H2. apply TrimRightSpace_quote_newline.
Qed.

Section HelloLine.
Context {I W : Type} `{!Discovery I} `{!Writer W} `{!GoRuntime}.
Implicit Types (d : Server I W).

Lemma runCommand_HELLO d (digits agent : string) :
  isDigits digits = true ->
  runCommand ("HELLO " +:+ helloPayload digits agent +:+ NL) d
  = (run hello (helloPayload digits agent) then ret Continue) d.
Proof.
  intros Hd. unfold runCommand. rewrite helloLine_trimmed.
  assert (Hc : ToUpper (firstField ("HELLO " +:+ helloPayload digits agent)) = "HELLO")
    by reflexivity.
  rewrite Hc. unfold bind at 1. unfold get at 1.
  replace (negb (initialized d) && negb ("HELLO" =? "HELLO")%string
           && negb ("HELLO" =? "QUIT")%string) with false
    by (destruct (initialized d); reflexivity).
  cbn [String.eqb Ascii.eqb Bool.eqb andb].
  destruct digits as [|c digits]; [discriminate|].
  assert (Hlen : (len ("HELLO " +:+ helloPayload (String c digits) agent) <? 7) = false).
  { apply Z.ltb_ge. unfold len.
    change ("HELLO " +:+ helloPayload (String c digits) agent)
      with (String "H" (String "E" (String "L" (String "L" (String "O" (String " "
              (String c (digits +:+ " " +:+ QUOTE +:+ agent +:+ QUOTE)))))))).
    cbn [String.length]. lia. }
  rewrite Hlen. reflexivity.
Qed.

(** Claim C5. For every HELLO payload of the form [<digits> "<agent>"]
    whose digits [strconv.ParseInt] refuses, the server replies with
    the hello error ["Invalid protocol version: " + agent] (the agent,
    not the digits) and the session stays uninitialized; both for
    [hello] on the payload and for the loop of [Run] on the line
    [HELLO <payload>]. *)
Theorem hello_unparsable_version_reports_agent d (digits agent : string)
    (e : NumError) :
  reliable W ->
  encodes (messageError "hello" ("Invalid protocol version: " +:+ agent)) ->
  is_Some (output d) -> initialized d = false ->
  isDigits digits = true -> isAgent agent = true ->
  ParseInt digits = inr e ->
  exists d',
    hello (helloPayload digits agent) d = Done tt d'
    /\ runCommand ("HELLO " +:+ helloPayload digits agent +:+ NL) d
       = Done Continue d'
    /\ emitted d' = emitted d
         ++ [{| EventType := "hello";
                Message := "Invalid protocol version: " +:+ agent;
                Error := true; ProtocolVersion := 0;
                mPort := None; Ports := None |}]
    /\ initialized d' = false.
Proof.
  intros Hw Henc Ho Hi Hd Ha Hp.
  destruct (hello_version_error d digits agent e Hw Henc Ho Hi Hd Ha Hp)
    as (d' & Hh & He & Hi').
  exists d'. split; [exact Hh|]. split; [|split; assumption].
  rewrite (runCommand_HELLO d digits agent Hd). unfold bind. rewrite Hh.
  reflexivity.
Qed.

End HelloLine.

(** * The statements at work on concrete sessions *)

Lemma Buffer_reliable : reliable string.
Proof. intros w data. exists (w +:+ data). reflexivity. Qed.

Lemma example_encoderTotal : encoderTotal.
Proof. intros msg. exists (EventType msg). reflexivity. Qed.

(** The text functions on bytes. *)
Example TrimSpace_unicode :
  TrimSpace (bytes [226; 128; 128; 32; 113; 117; 105; 116; 194; 160; 13; 10]%N)
  = "quit"
  /\ TrimSpace (bytes [226; 128; 113; 10]%N) = bytes [226; 128; 113]%N.
Proof. split; reflexivity. Qed.

Example commandOf_examples :
  commandOf ("  start_sync now" +:+ NL) = "START_SYNC"
  /\ commandOf NL = ""
  /\ commandOf ("Quit" +:+ NL) = "QUIT".
Proof. repeat split; reflexivity. Qed.

Example helloRe_examples :
  helloRe (helloPayload "1" "arduino-cli 1.0") = Some ("1", "arduino-cli 1.0")
  /\ helloRe "" = None
  /\ helloRe (helloPayload "1" "") = None
  /\ helloRe (helloPayload "v1" "x") = None
  /\ helloRe (helloPayload "1" "x" +:+ " ") = None
  /\ helloRe (helloPayload "1" ("a" +:+ QUOTE +:+ "b")) = None.
Proof. repeat split; reflexivity. Qed.

Example ParseInt_bounds :
  ParseInt "9223372036854775807" = inl (2 ^ 63 - 1)
  /\ ParseInt "9223372036854775808" = inr ErrRange
  /\ ParseInt "007" = inl 7
  /\ ParseInt "" = inr ErrSyntax.
Proof. repeat split; reflexivity. Qed.

(** S1 of the specification: QUIT before HELLO. *)
Example quit_before_hello :
  exists d',
    Run (map Line (readLines "" ("quit" +:+ NL))) "EOF" ""
      (NewServer (mkScripted None None [] None 0)) = Done None d'
    /\ emitted d' = [messageOk "quit"]
    /\ quitCalls (impl d') = 1%nat.
Proof. eexists. split; [reflexivity|]. split; reflexivity. Qed.

(** S2 and S3: a HELLO without payload, and a command before HELLO. *)
Example hello_without_payload :
  exists d',
    runLoop (map Line (readLines "" ("hello" +:+ NL +:+ "LIST" +:+ NL))) "EOF"
      freshServer = Done (Some "EOF") d'
    /\ emitted d'
       = [messageError "hello" "Invalid HELLO command";
          messageError "command_error" "First command must be HELLO, but got 'LIST'";
          messageError "command_error" "EOF"]
    /\ initialized d' = false.
Proof. eexists. split; [reflexivity|]. split; reflexivity. Qed.

(** S4: a successful HELLO. *)
Example hello_accepted :
  exists d',
    runCommand ("HELLO 1 " +:+ QUOTE +:+ "arduino-cli" +:+ QUOTE +:+ NL) freshServer
    = Done Continue d'
    /\ emitted d'
       = [{| EventType := "hello"; Message := "OK"; Error := false;
             ProtocolVersion := 1; mPort := None; Ports := None |}]
    /\ initialized d' = true /\ userAgent d' = "arduino-cli"
    /\ reqProtocolVersion d' = 1.
Proof. eexists. split; [reflexivity|]. repeat split; reflexivity. Qed.

(** C1 at work. *)
Lemma polling_list_witness :
  exists ports d',
    runLoop (Line ("START" +:+ NL)
               :: map asInput [EvAdd secondPort; EvRemove dummyPort]
               ++ [Line ("LIST" +:+ NL)])
      "EOF" (readyServer (map asCall [EvAdd dummyPort])) = Done (Some "EOF") d'
    /\ emitted d' = emitted (readyServer (map asCall [EvAdd dummyPort]))
         ++ [messageOk "start"; listMessage ports;
             messageError "command_error" "EOF"]
    /\ (forall p, p ∈ ports
          <-> lastAdded ([EvAdd dummyPort] ++ [EvAdd secondPort; EvRemove dummyPort]) p)
    /\ NoDup (portID <$> ports).
Proof.
  apply (polling_list_reports_last_added
           (readyServer (map asCall [EvAdd dummyPort]))
           [EvAdd dummyPort] [EvAdd secondPort; EvRemove dummyPort]
           (mkScripted None None (map asCall [EvAdd dummyPort]) None 0) "EOF").
  - exact Buffer_reliable.
  - exact example_encoderTotal.
  - eexists; reflexivity.
  - reflexivity.
  - reflexivity.
  - reflexivity.
  - reflexivity.
Defined.

(** C2 as stated fails: START before HELLO is answered with
    [command_error], not with [start]. *)
Lemma start_before_hello_is_command_error :
  commandOf ("START" +:+ NL) = "START"
  /\ replyTypeFor "START" = "start"
  /\ (exists d',
        runCommand ("START" +:+ NL) freshServer = Done Continue d'
        /\ emitted d'
           = [messageError "command_error"
                "First command must be HELLO, but got 'START'"])
  /\ ~ (exists reply ctl d',
          runCommand ("START" +:+ NL) freshServer = Done ctl d'
          /\ emitted d' = emitted freshServer ++ [reply]
          /\ EventType reply = replyTypeFor (commandOf ("START" +:+ NL))).
Proof.
  split; [reflexivity|]. split; [reflexivity|]. split.
  - eexists. split; reflexivity.
  - intros (reply & ctl & d' & Hrun & Hem & Hty).
    vm_compute in Hrun. injection Hrun as _ <-.
    vm_compute in Hem. injection Hem as <-.
    vm_compute in Hty. discriminate Hty.
Qed.

(** C2 at work: START_SYNC on an implementation that reports a port
    before it returns. *)
Lemma reply_event_type_witness :
  exists reply ctl d',
    runCommand ("start_sync" +:+ NL)
      (readyServer [CallEvent "add" (Some dummyPort)]) = Done ctl d'
    /\ emitted d' = emitted (readyServer [CallEvent "add" (Some dummyPort)])
         ++ (if servesStartSync (readyServer [CallEvent "add" (Some dummyPort)])
                  (commandOf ("start_sync" +:+ NL))
             then map callMessage
                    (syncCallsOf (impl (readyServer [CallEvent "add" (Some dummyPort)])))
             else [])
         ++ [reply]
    /\ EventType reply
       = (if beforeHello (readyServer [CallEvent "add" (Some dummyPort)])
               (commandOf ("start_sync" +:+ NL))
          then "command_error"
          else replyTypeFor (commandOf ("start_sync" +:+ NL))).
Proof.
  apply (reply_event_type Buffer_reliable example_encoderTotal
           (readyServer [CallEvent "add" (Some dummyPort)]) ("start_sync" +:+ NL)).
  - eexists; reflexivity.
  - intros Hc. vm_compute in Hc. discriminate Hc.
Defined.

(** C3 at work: LIST before HELLO. *)
Lemma forbidden_command_witness :
  forbidden freshServer (commandOf ("LIST" +:+ NL))
  /\ exists reply d',
       runCommand ("LIST" +:+ NL) freshServer = Done Continue d'
       /\ emitted d' = emitted freshServer ++ [reply]
       /\ Error reply = true
       /\ session d' = session freshServer
       /\ impl d' = impl freshServer.
Proof.
  assert (Hf : forbidden freshServer (commandOf ("LIST" +:+ NL))).
  { left. split; [reflexivity|]. split; intros Hc; vm_compute in Hc; discriminate Hc. }
  split; [exact Hf|].
  apply (forbidden_command_rejected freshServer ("LIST" +:+ NL)).
  - exact Buffer_reliable.
  - exact example_encoderTotal.
  - eexists; reflexivity.
  - exact Hf.
Defined.

(** C4 at work: [quit] before HELLO, with more input behind it. *)
Lemma quit_witness :
  exists d',
    runLoop (Line ("quit" +:+ NL) :: [Line ("LIST" +:+ NL)]) "EOF" freshServer
    = Done None d'
    /\ impl d' = Quit (impl freshServer)
    /\ emitted d' = emitted freshServer
         ++ [{| EventType := "quit"; Message := "OK"; Error := false;
                ProtocolVersion := 0; mPort := None; Ports := None |}]
    /\ session d' = session freshServer.
Proof.
  apply (quit_accepted_in_any_state freshServer ("quit" +:+ NL)
           [Line ("LIST" +:+ NL)] "EOF").
  - exact Buffer_reliable.
  - apply example_encoderTotal.
  - eexists; reflexivity.
  - reflexivity.
Defined.

(** C5 at work: a version one above the largest 64-bit integer. *)
Lemma hello_unparsable_version_witness :
  ParseInt "9223372036854775808" = inr ErrRange
  /\ exists d',
       hello (helloPayload "9223372036854775808" "arduino-cli 1.0") freshServer
       = Done tt d'
       /\ runCommand ("HELLO " +:+ helloPayload "9223372036854775808" "arduino-cli 1.0"
                        +:+ NL) freshServer
          = Done Continue d'
       /\ emitted d' = emitted freshServer
            ++ [{| EventType := "hello";
                   Message := "Invalid protocol version: " +:+ "arduino-cli 1.0";
                   Error := true; ProtocolVersion := 0;
                   mPort := None; Ports := None |}]
       /\ initialized d' = false.
Proof.
  split; [reflexivity|].
  apply (hello_unparsable_version_reports_agent freshServer
           "9223372036854775808" "arduino-cli 1.0" ErrRange).
  - exact Buffer_reliable.
  - apply example_encoderTotal.
  - eexists; reflexivity.
  - reflexivity.
  - reflexivity.
  - reflexivity.
  - reflexivity.
Defined.

(** C8 at work: the reply to QUIT on a broken pipe. *)
Lemma send_aborts_witness :
  send (messageOk "quit") brokenServer
  = Panic "ERROR" (set_output (Some closedPipe) brokenServer)
  /\ forall (A : Type) (k : unit -> Go (Server Scripted ClosedPipe) A),
       (let* u := send (messageOk "quit") in k u) brokenServer
       = Panic "ERROR" (set_output (Some closedPipe) brokenServer).
Proof.
  apply (send_aborts_on_failed_write brokenServer (messageOk "quit")
           closedPipe closedPipe 0 (Some "write |1: broken pipe")).
  - reflexivity.
  - reflexivity.
  - left. vm_compute. discriminate.
Defined.

(** The session does not go on after the failed write. *)
Example run_aborts_on_broken_pipe :
  Run [Line ("quit" +:+ NL); Line ("LIST" +:+ NL)] "EOF" closedPipe
    (NewServer (mkScripted None None [] None 0))
  = Panic "ERROR"
      (set_impl (mkScripted None None [] None 1) brokenServer).
Proof. reflexivity. Qed.

(** C9 at work: the second port of the example store and its clone. *)
Lemma clone_witness :
  (exists b, PortStore.Equals (Some 1%nat) (Some 0%nat) exampleHeap = Done b exampleHeap
     /\ (b = true <-> Address secondPort = Address dummyPort
                      /\ Protocol secondPort = Protocol dummyPort))
  /\ exists (r : nat) (vr : Port) (h' : PortStore.Heap),
       PortStore.Clone (Some 1%nat) exampleHeap = Done (Some r) h'
       /\ r <> 1%nat
       /\ PortStore.ports h' !! r = Some vr
       /\ PortStore.ports h' !! 1%nat = Some secondPort
       /\ Address vr = Address secondPort
       /\ AddressLabel vr = AddressLabel secondPort
       /\ Protocol vr = Protocol secondPort
       /\ ProtocolLabel vr = ProtocolLabel secondPort
       /\ HardwareID vr = HardwareID secondPort
       /\ match Properties secondPort with
          | None => Properties vr = None
          | Some m =>
              exists m', Properties vr = Some m' /\ m' <> m
                /\ PortStore.props h' !! m' = PortStore.props exampleHeap !! m
                /\ PortStore.props h' !! m = PortStore.props exampleHeap !! m
                /\ forall f,
                     PortStore.props (PortStore.mutateProps m' f h') !! m
                     = PortStore.props exampleHeap !! m
                     /\ PortStore.ports (PortStore.mutateProps m' f h') !! 1%nat
                        = Some secondPort
          end.
Proof.
  apply (PortFacts.equals_by_address_protocol_and_clone_independent
           exampleHeap 1%nat 0%nat secondPort dummyPort).
  - reflexivity.
  - reflexivity.
  - intros m [= <-]. eexists. reflexivity.
Defined.

(** The clone in full: a new struct at index 2, a new map at index 1. *)
Example clone_example :
  PortStore.Clone (Some 1%nat) exampleHeap
  = Done (Some 2%nat)
      (PortStore.mkHeap
         [dummyPort; secondPort; PortStore.withProperties (Some 1%nat) secondPort]
         [[("vid", "0x2341"); ("pid", "0x0041"); ("mac", "73622384782")];
          [("vid", "0x2341"); ("pid", "0x0041"); ("mac", "73622384782")]])
  /\ PortStore.Clone None exampleHeap = Done None exampleHeap.
Proof. split; reflexivity. Qed.

Lemma syncingClient_oneActive : DiscoveryClient.oneActive syncingClient.
Proof.
  split; intros c.
  - intros [= <-]. reflexivity.
  - destruct c as [|c]; [reflexivity|]. intros Hc. discriminate Hc.
Qed.


(** The same exchange in full, and one that the child answers with a
    newer protocol version. *)
Example run_hello_example :
  match DiscoveryClient.Run spawnOk "" (DiscoveryClient.RecvMsg (Some helloReply))
          newClient with
  | Done None d' =>
      DiscoveryClient.outgoingCommandsPipe d'
      = Some ("HELLO 1 " +:+ QUOTE
                +:+ "arduino-cli pluggable-discovery-protocol-handler"
                +:+ QUOTE +:+ NL)
      /\ DiscoveryClient.child d' = DiscoveryClient.Running
  | _ => False
  end
  /\ match DiscoveryClient.Run spawnOk ""
             (DiscoveryClient.RecvMsg
                (Some (DiscoveryClient.mkDiscoveryMessage "hello" "ok" false 2 [] None)))
             newClient with
     | Done (Some e) d' =>
         e = "protocol version not supported: requested 1, got 2"
         /\ DiscoveryClient.child d' = DiscoveryClient.Killed
     | _ => False
     end.
Proof. vm_compute. repeat split; reflexivity. Qed.

(** A child that closes its output before it answers: the decode loop
    stores a nil error and closes the channel, and [Run] panics on the
    nil message. *)
Example run_panics_on_closed_output :
  match DiscoveryClient.Run spawnOk "" (DiscoveryClient.RecvMsg None) newClient with
  | Panic reason d' =>
      reason = "invalid memory address or nil pointer dereference"
      /\ DiscoveryClient.child d' = DiscoveryClient.Running
  | _ => False
  end.
Proof. vm_compute. split; reflexivity. Qed.

(** C7 at work. *)
Lemma decoded_event_witness :
  exists d',
    DiscoveryClient.jsonDecodeLoop [DiscoveryClient.DecMsg addMessage] syncingClient
    = DiscoveryClient.jsonDecodeLoop [] d'
    /\ DiscoveryClient.trace d' = DiscoveryClient.trace syncingClient
         ++ match DiscoveryClient.eventChan syncingClient with
            | Some c =>
                [DiscoveryClient.ALock;
                 DiscoveryClient.ASend c
                   (DiscoveryClient.mkEvent (DiscoveryClient.EventType addMessage)
                      (Some dummyPort) (DiscoveryClient.id syncingClient));
                 DiscoveryClient.AUnlock]
            | None => [DiscoveryClient.ALock; DiscoveryClient.AUnlock]
            end
    /\ sendsWithMutex true (DiscoveryClient.trace syncingClient)
         (match DiscoveryClient.eventChan syncingClient with
          | Some c =>
              [DiscoveryClient.ALock;
               DiscoveryClient.ASend c
                 (DiscoveryClient.mkEvent (DiscoveryClient.EventType addMessage)
                    (Some dummyPort) (DiscoveryClient.id syncingClient));
               DiscoveryClient.AUnlock]
          | None => [DiscoveryClient.ALock; DiscoveryClient.AUnlock]
          end)
    /\ DiscoveryClient.mutexHeldAfter (DiscoveryClient.trace d') = false.
Proof.
  apply (DecodeFacts.decoded_event_sent_under_mutex syncingClient addMessage
           dummyPort []).
  - reflexivity.
  - apply syncingClient_oneActive.
  - left. reflexivity.
  - reflexivity.
Defined.

(** C10 at work: a second [StartSync] while a channel is active. *)
Lemma startSync_witness :
  (exists (c' : nat) (d' : DiscoveryClient.Client string),
     DiscoveryClient.StartSync 4 (DiscoveryClient.RecvMsg (Some startSyncReply))
       syncingClient = Done (Some c', None) d'
     /\ c' = length (DiscoveryClient.chans syncingClient)
     /\ DiscoveryClient.eventChan d' = Some c'
     /\ DiscoveryClient.chans d' !! c' = Some (DiscoveryClient.mkChan 4 [] false)
     /\ DiscoveryClient.oneActive d'
     /\ match DiscoveryClient.eventChan syncingClient with
        | Some c =>
            exists ch,
              DiscoveryClient.chans syncingClient !! c = Some ch
              /\ DiscoveryClient.closed ch = false
              /\ DiscoveryClient.chans d' !! c
                 = Some (DiscoveryClient.mkChan (DiscoveryClient.capacity ch)
                           (DiscoveryClient.queue ch
                              ++ [DiscoveryClient.stopEvent syncingClient]) true)
              /\ DiscoveryClient.trace d' = DiscoveryClient.trace syncingClient
                   ++ [DiscoveryClient.ALock;
                       DiscoveryClient.ACommand ("START_SYNC" +:+ NL);
                       DiscoveryClient.ASend c (DiscoveryClient.stopEvent syncingClient);
                       DiscoveryClient.AClose c;
                       DiscoveryClient.AMake c' 4; DiscoveryClient.AUnlock]
        | None =>
            DiscoveryClient.trace d' = DiscoveryClient.trace syncingClient
              ++ [DiscoveryClient.ALock;
                  DiscoveryClient.ACommand ("START_SYNC" +:+ NL);
                  DiscoveryClient.AMake c' 4; DiscoveryClient.AUnlock]
        end)
  /\ (DiscoveryClient.eventChan syncingClient = None ->
      DiscoveryClient.stopSync syncingClient = Done tt syncingClient)
  /\ (forall (calls : list (DiscoveryClient.Call string)) d',
        final (DiscoveryClient.performAll calls syncingClient) = Some d' ->
        DiscoveryClient.oneActive d').
Proof.
  apply (ChannelInvariant.startSync_closes_previous_channel syncingClient 4
           startSyncReply).
  - exact Buffer_reliable.
  - eexists; reflexivity.
  - reflexivity.
  - exact syncingClient_oneActive.
  - repeat split; reflexivity.
  - lia.
Defined.

(** The same call in full: the old channel ends with the stop event
    and is closed, the new one is in the slot. *)
Example startSync_example :
  match DiscoveryClient.StartSync 4 (DiscoveryClient.RecvMsg (Some startSyncReply))
          syncingClient with
  | Done (Some c', None) d' =>
      c' = 1%nat
      /\ DiscoveryClient.chans d'
         = [DiscoveryClient.mkChan 8 [DiscoveryClient.mkEvent "stop" None "dummy"] true;
            DiscoveryClient.mkChan 4 [] false]
      /\ DiscoveryClient.eventChan d' = Some 1%nat
  | _ => False
  end.
Proof. vm_compute. repeat split; reflexivity. Qed.

(** * The server: the lifecycle of a session *)

Lemma ensures_final {S A : Type} (m : Go S A) (d : S) (Q : S -> Prop) :
  ensures m d Q <-> forall d', final (m d) = Some d' -> Q d'.
Proof.
  unfold ensures. destruct (m d) as [a d1|r d1|d1|]; simpl; split;
    try (intros H d' [= <-]; exact H); try (intros H; apply H; reflexivity);
    try (intros _ d' [=]); auto.
Qed.

Lemma ensures_bind {S A B : Type} (m : Go S A) (k : A -> Go S B) (d : S)
    (R Q : S -> Prop) :
  ensures m d R -> (forall d1, R d1 -> Q d1) ->
  (forall a d1, m d = Done a d1 -> R d1 -> ensures (k a) d1 Q) ->
  ensures (bind m k) d Q.
Proof.
  unfold ensures, bind. intros Hm HQ Hk.
  destruct (m d) as [a d1|r d1|d1|]; auto. apply (Hk a d1 eq_refl Hm).
Qed.

Lemma ensures_weaken {S A : Type} (m : Go S A) (d : S) (R Q : S -> Prop) :
  ensures m d R -> (forall d1, R d1 -> Q d1) -> ensures m d Q.
Proof. unfold ensures. destruct (m d); auto. Qed.

Section Lifecycle.
Context {I W : Type} `{!Discovery I} `{!Writer W} `{!GoRuntime}.
Implicit Types (d : Server I W) (msg : message).

(** What [send] leaves alone, whether it returns or panics. *)
Lemma send_cases msg d :
  match send msg d with
  | Done _ d1 | Panic _ d1 =>
      session d1 = session d /\ impl d1 = impl d
      /\ (is_Some (output d) -> is_Some (output d1))
  | _ => False
  end.
Proof.
  unfold send. destruct (wireData msg) as [data wire].
  destruct (output d) as [o|] eqn:Ho.
  2:{ repeat split; auto. rewrite Ho. auto. }
  destruct (Write o data) as [[n err] o'].
  destruct (negb (n =? len data) || bool_decide (err <> None));
    cbn; repeat split; eauto.
Qed.

Lemma sameFlags_refl d : sameFlags d d.
Proof. unfold sameFlags, keepsOutput. auto. Qed.

Lemma sameFlags_trans d d1 d2 : sameFlags d d1 -> sameFlags d1 d2 -> sameFlags d d2.
Proof.
  unfold sameFlags, keepsOutput.
  intros (-> & -> & -> & H1 & H2) (-> & -> & -> & H3 & H4). repeat split; auto.
Qed.

Lemma sameFlags_consistent d d' :
  sameFlags d d' -> consistent d -> consistent d' /\ phaseOf d' = phaseOf d.
Proof.
  unfold sameFlags, keepsOutput, consistent, phaseOf.
  intros (-> & -> & -> & _ & Hc) (H1 & H2 & H3 & H4). auto 10.
Qed.

Lemma send_sameFlags msg d : ensures (send msg) d (sameFlags d).
Proof.
  unfold ensures. pose proof (send_cases msg d) as Hs.
  destruct (send msg d) as [[] d1|r d1|d1|]; try contradiction;
    destruct Hs as (Hse & _ & Ho); apply session_eq in Hse as (? & ? & ? & Hc & _);
    unfold sameFlags, keepsOutput; rewrite Hc; auto.
Qed.

Lemma eventCallback_sameFlags (event : string) (port : option Port) d :
  ensures (eventCallback event port) d (sameFlags d).
Proof.
  unfold ensures, eventCallback. destruct port as [p|]; [|apply sameFlags_refl].
  go_unfold.
  destruct (String.eqb event "add"), (String.eqb event "remove");
    destruct (cachedPorts d) as [m|] eqn:Hm; cbn; rewrite ?Hm; cbn;
    unfold sameFlags, keepsOutput; cbn; rewrite ?Hm; cbn; auto 10;
    repeat split; auto; intros [? [=]].
Qed.

Lemma invoke_sameFlags (c : Callback) d : ensures (invoke c) d (sameFlags d).
Proof.
  destruct c as [event port | m | event port | m]; cbn [invoke].
  - apply eventCallback_sameFlags.
  - unfold ensures, errorCallback, modify, sameFlags, keepsOutput. cbn. auto.
  - apply send_sameFlags.
  - apply send_sameFlags.
Qed.

Lemma runCalls_sameFlags (eventCB : string -> option Port -> Go (Server I W) unit)
    (errorCB : string -> Go (Server I W) unit) (calls : list CallbackCall) d :
  (forall event port d0, ensures (eventCB event port) d0 (sameFlags d0)) ->
  (forall err d0, ensures (errorCB err) d0 (sameFlags d0)) ->
  ensures (runCalls eventCB errorCB calls) d (sameFlags d).
Proof.
  intros He Hr. revert d. induction calls as [|c calls IH]; intros d.
  - apply sameFlags_refl.
  - destruct c as [event port | err]; cbn [runCalls].
    + eapply ensures_bind; [apply He | auto |].
      intros _ d1 _ H1. eapply ensures_weaken; [apply IH|].
      intros d2. apply sameFlags_trans, H1.
    + eapply ensures_bind; [apply Hr | auto |].
      intros _ d1 _ H1. eapply ensures_weaken; [apply IH|].
      intros d2. apply sameFlags_trans, H1.
Qed.

(** Close a goal on the flags of [d'], given how they relate to the
    flags of [d]. *)
Ltac flags :=
  unfold sameFlags, keepsOutput, consistent, phaseOf, lifecycle in *; cbn in *;
  repeat match goal with
         | H : _ /\ _ |- _ => destruct H
         end;
  repeat match goal with
         | H : initialized _ = _ |- _ => rewrite H in *; clear H
         | H : started _ = _ |- _ => rewrite H in *; clear H
         | H : syncStarted _ = _ |- _ => rewrite H in *; clear H
         end;
  cbn in *;
  repeat match goal with
         | |- context [if ?b then _ else _] => destruct b eqn:?
         | H : context [if ?b then _ else _] |- _ => destruct b eqn:?
         end;
  cbn in *; intuition (try congruence; try discriminate; eauto).

Lemma hello_step (cmd : string) d :
  consistent d ->
  ensures (hello cmd) d
    (fun d' => consistent d' /\ keepsOutput d d'
               /\ (phaseOf d' = phaseOf d
                   \/ (phaseOf d = Uninitialized /\ phaseOf d' = Idle))).
Proof.
  intros Hc. unfold hello. unfold ensures. go_unfold.
  destruct (initialized d) eqn:Hi.
  { apply (ensures_weaken _ _ _ _ (send_sameFlags _ d)). intros d1 H1.
    destruct (sameFlags_consistent d d1 H1 Hc). flags. }
  destruct (helloRe cmd) as [[version agent]|].
  2:{ apply (ensures_weaken _ _ _ _ (send_sameFlags _ d)). intros d1 H1.
      destruct (sameFlags_consistent d d1 H1 Hc). flags. }
  destruct (ParseInt version) as [v|e].
  2:{ apply (ensures_weaken _ _ _ _ (send_sameFlags _ (set_userAgent agent d))).
      intros d1 H1. flags. }
  unfold callHello. cbn. destruct (Hello (impl d) agent 1) as [[e|] i'].
  { apply (ensures_weaken _ _ _ _ (send_sameFlags _ _)). intros d1 H1. flags. }
  match goal with |- context [send ?m ?d0] =>
    pose proof (send_sameFlags m d0) as Hs; unfold ensures in Hs;
    destruct (send m d0) as [[] d1|r d1|d1|] end; auto; try solve [flags].
Qed.

(** One reply from [d0], whose flags are known, and nothing after it. *)
Lemma reply_step msg d0 (Q : Server I W -> Prop) :
  (forall d1, sameFlags d0 d1 -> Q d1) -> ensures (send msg) d0 Q.
Proof. intros HQ. exact (ensures_weaken _ _ _ _ (send_sameFlags msg d0) HQ). Qed.

Lemma callStartSync_sameFlags
    (eventCB : string -> option Port -> Go (Server I W) unit)
    (errorCB : string -> Go (Server I W) unit) d :
  (forall event port d0, ensures (eventCB event port) d0 (sameFlags d0)) ->
  (forall err d0, ensures (errorCB err) d0 (sameFlags d0)) ->
  ensures (callStartSync eventCB errorCB) d (sameFlags d).
Proof.
  intros He Hr. unfold ensures, callStartSync.
  destruct (StartSync (impl d)) as [[err calls] i'].
  pose proof (runCalls_sameFlags eventCB errorCB calls (set_impl i' d) He Hr) as Hc.
  unfold ensures in Hc. go_unfold.
  destruct (runCalls eventCB errorCB calls (set_impl i' d)); auto.
Qed.

Lemma errorCallback_sameFlags (err : string) d :
  ensures (errorCallback err) d (sameFlags d).
Proof. unfold ensures, errorCallback, modify, sameFlags, keepsOutput. cbn. auto. Qed.

Lemma start_step d :
  consistent d -> initialized d = true ->
  ensures start d
    (fun d' => consistent d' /\ keepsOutput d d'
               /\ (phaseOf d' = phaseOf d
                   \/ (phaseOf d = Idle /\ phaseOf d' = Polling))).
Proof.
  intros Hc Hi. unfold start. unfold ensures. go_unfold.
  destruct (started d) eqn:Hst.
  { apply reply_step. intros d1 H1. destruct (sameFlags_consistent d d1 H1 Hc). flags. }
  destruct (syncStarted d) eqn:Hsy.
  { apply reply_step. intros d1 H1. destruct (sameFlags_consistent d d1 H1 Hc). flags. }
  match goal with |- context [callStartSync ?e ?r ?d0] =>
    pose proof (callStartSync_sameFlags e r d0 eventCallback_sameFlags
                  errorCallback_sameFlags) as Hs; unfold ensures in Hs;
    destruct (callStartSync e r d0) as [[e0|] d1|r0 d1|d1|] end; auto;
    try solve [flags].
  - apply reply_step. intros d2 H2. flags.
  - match goal with |- context [send ?m ?d0] =>
      pose proof (send_sameFlags m d0) as Hs2; unfold ensures in Hs2;
      destruct (send m d0) as [[] d2|r d2|d2|] end; auto; flags.
Qed.

Lemma startSync_step d :
  consistent d -> initialized d = true ->
  ensures startSync d
    (fun d' => consistent d' /\ keepsOutput d d'
               /\ (phaseOf d' = phaseOf d
                   \/ (phaseOf d = Idle /\ phaseOf d' = Syncing))).
Proof.
  intros Hc Hi. unfold startSync. unfold ensures. go_unfold.
  destruct (syncStarted d) eqn:Hsy.
  { apply reply_step. intros d1 H1. destruct (sameFlags_consistent d d1 H1 Hc). flags. }
  destruct (started d) eqn:Hst.
  { apply reply_step. intros d1 H1. destruct (sameFlags_consistent d d1 H1 Hc). flags. }
  match goal with |- context [callStartSync ?e ?r ?d0] =>
    pose proof (callStartSync_sameFlags e r d0
                  (fun event port d0 => send_sameFlags _ d0)
                  (fun err d0 => send_sameFlags _ d0)) as Hs; unfold ensures in Hs;
    destruct (callStartSync e r d0) as [[e0|] d1|r0 d1|d1|] end; auto;
    try solve [flags].
  - apply reply_step. intros d2 H2. flags.
  - match goal with |- context [send ?m ?d0] =>
      pose proof (send_sameFlags m d0) as Hs2; unfold ensures in Hs2;
      destruct (send m d0) as [[] d2|r d2|d2|] end; auto; flags.
Qed.

Lemma stop_step d :
  consistent d -> initialized d = true ->
  ensures stop d
    (fun d' => consistent d' /\ keepsOutput d d'
               /\ (phaseOf d' = phaseOf d
                   \/ ((phaseOf d = Polling \/ phaseOf d = Syncing)
                       /\ phaseOf d' = Idle))).
Proof.
  intros Hc Hi. unfold stop. unfold ensures. go_unfold.
  destruct (negb (syncStarted d) && negb (started d)) eqn:Hn.
  { apply reply_step. intros d1 H1. destruct (sameFlags_consistent d d1 H1 Hc). flags. }
  unfold callStop. destruct (Stop (impl d)) as [[e|] i']; cbn.
  { apply reply_step. intros d1 H1. flags. }
  destruct (syncStarted d) eqn:Hsy; cbn;
    match goal with |- context [send ?m ?d0] =>
      pose proof (send_sameFlags m d0) as Hs2; unfold ensures in Hs2;
      destruct (send m d0) as [[] d2|r d2|d2|] end; auto; flags.
Qed.

Lemma list_step d : ensures list_ d (sameFlags d).
Proof.
  unfold list_. unfold ensures. go_unfold.
  destruct (negb (started d)); [apply send_sameFlags|].
  destruct (syncStarted d); [apply send_sameFlags|].
  destruct (negb (String.eqb (cachedErr d) "")); apply send_sameFlags.
Qed.

Lemma then_ret {A : Type} (m : Go (Server I W) unit) (a : A) d
    (Q : Server I W -> Prop) :
  ensures m d Q -> ensures (run m then ret a) d Q.
Proof.
  intros Hm. eapply ensures_bind; [exact Hm | auto |]. intros _ d1 _ H1. exact H1.
Qed.

Lemma runCommand_step (line : string) d :
  consistent d ->
  ensures (runCommand line) d
    (fun d' => consistent d' /\ keepsOutput d d'
               /\ lifecycle (phaseOf d) (commandOf line) (phaseOf d')).
Proof.
  intros Hc. unfold runCommand. fold (commandOf line).
  set (cmd := commandOf line). clearbody cmd.
  unfold ensures at 1. unfold bind at 1. unfold get at 1.
  destruct (negb (initialized d) && negb (String.eqb cmd "HELLO")
            && negb (String.eqb cmd "QUIT")) eqn:Hg.
  { apply then_ret, reply_step. intros d1 H1.
    destruct (sameFlags_consistent d d1 H1 Hc) as [Hc1 Hp].
    split; [exact Hc1|]. split; [apply H1|]. left. exact Hp. }
  destruct (String.eqb cmd "HELLO") eqn:E1.
  { apply String.eqb_eq in E1. subst cmd. apply then_ret.
    assert (Hh : forall arg, ensures (hello arg) d
                   (fun d' => consistent d' /\ keepsOutput d d'
                              /\ lifecycle (phaseOf d) "HELLO" (phaseOf d'))).
    { intros arg. eapply ensures_weaken; [apply hello_step, Hc|].
      intros d1 (H1 & H2 & H3). split; [exact H1|]. split; [exact H2|].
      unfold lifecycle. destruct H3 as [H3 | [H3 H4]]; auto. }
    destruct (len (TrimSpace line) <? 7); apply Hh. }
  assert (Hi : cmd <> "QUIT" -> initialized d = true).
  { intros Hq. apply String.eqb_neq in Hq. rewrite Hq in Hg.
    destruct (initialized d); [reflexivity | discriminate]. }
  destruct (String.eqb cmd "START") eqn:E2.
  { apply String.eqb_eq in E2. subst cmd. apply then_ret.
    eapply ensures_weaken; [apply (start_step d Hc (Hi ltac:(discriminate)))|].
    intros d1 (H1 & H2 & H3). split; [exact H1|]. split; [exact H2|].
    unfold lifecycle. destruct H3 as [H3 | [H3 H4]]; auto 10. }
  destruct (String.eqb cmd "LIST") eqn:E3.
  { apply then_ret. eapply ensures_weaken; [apply list_step|].
    intros d1 H1. destruct (sameFlags_consistent d d1 H1 Hc) as [Hc1 Hp].
    split; [exact Hc1|]. split; [apply H1|]. left. exact Hp. }
  destruct (String.eqb cmd "START_SYNC") eqn:E4.
  { apply String.eqb_eq in E4. subst cmd. apply then_ret.
    eapply ensures_weaken; [apply (startSync_step d Hc (Hi ltac:(discriminate)))|].
    intros d1 (H1 & H2 & H3). split; [exact H1|]. split; [exact H2|].
    unfold lifecycle. destruct H3 as [H3 | [H3 H4]]; auto 10. }
  destruct (String.eqb cmd "STOP") eqn:E5.
  { apply String.eqb_eq in E5. subst cmd. apply then_ret.
    eapply ensures_weaken; [apply (stop_step d Hc (Hi ltac:(discriminate)))|].
    intros d1 (H1 & H2 & H3). split; [exact H1|]. split; [exact H2|].
    unfold lifecycle. destruct H3 as [H3 | [H3 H4]]; auto 10. }
  destruct (String.eqb cmd "QUIT") eqn:E6.
  { unfold ensures. go_unfold.
    match goal with |- context [send ?m ?d0] =>
      pose proof (send_sameFlags m d0) as Hs2; unfold ensures in Hs2;
      destruct (send m d0) as [[] d2|r d2|d2|] end; auto;
      destruct (sameFlags_consistent _ d2 Hs2 Hc) as [Hc1 Hp];
      (split; [exact Hc1|]); (split; [apply Hs2|]); left; exact Hp. }
  apply then_ret, reply_step. intros d1 H1.
  destruct (sameFlags_consistent d d1 H1 Hc) as [Hc1 Hp].
  split; [exact Hc1|]. split; [apply H1|]. left. exact Hp.
Qed.

(** Property X1. From a state whose flags are consistent, a command
    moves the session only along the edges of the lifecycle: HELLO from
    uninitialized to idle, START from idle to polling, START_SYNC from
    idle to event mode, STOP from either mode to idle; every other
    command, every refused or failed command and every panic leaves
    the phase as it is, and the flags stay consistent. A callback of
    the implementation never changes the phase. *)
Theorem commands_follow_lifecycle d :
  consistent d ->
  (forall (line : string) d',
     final (runCommand line d) = Some d' ->
     consistent d' /\ lifecycle (phaseOf d) (commandOf line) (phaseOf d'))
  /\ (forall (c : Callback) d',
        final (invoke c d) = Some d' -> consistent d' /\ phaseOf d' = phaseOf d).
Proof.
  intros Hc. split.
  - intros line d' Hf.
    pose proof (proj1 (ensures_final _ _ _) (runCommand_step line d Hc) d' Hf)
      as (H1 & _ & H3). auto.
  - intros c d' Hf.
    pose proof (proj1 (ensures_final _ _ _) (invoke_sameFlags c d) d' Hf) as H1.
    exact (sameFlags_consistent d d' H1 Hc).
Qed.

Lemma runLoop_consistent (inputs : list Input) (readErr : string) d :
  consistent d ->
  ensures (runLoop inputs readErr) d (fun d' => consistent d' /\ keepsOutput d d').
Proof.
  revert d. induction inputs as [|[line|c] rest IH]; intros d Hc; cbn [runLoop].
  - apply then_ret, reply_step. intros d1 H1.
    destruct (sameFlags_consistent d d1 H1 Hc) as [Hc1 _]. split; [exact Hc1 | apply H1].
  - eapply ensures_bind; [apply (runCommand_step line d Hc) | |].
    + intros d1 (H1 & H2 & _). auto.
    + intros [|err] d1 _ (H1 & H2 & _).
      * eapply ensures_weaken; [apply (IH d1 H1)|].
        intros d2 [H3 H4]. split; [exact H3|]. unfold keepsOutput in *. tauto.
      * unfold ensures, ret. auto.
  - eapply ensures_bind; [apply (invoke_sameFlags c d) | |].
    + intros d1 H1. destruct (sameFlags_consistent d d1 H1 Hc). split; [auto | apply H1].
    + intros _ d1 _ H1. destruct (sameFlags_consistent d d1 H1 Hc) as [Hc1 _].
      eapply ensures_weaken; [apply (IH d1 Hc1)|].
      intros d2 [H3 H4]. split; [exact H3|].
      destruct H1 as (_ & _ & _ & H1). unfold keepsOutput in *. tauto.
Qed.

(** Property X2. However [Run] ends on a new server (it returns, or a
    send or a callback panics), and whatever lines and callbacks it was
    given, the flags are consistent at the end: [started] and
    [syncStarted] are never both set, neither is set before HELLO has
    succeeded, and while [started] is set the map of cached ports is
    not nil. The same holds after any further input. *)
Theorem run_keeps_flags_consistent (i : I) (out : W) (inputs : list Input)
    (readErr : string) d' :
  final (Run inputs readErr out (NewServer i)) = Some d' ->
  consistent d'
  /\ forall (more : list Input) d'',
       final (runLoop more readErr d') = Some d'' -> consistent d''.
Proof.
  intros Hf.
  assert (Hc0 : consistent (set_output (Some out) (NewServer i))).
  { unfold consistent. cbn. repeat split; discriminate. }
  assert (Hc : consistent d').
  { apply (proj1 (ensures_final _ _ _)
             (runLoop_consistent inputs readErr _ Hc0) d' Hf). }
  split; [exact Hc|]. intros more d'' Hm.
  apply (proj1 (ensures_final _ _ _) (runLoop_consistent more readErr d' Hc) d'' Hm).
Qed.

End Lifecycle.

(** * The server: what the commands do *)

Section Outcomes.
Context {I W : Type} `{!Discovery I} `{!Writer W} `{!GoRuntime}.
Implicit Types (d : Server I W) (msg : message).
Hypothesis Hw : reliable W.
Hypothesis Henc : encoderTotal.

Lemma hello_line_outcome d (digits agent : string) (v : Z)
    (r : error) (i' : I) :
  is_Some (output d) -> initialized d = false ->
  isDigits digits = true -> isAgent agent = true ->
  ParseInt digits = inl v ->
  Hello (impl d) agent 1 = (r, i') ->
  exists d',
    runCommand ("HELLO " +:+ helloPayload digits agent +:+ NL) d = Done Continue d'
    /\ emitted d' = emitted d
         ++ [match r with
             | None => {| EventType := "hello"; Message := "OK"; Error := false;
                          ProtocolVersion := 1; mPort := None; Ports := None |}
             | Some e => messageError "hello" e
             end]
    /\ initialized d' = (match r with Some _ => false | None => true end)
    /\ userAgent d' = agent /\ reqProtocolVersion d' = v /\ impl d' = i'
    /\ started d' = started d /\ syncStarted d' = syncStarted d.
Proof.
  intros Ho Hi Hd Ha Hp Hh.
  rewrite (runCommand_HELLO d digits agent Hd).
  unfold hello. go_unfold. rewrite Hi, (helloRe_payload digits agent Hd Ha), Hp.
  unfold callHello. cbn. rewrite Hh.
  set (d0 := set_impl i' (set_reqProtocolVersion v (set_userAgent agent d))).
  destruct r as [e|].
  - destruct (send_appends Hw Henc d0 (messageError "hello" e) Ho)
      as (d' & Hs & He & _ & Hse & Him).
    exists d'. rewrite Hs. split; [reflexivity|]. split; [exact He|].
    apply session_eq in Hse as (H1 & H2 & H3 & _ & _ & H6 & H7).
    rewrite H1, H2, H3, H6, H7, Him. cbn. auto 10.
  - destruct (send_appends Hw Henc d0
                {| EventType := "hello"; Message := "OK"; Error := false;
                   ProtocolVersion := 1; mPort := None; Ports := None |} Ho)
      as (d' & Hs & He & _ & Hse & Him).
    eexists. rewrite Hs. split; [reflexivity|]. cbn. split; [exact He|].
    apply session_eq in Hse as (H1 & H2 & H3 & _ & _ & H6 & H7).
    rewrite H2, H3, H6, H7, Him. cbn. auto 10.
Qed.

(** Property X3. A well-formed HELLO with any version that
    [strconv.ParseInt] accepts is handed to the implementation as
    [Hello(agent, 1)]: the version passed on and the version in the
    reply are 1 whatever the client asked for, which is only recorded
    in [reqProtocolVersion]. If the implementation returns an error the
    reply carries it and the session stays uninitialized, although the
    user agent and the requested version have been stored. *)
Theorem hello_negotiates_version_one d (digits agent : string) (v : Z)
    (r : error) (i' : I) :
  is_Some (output d) -> initialized d = false ->
  isDigits digits = true -> isAgent agent = true ->
  ParseInt digits = inl v ->
  Hello (impl d) agent 1 = (r, i') ->
  exists d',
    runCommand ("HELLO " +:+ helloPayload digits agent +:+ NL) d = Done Continue d'
    /\ emitted d' = emitted d
         ++ [match r with
             | None => {| EventType := "hello"; Message := "OK"; Error := false;
                          ProtocolVersion := 1; mPort := None; Ports := None |}
             | Some e => messageError "hello" e
             end]
    /\ initialized d' = (match r with Some _ => false | None => true end)
    /\ userAgent d' = agent /\ reqProtocolVersion d' = v /\ impl d' = i'
    /\ started d' = started d /\ syncStarted d' = syncStarted d.
Proof. apply hello_line_outcome. Qed.

Lemma start_outcome d (evs0 : list PortEvent) (r : error) (i' : I) :
  is_Some (output d) -> started d = false -> syncStarted d = false ->
  StartSync (impl d) = (r, map asCall evs0, i') ->
  exists d',
    start d = Done tt d'
    /\ emitted d' = emitted d
         ++ [match r with
             | None => messageOk "start"
             | Some e => messageError "start" ("Cannot START: " +:+ e)
             end]
    /\ started d' = (match r with Some _ => false | None => true end)
    /\ cachedPorts d' = Some (foldl applyEvent ∅ evs0)
    /\ cachedErr d' = "" /\ impl d' = i'
    /\ syncStarted d' = false /\ initialized d' = initialized d.
Proof.
  intros Ho Hst Hsy Himpl.
  unfold start. go_unfold. rewrite Hst, Hsy.
  unfold callStartSync. cbn. rewrite Himpl. unfold bind.
  rewrite (runCalls_events evs0
             (set_impl i' (set_cachedErr "" (set_cachedPorts (Some ∅) d))) ∅ eq_refl).
  unfold ret.
  set (d0 := set_cachedPorts (Some (foldl applyEvent ∅ evs0))
               (set_impl i' (set_cachedErr "" (set_cachedPorts (Some ∅) d)))).
  destruct r as [e|].
  - destruct (send_appends Hw Henc d0 (messageError "start" ("Cannot START: " +:+ e)) Ho)
      as (d' & Hs & He & _ & Hse & Him).
    exists d'. rewrite Hs. split; [reflexivity|]. split; [exact He|].
    apply session_eq in Hse as (H1 & H2 & H3 & H4 & H5 & _).
    rewrite H1, H2, H3, H4, H5, Him. cbn. auto 10.
  - destruct (send_appends Hw Henc (set_started true d0) (messageOk "start") Ho)
      as (d' & Hs & He & _ & Hse & Him).
    exists d'. rewrite Hs. split; [reflexivity|]. split; [exact He|].
    apply session_eq in Hse as (H1 & H2 & H3 & H4 & H5 & _).
    rewrite H1, H2, H3, H4, H5, Him. cbn. auto 10.
Qed.


Lemma startSync_outcome d (calls : list CallbackCall) (r : error) (i' : I) :
  is_Some (output d) -> started d = false -> syncStarted d = false ->
  StartSync (impl d) = (r, calls, i') ->
  exists d',
    startSync d = Done tt d'
    /\ emitted d' = emitted d ++ map callMessage calls
         ++ [match r with
             | None => messageOk "start_sync"
             | Some e => messageError "start_sync" ("Cannot START_SYNC: " +:+ e)
             end]
    /\ syncStarted d' = (match r with Some _ => false | None => true end)
    /\ impl d' = i' /\ started d' = false /\ initialized d' = initialized d
    /\ cachedPorts d' = cachedPorts d.
Proof.
  intros Ho Hst Hsy Himpl.
  unfold startSync. go_unfold. rewrite Hst, Hsy.
  unfold callStartSync. rewrite Himpl. go_unfold.
  destruct (runCalls_sync Hw Henc calls (set_impl i' d) Ho)
    as (d1 & Hr & He1 & Ho1 & Hs1 & Hi1).
  rewrite Hr. apply session_eq in Hs1 as (G1 & G2 & G3 & G4 & _).
  cbn in He1, G1, G2, G3, G4, Hi1.
  destruct r as [e|].
  - destruct (send_appends Hw Henc d1
                (messageError "start_sync" ("Cannot START_SYNC: " +:+ e)) Ho1)
      as (d' & Hs & He & _ & Hse & Him).
    exists d'. rewrite Hs. split; [reflexivity|].
    apply session_eq in Hse as (H1 & H2 & H3 & H4 & _).
    rewrite He, He1, <- app_assoc, H1, H2, H3, H4, Him, G1, G2, G3, G4, Hi1, Hst, Hsy.
    auto 10.
  - assert (Ho2 : is_Some (output (set_syncStarted true d1))) by exact Ho1.
    destruct (send_appends Hw Henc _ (messageOk "start_sync") Ho2)
      as (d' & Hs & He & _ & Hse & Him).
    exists d'. rewrite Hs. split; [reflexivity|].
    apply session_eq in Hse as (H1 & H2 & H3 & H4 & _).
    rewrite He, H1, H2, H3, H4, Him. cbn.
    rewrite He1, <- app_assoc, G1, G2, G4, Hi1, Hst. auto 10.
Qed.

(** Property X5. STOP in either mode calls [impl.Stop()]. If it
    succeeds both mode flags are cleared; if it fails the reply is
    ["Cannot STOP: " + err] and the mode flags are as before. The cache
    of ports and the cached error are left alone in both cases. *)
Theorem stop_leaves_mode_on_failure d (r : error) (i' : I) :
  is_Some (output d) -> started d = true \/ syncStarted d = true ->
  Stop (impl d) = (r, i') ->
  exists d',
    stop d = Done tt d'
    /\ emitted d' = emitted d
         ++ [match r with
             | None => messageOk "stop"
             | Some e => messageError "stop" ("Cannot STOP: " +:+ e)
             end]
    /\ impl d' = i'
    /\ match r with
       | None => started d' = false /\ syncStarted d' = false
       | Some _ => started d' = started d /\ syncStarted d' = syncStarted d
       end
    /\ cachedPorts d' = cachedPorts d /\ cachedErr d' = cachedErr d.
Proof.
  intros Ho Hmode Hstop.
  unfold stop. go_unfold.
  assert (Hn : negb (syncStarted d) && negb (started d) = false).
  { destruct Hmode as [-> | ->]; [apply andb_false_r | reflexivity]. }
  rewrite Hn. unfold callStop. rewrite Hstop.
  destruct r as [e|].
  - destruct (send_appends Hw Henc (set_impl i' d)
                (messageError "stop" ("Cannot STOP: " +:+ e)) Ho)
      as (d' & Hs & He & _ & Hse & Him).
    exists d'. rewrite Hs. split; [reflexivity|]. split; [exact He|].
    apply session_eq in Hse as (H1 & H2 & H3 & H4 & H5 & _).
    rewrite H2, H3, H4, H5, Him. cbn. auto 10.
  - cbn. destruct (syncStarted d) eqn:Hsy; cbn.
    + assert (Ho2 : is_Some (output (set_syncStarted false
                                       (set_started false (set_impl i' d)))))
        by exact Ho.
      destruct (send_appends Hw Henc _ (messageOk "stop") Ho2)
        as (d' & Hs & He & _ & Hse & Him).
      exists d'. rewrite Hs. split; [reflexivity|]. split; [exact He|].
      apply session_eq in Hse as (H1 & H2 & H3 & H4 & H5 & _).
      rewrite H2, H3, H4, H5, Him. cbn. auto 10.
    + assert (Ho2 : is_Some (output (set_started false (set_impl i' d)))) by exact Ho.
      destruct (send_appends Hw Henc _ (messageOk "stop") Ho2)
        as (d' & Hs & He & _ & Hse & Him).
      exists d'. rewrite Hs. split; [reflexivity|]. split; [exact He|].
      apply session_eq in Hse as (H1 & H2 & H3 & H4 & H5 & _).
      rewrite H2, H3, H4, H5, Him. cbn. auto 10.
Qed.

(** Property X6. In polling mode an error that the implementation
    reports through the error callback masks the list: whatever ports
    are added or removed afterwards (they are still cached), the next
    LIST is answered with the error message and [error: true], not with
    the ports. *)
Theorem reported_error_masks_list d (e : string) (evs : list PortEvent)
    (rest : list Input) (readErr : string) (m : gmap string Port) :
  is_Some (output d) -> initialized d = true -> started d = true ->
  syncStarted d = false -> cachedPorts d = Some m -> e <> "" ->
  exists d',
    runLoop (Async (CbErrorCallback e) :: map asInput evs
               ++ Line ("LIST" +:+ NL) :: rest) readErr d
    = runLoop rest readErr d'
    /\ emitted d' = emitted d ++ [messageError "list" e]
    /\ cachedErr d' = e /\ started d' = true
    /\ cachedPorts d' = Some (foldl applyEvent m evs).
Proof.
  intros Ho Hi Hst Hsy Hm He.
  cbn [runLoop invoke]. unfold bind at 1.
  change (errorCallback e d) with (@Done (Server I W) unit tt (set_cachedErr e d)).
  cbv beta iota.
  rewrite (runLoop_events evs _ readErr (set_cachedErr e d) m Hm).
  set (d1 := set_cachedPorts (Some (foldl applyEvent m evs)) (set_cachedErr e d)).
  destruct (send_appends Hw Henc d1 (messageError "list" e) Ho)
    as (d' & Hs & Hem & _ & Hse & _).
  exists d'. cbn [runLoop]. unfold bind at 1.
  rewrite (runCommand_LIST d1 Hi). unfold list_. go_unfold.
  change (started d1) with (started d). change (syncStarted d1) with (syncStarted d).
  change (cachedErr d1) with e. rewrite Hst, Hsy. cbn [negb].
  apply String.eqb_neq in He. rewrite He. cbn [negb]. rewrite Hs.
  split; [reflexivity|]. split; [exact Hem|].
  apply session_eq in Hse as (_ & H2 & _ & H4 & H5 & _).
  rewrite H2, H4, H5. auto.
Qed.

(** Property X7. The event-mode callbacks forward every call at once
    and in order, one message for each: no event is filtered, merged or
    checked against the phase of the session (not even [syncStarted]),
    a port that is nil is forwarded as no port, and the session state
    is untouched. *)
Theorem sync_callbacks_forwarded d (calls : list CallbackCall)
    (rest : list Input) (readErr : string) :
  is_Some (output d) ->
  exists d',
    runLoop (map asSyncInput calls ++ rest) readErr d = runLoop rest readErr d'
    /\ emitted d' = emitted d ++ map callMessage calls
    /\ session d' = session d /\ impl d' = impl d /\ is_Some (output d').
Proof.
  revert d. induction calls as [|c calls IH]; intros d Ho.
  - exists d. cbn. rewrite app_nil_r. auto.
  - assert (Hc : exists d1,
              match asSyncInput c with
              | Async cb => invoke cb d
              | Line _ => Done tt d
              end = Done tt d1
              /\ emitted d1 = emitted d ++ [callMessage c]
              /\ is_Some (output d1) /\ session d1 = session d /\ impl d1 = impl d).
    { destruct c; cbn; unfold syncEvent, errorEvent; apply (send_appends Hw Henc), Ho. }
    destruct Hc as (d1 & H1 & He1 & Ho1 & Hs1 & Hi1).
    destruct (IH d1 Ho1) as (d' & Hr & He & Hs & Hi & Hout).
    exists d'. split.
    + destruct c; cbn [map app asSyncInput runLoop] in *; unfold bind at 1;
        rewrite H1; exact Hr.
    + rewrite He, He1, <- app_assoc. cbn. repeat split; auto; congruence.
Qed.

Lemma runCommand_returns (line : string) d :
  is_Some (output d) -> Forall hasPort (syncCallsOf (impl d)) ->
  exists ctl d',
    runCommand line d = Done ctl d'
    /\ ((ctl = Return None /\ commandOf line = "QUIT")
        \/ (ctl = Continue /\ commandOf line <> "QUIT")).
Proof.
  intros Ho Hports.
  assert (Hlift : forall (k : Go (Server I W) unit),
            commandOf line <> "QUIT" ->
            (exists d', k d = Done tt d') ->
            exists ctl d', (run k then ret Continue) d = Done ctl d'
              /\ ((ctl = Return None /\ commandOf line = "QUIT")
                  \/ (ctl = Continue /\ commandOf line <> "QUIT"))).
  { intros k Hq (d' & Hk). exists Continue, d'. unfold bind. rewrite Hk. auto. }
  unfold runCommand. fold (commandOf line).
  set (cmd := commandOf line) in *. clearbody cmd.
  unfold bind at 1. unfold get at 1.
  destruct (negb (initialized d) && negb (String.eqb cmd "HELLO")
            && negb (String.eqb cmd "QUIT")) eqn:Hg.
  { apply Hlift.
    - intros ->. rewrite andb_false_r in Hg. discriminate.
    - destruct (send_appends Hw Henc d
                  (messageError "command_error"
                     ("First command must be HELLO, but got '" +:+ cmd +:+ "'")) Ho)
        as (d' & Hs & _). eauto. }
  clear Hg.
  destruct (String.eqb cmd "HELLO") eqn:E1.
  { apply String.eqb_eq in E1. subst cmd. apply Hlift; [discriminate|].
    destruct (len (TrimSpace line) <? 7);
      [destruct (hello_one_reply Hw Henc d "" Ho) as (? & d' & Hh & _)
      |destruct (hello_one_reply Hw Henc d (drop_bytes 6 (TrimSpace line)) Ho)
         as (? & d' & Hh & _)]; eauto. }
  destruct (String.eqb cmd "START") eqn:E2.
  { apply String.eqb_eq in E2. subst cmd. apply Hlift; [discriminate|].
    destruct (start_one_reply Hw Henc d Ho Hports) as (? & d' & Hh & _). eauto. }
  destruct (String.eqb cmd "LIST") eqn:E3.
  { apply String.eqb_eq in E3. subst cmd. apply Hlift; [discriminate|].
    destruct (list_one_reply Hw Henc d Ho) as (? & d' & Hh & _). eauto. }
  destruct (String.eqb cmd "START_SYNC") eqn:E4.
  { apply String.eqb_eq in E4. subst cmd. apply Hlift; [discriminate|].
    destruct (startSync_one_reply Hw Henc d Ho) as (? & d' & Hh & _). eauto. }
  destruct (String.eqb cmd "STOP") eqn:E5.
  { apply String.eqb_eq in E5. subst cmd. apply Hlift; [discriminate|].
    destruct (stop_one_reply Hw Henc d Ho) as (? & d' & Hh & _). eauto. }
  destruct (String.eqb cmd "QUIT") eqn:E6.
  { apply String.eqb_eq in E6. subst cmd. go_unfold.
    destruct (send_appends Hw Henc (set_impl (Quit (impl d)) d) (messageOk "quit") Ho)
      as (d' & Hs & _).
    exists (Return None), d'. rewrite Hs. auto. }
  apply Hlift; [apply String.eqb_neq, E6|].
  destruct (send_appends Hw Henc d
              (messageError "command_error" ("Command " +:+ cmd +:+ " not supported")) Ho)
    as (d' & Hs & _). eauto.
Qed.

Lemma invoke_returns (c : Callback) d :
  is_Some (output d) -> deliverable d (Async c) ->
  exists d', invoke c d = Done tt d'.
Proof.
  intros Ho Hd. destruct c as [event port | m | event port | m]; cbn [invoke].
  - destruct Hd as [[p ->] [m Hm]].
    destruct (eventCallback_polling event p d m Hm) as [m' H1]. eauto.
  - eexists. reflexivity.
  - destruct (send_appends Hw Henc d
                {| EventType := event; Message := ""; Error := false;
                   ProtocolVersion := 0; mPort := port; Ports := None |} Ho)
      as (d' & Hs & _). eauto.
  - destruct (send_appends Hw Henc d (messageError "start_sync" m) Ho)
      as (d' & Hs & _). eauto.
Qed.

Lemma deliverable_later d d' (i : Input) :
  keepsOutput d d' -> deliverable d i -> deliverable d' i.
Proof.
  intros [_ Hk]. destruct i as [line|[event port | m | event port | m]]; cbn; auto.
  intros [Hp Hm]. auto.
Qed.

(** Property X8. With a writer that takes every write and an encoder
    that accepts every message, the loop of [Run] always returns, on
    any lines and any callbacks that the state can take: it returns nil
    exactly when one of the lines is QUIT, and the read error
    otherwise. *)
Theorem run_returns_nil_exactly_on_quit d (inputs : list Input) (readErr : string) :
  consistent d -> is_Some (output d) ->
  (forall i : I, Forall hasPort (syncCallsOf i)) ->
  Forall (deliverable d) inputs ->
  exists r d',
    runLoop inputs readErr d = Done r d'
    /\ (r = None <-> Exists isQuit inputs)
    /\ (r = None \/ r = Some readErr).
Proof.
  intros Hc Ho Hports. revert d Hc Ho.
  induction inputs as [|i rest IH]; intros d Hc Ho Hin.
  - destruct (send_appends Hw Henc d (messageError "command_error" readErr) Ho)
      as (d' & Hs & _).
    exists (Some readErr), d'. cbn [runLoop]. unfold bind. rewrite Hs.
    split; [reflexivity|]. split; [|auto].
    split; [discriminate | intros Hex; inversion Hex].
  - apply Forall_cons in Hin as [Hi Hrest].
    destruct i as [line|c]; cbn [runLoop].
    + destruct (runCommand_returns line d Ho (Hports (impl d)))
        as (ctl & d1 & Hrun & Hctl).
      pose proof (runCommand_step line d Hc) as Hstep. unfold ensures in Hstep.
      rewrite Hrun in Hstep. destruct Hstep as (Hc1 & Hk & _).
      unfold bind at 1. rewrite Hrun.
      destruct Hctl as [[-> Hq] | [-> Hq]].
      * exists None, d1. split; [reflexivity|]. split; [|auto].
        split; [intros _; apply Exists_cons_hd; exact Hq | reflexivity].
      * destruct (IH d1 Hc1 (proj1 Hk Ho)) as (r & d' & Hr & Hiff & Hor).
        { eapply Forall_impl; [exact Hrest|]. intros x. apply deliverable_later, Hk. }
        exists r, d'. split; [exact Hr|]. split; [|exact Hor].
        rewrite Hiff. split; [apply Exists_cons_tl|].
        intros Hex. apply Exists_cons in Hex as [Hq' | Hex]; [contradiction | exact Hex].
    + destruct (invoke_returns c d Ho Hi) as (d1 & Hinv).
      pose proof (invoke_sameFlags c d) as Hstep. unfold ensures in Hstep.
      rewrite Hinv in Hstep.
      destruct (sameFlags_consistent d d1 Hstep Hc) as [Hc1 _].
      destruct Hstep as (_ & _ & _ & Hk).
      unfold bind at 1. rewrite Hinv.
      destruct (IH d1 Hc1 (proj1 Hk Ho)) as (r & d' & Hr & Hiff & Hor).
      { eapply Forall_impl; [exact Hrest|]. intros x. apply deliverable_later, Hk. }
      exists r, d'. split; [exact Hr|]. split; [|exact Hor].
      rewrite Hiff. split; [apply Exists_cons_tl|].
      intros Hex. apply Exists_cons in Hex as [Hq' | Hex]; [destruct Hq' | exact Hex].
Qed.

End Outcomes.

(** * The server: the payload of HELLO and its version *)

(** The pattern of the HELLO payload, read backwards. *)

Lemma byte_eq (a : ascii) (n : N) : (byte a =? n)%N = true -> a = ascii_of_N n.
Proof.
  intros Hb. apply N.eqb_eq in Hb. rewrite <- Hb. unfold byte.
  symmetry. apply ascii_N_embedding.
Qed.

Lemma spanDigits_inv (s ds r : string) :
  spanDigits s = (ds, r) ->
  s = ds +:+ r /\ allBytes isDigit ds = true.
Proof.
  revert ds r. induction s as [|a s IH]; intros ds r; cbn [spanDigits].
  - intros [= <- <-]. auto.
  - destruct (isDigit a) eqn:Ha.
    + destruct (spanDigits s) as [d0 r0]. intros [= <- <-].
      destruct (IH d0 r0 eq_refl) as [-> Hd]. cbn. rewrite Ha, Hd. auto.
    + intros [= <- <-]. auto.
Qed.

Lemma quotedTail_inv (s body : string) :
  quotedTail s = Some body ->
  s = body +:+ QUOTE /\ allBytes (fun a => negb (byte a =? 34)%N) body = true.
Proof.
  revert body. induction s as [|a s IH]; intros body; cbn [quotedTail]; [discriminate|].
  destruct (byte a =? 34)%N eqn:Ha.
  - destruct s; [|discriminate]. intros [= <-].
    apply byte_eq in Ha. subst a. auto.
  - destruct (quotedTail s) as [b0|]; [|discriminate]. intros [= <-].
    destruct (IH b0 eq_refl) as [-> Hb]. cbn. rewrite Ha, Hb. auto.
Qed.

Lemma helloRe_inv (cmd digits agent : string) :
  helloRe cmd = Some (digits, agent) ->
  cmd = helloPayload digits agent
  /\ isDigits digits = true /\ isAgent agent = true.
Proof.
  unfold helloRe. destruct (spanDigits cmd) as [ds r] eqn:Hsp.
    apply spanDigits_inv in Hsp as [-> Hds].
    destruct ds as [|c ds]; [discriminate|].
    destruct r as [|sp [|q rest]]; try discriminate.
    destruct ((byte sp =? 32) && (byte q =? 34))%N eqn:Hsq; [|discriminate].
    apply andb_true_iff in Hsq as [Hsp Hq].
    apply byte_eq in Hsp, Hq. subst sp q.
    destruct (quotedTail rest) as [[|b body]|] eqn:Hq; try discriminate.
    intros [= <- <-]. apply quotedTail_inv in Hq as [-> Hb].
  split; [reflexivity|]. unfold isDigits, isAgent. rewrite Hds, Hb. auto.
Qed.

(** Property X9. The pattern of [hello] accepts exactly the payloads
    [<digits> "<agent>"]: one or more decimal digits, one space, and
    between two double quotes one or more bytes none of which is a
    double quote; the two groups are the digits and the agent. *)
Theorem helloRe_accepts_exactly (cmd digits agent : string) :
  helloRe cmd = Some (digits, agent)
  <-> cmd = helloPayload digits agent
      /\ isDigits digits = true /\ isAgent agent = true.
Proof.
  split; [apply helloRe_inv|].
  intros (-> & Hd & Ha). exact (helloRe_payload digits agent Hd Ha).
Qed.

Lemma digitsValue_digits (s : string) (acc : Z) :
  allBytes isDigit s = true -> 0 <= acc ->
  exists v, digitsValue acc s = Some v /\ acc <= v.
Proof.
  revert acc. induction s as [|a s IH]; intros acc Hs Hacc; cbn in *.
  - exists acc. split; [reflexivity | lia].
  - apply andb_true_iff in Hs as [Ha Hs]. rewrite Ha.
    assert (Hv : 0 <= digitVal a).
    { unfold isDigit in Ha. apply andb_true_iff in Ha as [H1 _].
      apply N.leb_le in H1. unfold digitVal. lia. }
    destruct (IH (10 * acc + digitVal a) Hs) as (v & Hv1 & Hv2); [lia|].
    exists v. split; [exact Hv1 | lia].
Qed.

(** Property X10. On a run of decimal digits [strconv.ParseInt] never
    fails for syntax: it returns the value when it is below 2^63 and a
    range error otherwise. So the reply ["Invalid protocol version"] of
    [hello] is reached only by a version of at least 2^63. *)
Theorem ParseInt_on_digits (digits : string) :
  isDigits digits = true ->
  exists v,
    digitsValue 0 digits = Some v /\ 0 <= v
    /\ ParseInt digits = (if v <? 2 ^ 63 then inl v else inr ErrRange).
Proof.
  unfold isDigits. intros [Hne Hd]%andb_true_iff.
  destruct (digitsValue_digits digits 0 Hd) as (v & Hv & Hpos); [lia|].
  exists v. split; [exact Hv|]. split; [exact Hpos|].
  destruct digits as [|a s]; [discriminate|].
  unfold ParseInt.
  cbn [allBytes] in Hd. apply andb_true_iff in Hd as [Ha _].
  unfold isDigit in Ha. apply andb_true_iff in Ha as [H1 H2].
  apply N.leb_le in H1. apply N.leb_le in H2.
  assert (E1 : (byte a =? 43)%N = false) by (apply N.eqb_neq; lia).
  assert (E2 : (byte a =? 45)%N = false) by (apply N.eqb_neq; lia).
  rewrite E1, E2, Hv. reflexivity.
Qed.

Section MalformedHello.
Context {I W : Type} `{!Discovery I} `{!Writer W} `{!GoRuntime}.
Implicit Types (d : Server I W).

(** Property X11. A HELLO whose payload is not of the form
    [<digits> "<agent>"] is answered with the hello error
    ["Invalid HELLO command"], and nothing of the session, not even the
    user agent, is changed; the implementation is not called. *)
Theorem hello_rejects_malformed_payload d (cmd : string) :
  reliable W -> encodes (messageError "hello" "Invalid HELLO command") ->
  is_Some (output d) -> initialized d = false ->
  (forall digits agent,
     isDigits digits = true -> isAgent agent = true ->
     cmd <> helloPayload digits agent) ->
  exists d',
    hello cmd d = Done tt d'
    /\ replied d (messageError "hello" "Invalid HELLO command") d'.
Proof.
  intros Hw Henc Ho Hi Hbad.
  assert (Hre : helloRe cmd = None).
  { destruct (helloRe cmd) as [[ds ag]|] eqn:Hre; [|reflexivity].
    apply helloRe_inv in Hre as (Hc & Hd & Ha).
    destruct (Hbad ds ag Hd Ha Hc). }
  destruct (send_replied d _ Hw Henc Ho) as (d' & Hs & Hr).
  exists d'. unfold hello. go_unfold. rewrite Hi, Hre. auto.
Qed.

End MalformedHello.

(** * The client: commands, the decode loop and the teardown *)

Lemma take_drop_bytes (n : nat) (s : string) :
  take_bytes n s +:+ drop_bytes n s = s.
Proof.
  revert s. induction n as [|n IH]; intros s; [reflexivity|].
  destruct s as [|a s]; [reflexivity|]. cbn [take_bytes drop_bytes].
  change (String a (take_bytes n s) +:+ drop_bytes n s)
    with (String a (take_bytes n s +:+ drop_bytes n s)).
  rewrite IH. reflexivity.
Qed.

Lemma take_bytes_all (s : string) : take_bytes (String.length s) s = s.
Proof. induction s as [|a s IH]; [reflexivity|]. cbn. rewrite IH. reflexivity. Qed.

Lemma length_drop_bytes (n : nat) (s : string) :
  String.length (drop_bytes n s) = (String.length s - n)%nat.
Proof.
  revert s. induction n as [|n IH]; intros s; cbn; [lia|].
  destruct s as [|a s]; [reflexivity|]. cbn. apply IH.
Qed.

Lemma omap_cons_Some {A B} (f : A -> option B) (x : A) (l : list A) (y : B) :
  f x = Some y -> omap f (x :: l) = y :: omap f l.
Proof. intros H. cbn. rewrite H. reflexivity. Qed.

Lemma omap_cons_None {A B} (f : A -> option B) (x : A) (l : list A) :
  f x = None -> omap f (x :: l) = omap f l.
Proof. intros H. cbn. rewrite H. reflexivity. Qed.

Module ClientOps.
Import DiscoveryClient ClientFacts ChannelInvariant.

Section Commands.
Context {P : Type} `{!Writer P} `{!GoRuntime}.
Implicit Types (d : Client P).

(** Run the steps of an operation on a client whose fields are at hand:
    only the operations of the client, the monad, the setters and the
    projections are unfolded. *)
Ltac client_steps :=
  cbv beta iota zeta delta
    [closeAndReportError killProcess closeIncoming stopSync Lock Unlock
     chanSend chanClose chanMake act bind get modify ret panic
     set_process set_outgoingCommandsPipe set_incoming set_incomingClosed
     set_userAgent set_statusMutex set_incomingMessagesError set_eventChan
     set_chans set_child set_trace
     id processArgs process outgoingCommandsPipe incoming incomingClosed
     userAgent statusMutex incomingMessagesError eventChan chans child trace
     capacity queue closed].

Lemma writeAll_takesPrefix (received : P -> string) (fuel : nat) (data : string)
    d (w : P) :
  takesPrefix P received ->
  (String.length data < fuel)%nat -> outgoingCommandsPipe d = Some w ->
  exists w',
    writeAll fuel data d = Done None (set_outgoingCommandsPipe (Some w') d)
    /\ received w' = received w +:+ data.
Proof.
  intros Hlaw. revert data d w.
  induction fuel as [|fuel IH]; intros data d w Hlen Hp; [lia|].
  cbn [writeAll]. rewrite Hp.
  destruct (Hlaw w data) as (n & w' & Hwr & Hrange & Hpos & Hrec).
  rewrite Hwr. unfold len in *.
  destruct (n =? Z.of_nat (String.length data)) eqn:Hn.
  - apply Z.eqb_eq in Hn. exists w'. split; [reflexivity|].
    rewrite Hrec, Hn, Nat2Z.id, take_bytes_all. reflexivity.
  - apply Z.eqb_neq in Hn.
    assert (Hne : data <> "") by (intros ->; cbn in *; lia).
    specialize (Hpos Hne).
    assert (Hb : (n <? 0) || (Z.of_nat (String.length data) <? n) = false).
    { apply orb_false_iff. split; apply Z.ltb_ge; lia. }
    rewrite Hb.
    destruct (IH (drop_bytes (Z.to_nat n) data)
                (set_outgoingCommandsPipe (Some w') d) w') as (w'' & Hrun & Hrec');
      [rewrite length_drop_bytes; lia | reflexivity |].
    exists w''. rewrite Hrun. split; [destruct d; reflexivity|].
    rewrite Hrec', Hrec, append_assoc, take_drop_bytes. reflexivity.
Qed.

(** Property X12. [sendCommand] copes with short writes: on a writer
    that reports no error but may take only a part of the data (at
    least one byte), it writes the rest again until all is taken,
    returns nil, and what the other end has received is the command,
    whole and once. *)
Theorem sendCommand_survives_short_writes (received : P -> string)
    (command : string) d (w : P) :
  takesPrefix P received -> outgoingCommandsPipe d = Some w ->
  exists w',
    sendCommand command d
    = Done None (set_outgoingCommandsPipe (Some w')
                   (set_trace (trace d ++ [ACommand command]) d))
    /\ received w' = received w +:+ command.
Proof.
  intros Hlaw Hp. unfold sendCommand, act. go_unfold.
  apply (writeAll_takesPrefix received); [exact Hlaw | lia | exact Hp].
Qed.

(** One turn of the decode loop on a port event or on another message. *)
Lemma forwardEvent_open d (type : string) (port : Port) (c : loc) (ch : Chan) :
  statusMutex d = false -> eventChan d = Some c ->
  chans d !! c = Some ch -> closed ch = false ->
  forwardEvent type port d
  = Done tt
      (set_trace (trace d ++ [ALock; ASend c (mkEvent type (Some port) (id d)); AUnlock])
         (set_chans (<[c := mkChan (capacity ch)
                              (queue ch ++ [mkEvent type (Some port) (id d)]) false]>
                       (chans d)) d)).
Proof.
  intros Hmx Hec Hc Hcl.
  destruct d as [id0 args proc pipe inc incl ua mx ierr ec chs child tr].
  cbn in Hmx, Hec, Hc |- *. subst mx ec.
  unfold forwardEvent, Lock, Unlock, chanSend, act. go_unfold. cbn.
  rewrite Hc, Hcl. cbn. rewrite <- !app_assoc. reflexivity.
Qed.

Lemma forwardEvent_idle d (type : string) (port : Port) :
  statusMutex d = false -> eventChan d = None ->
  forwardEvent type port d = Done tt (set_trace (trace d ++ [ALock; AUnlock]) d).
Proof.
  intros Hmx Hec.
  destruct d as [id0 args proc pipe inc incl ua mx ierr ec chs child tr].
  cbn in Hmx, Hec |- *. subst mx ec.
  unfold forwardEvent, Lock, Unlock, act. go_unfold. cbn.
  rewrite <- !app_assoc. reflexivity.
Qed.

Lemma deliver_open d (msg : discoveryMessage) :
  incomingClosed d = false ->
  deliver msg d
  = Done tt (set_trace (trace d ++ [ADeliver msg])
               (set_incoming (incoming d ++ [msg]) d)).
Proof. intros Hcl. unfold deliver. rewrite Hcl. reflexivity. Qed.

(** The two ways in which the loop goes on after a message. *)
Lemma decode_turn (msg : discoveryMessage) (rest : list Decoded) d (i : string) :
  endOf (DecMsg msg) = None ->
  (exists port,
     eventOf i msg = Some (mkEvent (EventType msg) (Some port) i)
     /\ replyOf msg = None
     /\ jsonDecodeLoop (DecMsg msg :: rest) d
        = (run forwardEvent (EventType msg) port then jsonDecodeLoop rest) d)
  \/ (eventOf i msg = None /\ replyOf msg = Some msg
      /\ jsonDecodeLoop (DecMsg msg :: rest) d
         = (run deliver msg then jsonDecodeLoop rest) d).
Proof.
  unfold endOf, eventOf, replyOf, isPortEvent. cbn [jsonDecodeLoop].
  destruct (String.eqb (EventType msg) "add") eqn:Ea.
  { destruct (mPort msg) as [port|]; [|discriminate].
    intros _. left. exists port. apply String.eqb_eq in Ea. rewrite Ea. auto. }
  destruct (String.eqb (EventType msg) "remove") eqn:Er.
  { destruct (mPort msg) as [port|]; [|discriminate].
    intros _. left. exists port. apply String.eqb_eq in Er. rewrite Er. auto. }
  intros _. right. auto.
Qed.

Lemma demultiplex_open (msgs : list discoveryMessage) d (c : loc) (ch : Chan) :
  statusMutex d = false -> incomingClosed d = false ->
  eventChan d = Some c -> chans d !! c = Some ch -> closed ch = false ->
  Forall (fun msg => endOf (DecMsg msg) = None) msgs ->
  exists d',
    jsonDecodeLoop (map DecMsg msgs) d = Done tt d'
    /\ incoming d' = incoming d ++ omap replyOf msgs
    /\ eventChan d' = Some c
    /\ chans d' = <[c := mkChan (capacity ch)
                           (queue ch ++ omap (eventOf (id d)) msgs) false]> (chans d)
    /\ statusMutex d' = false /\ incomingClosed d' = false
    /\ process d' = process d.
Proof.
  intros Hmx Hin Hec Hc Hcl Hok. revert d ch Hmx Hin Hec Hc Hcl.
  induction Hok as [|msg msgs Hm _ IH]; intros d ch Hmx Hin Hec Hc Hcl.
  - exists d. cbn. rewrite !app_nil_r.
    rewrite list_insert_id by (destruct ch; cbn in *; subst; exact Hc). auto 10.
  - assert (Hlt : (c < length (chans d))%nat) by (eapply lookup_lt_Some, Hc).
    cbn [map].
    destruct (decode_turn msg (map DecMsg msgs) d (id d) Hm)
      as [(port & He & Hr & ->) | (He & Hr & ->)].
    + rewrite (omap_cons_Some _ _ _ _ He), (omap_cons_None _ _ _ Hr).
      unfold bind. rewrite (forwardEvent_open d _ port c ch Hmx Hec Hc Hcl).
      set (e := mkEvent (EventType msg) (Some port) (id d)).
      match goal with |- context [jsonDecodeLoop _ ?d0] => set (d1 := d0) end.
      destruct (IH d1 (mkChan (capacity ch) (queue ch ++ [e]) false))
        as (d' & Hrun & Hinc & Hev & Hch & Hmx' & Hin' & Hpr); try reflexivity;
        try assumption.
      { cbn. apply list_lookup_insert_eq. exact Hlt. }
      exists d'. split; [exact Hrun|].
      cbn in Hinc, Hch, Hpr.
      split; [exact Hinc|]. split; [exact Hev|]. split; [|auto].
      rewrite Hch, list_insert_insert_eq, <- app_assoc. reflexivity.
    + rewrite (omap_cons_None _ _ _ He), (omap_cons_Some _ _ _ _ Hr).
      unfold bind. rewrite (deliver_open d msg Hin).
      match goal with |- context [jsonDecodeLoop _ ?d0] => set (d1 := d0) end.
      destruct (IH d1 ch) as (d' & Hrun & Hinc & Hev & Hch & Hmx' & Hin' & Hpr);
        try reflexivity; try assumption.
      exists d'. split; [exact Hrun|].
      cbn in Hinc, Hch, Hpr. rewrite Hinc, <- app_assoc. auto 10.
Qed.

Lemma demultiplex_idle (msgs : list discoveryMessage) d :
  statusMutex d = false -> incomingClosed d = false -> eventChan d = None ->
  Forall (fun msg => endOf (DecMsg msg) = None) msgs ->
  exists d',
    jsonDecodeLoop (map DecMsg msgs) d = Done tt d'
    /\ incoming d' = incoming d ++ omap replyOf msgs
    /\ eventChan d' = None /\ chans d' = chans d
    /\ statusMutex d' = false /\ incomingClosed d' = false
    /\ process d' = process d.
Proof.
  intros Hmx Hin Hec Hok. revert d Hmx Hin Hec.
  induction Hok as [|msg msgs Hm _ IH]; intros d Hmx Hin Hec.
  - exists d. cbn. rewrite !app_nil_r. auto 10.
  - cbn [map].
    destruct (decode_turn msg (map DecMsg msgs) d (id d) Hm)
      as [(port & _ & Hr & ->) | (_ & Hr & ->)].
    + rewrite (omap_cons_None _ _ _ Hr).
      unfold bind. rewrite (forwardEvent_idle d _ port Hmx Hec).
      match goal with |- context [jsonDecodeLoop _ ?d0] => set (d1 := d0) end.
      destruct (IH d1) as (d' & Hrun & Hinc & Hev & Hch & Hmx' & Hin' & Hpr);
        try reflexivity; try assumption.
      exists d'. split; [exact Hrun|]. cbn in Hinc, Hch, Hpr. auto 10.
    + rewrite (omap_cons_Some _ _ _ _ Hr).
      unfold bind. rewrite (deliver_open d msg Hin).
      match goal with |- context [jsonDecodeLoop _ ?d0] => set (d1 := d0) end.
      destruct (IH d1) as (d' & Hrun & Hinc & Hev & Hch & Hmx' & Hin' & Hpr);
        try reflexivity; try assumption.
      exists d'. split; [exact Hrun|].
      cbn in Hinc, Hch, Hpr. rewrite Hinc, <- app_assoc. auto 10.
Qed.

(** Property X13. The decode loop splits the stream of the child in
    two, keeping the order within each part: the [add] and [remove]
    messages become events on the event channel in the slot, in the
    order in which they were decoded, and every other message is handed
    to [waitMessage]. When the slot is empty the events are dropped and
    no channel is touched. *)
Theorem decode_loop_demultiplexes (msgs : list discoveryMessage) d :
  statusMutex d = false -> incomingClosed d = false ->
  (forall c, eventChan d = Some c -> isOpen d c = true) ->
  Forall (fun msg => endOf (DecMsg msg) = None) msgs ->
  exists d',
    jsonDecodeLoop (map DecMsg msgs) d = Done tt d'
    /\ incoming d' = incoming d ++ omap replyOf msgs
    /\ eventChan d' = eventChan d
    /\ match eventChan d with
       | Some c =>
           exists ch,
             chans d !! c = Some ch
             /\ chans d' = <[c := mkChan (capacity ch)
                                    (queue ch ++ omap (eventOf (id d)) msgs) false]>
                             (chans d)
       | None => chans d' = chans d
       end.
Proof.
  intros Hmx Hin Hslot Hok.
  destruct (eventChan d) as [c|] eqn:Hec.
  - destruct (isOpen_Some d c (Hslot c eq_refl)) as (ch & Hc & Hcl).
    destruct (demultiplex_open msgs d c ch Hmx Hin Hec Hc Hcl Hok)
      as (d' & Hrun & Hinc & Hev & Hch & _).
    exists d'. eauto 10.
  - destruct (demultiplex_idle msgs d Hmx Hin Hec Hok)
      as (d' & Hrun & Hinc & Hev & Hch & _).
    exists d'. auto.
Qed.




(** What [waitMessage] hands to a command once the channel of incoming
    messages is closed. *)
Lemma sent_then_closed d (command : string) :
  reliable P -> is_Some (outgoingCommandsPipe d) ->
  exists d1,
    sendCommand command d = Done None d1
    /\ waitMessage (RecvMsg None) d1 = Done (None, incomingMessagesError d) d1.
Proof.
  intros Hw [w Hp]. destruct (sendCommand_reliable d command w Hw Hp) as [w' Hs].
  eexists. split; [exact Hs | reflexivity].
Qed.

(** Property X15. Once the decode loop has closed the channel of
    incoming messages, [Start], [Stop] and [List] still write their
    command and then get a nil message from [waitMessage]. When the
    loop stored an error they return it as ["calling START: " + err]
    (STOP, LIST alike). When the loop ended on the end of the input the
    stored error is nil, and they panic on the nil message. *)
Theorem commands_after_decoder_exit d :
  reliable P -> is_Some (outgoingCommandsPipe d) ->
  match incomingMessagesError d with
  | Some e =>
      (exists d', Start (RecvMsg None) d = Done (Some ("calling START: " +:+ e)) d')
      /\ (exists d', Stop (RecvMsg None) d = Done (Some ("calling STOP: " +:+ e)) d')
      /\ (exists d', List (RecvMsg None) d
                     = Done ([], Some ("calling LIST: " +:+ e)) d')
  | None =>
      (exists d', Start (RecvMsg None) d
                  = Panic "invalid memory address or nil pointer dereference" d')
      /\ (exists d', Stop (RecvMsg None) d
                     = Panic "invalid memory address or nil pointer dereference" d')
      /\ (exists d', List (RecvMsg None) d
                     = Panic "invalid memory address or nil pointer dereference" d')
  end.
Proof.
  intros Hw Hp.
  destruct (sent_then_closed d ("START" +:+ NL) Hw Hp) as (d1 & Hs1 & Hw1).
  destruct (sent_then_closed d ("STOP" +:+ NL) Hw Hp) as (d2 & Hs2 & Hw2).
  destruct (sent_then_closed d ("LIST" +:+ NL) Hw Hp) as (d3 & Hs3 & Hw3).
  unfold Start, Stop, List. unfold bind.
  rewrite Hs1, Hs2, Hs3, Hw1, Hw2, Hw3.
  destruct (incomingMessagesError d) as [e|]; repeat split; eexists; reflexivity.
Qed.



Lemma locked_stopSync_effect d :
  statusMutex d = false -> oneActive d ->
  exists d',
    (run Lock then run stopSync then run Unlock then ret (@None string)) d
    = Done None d'
    /\ allClosed d' /\ statusMutex d' = false /\ process d' = process d
    /\ (forall c ch, eventChan d = Some c -> chans d !! c = Some ch ->
          chans d' !! c
          = Some (mkChan (capacity ch) (queue ch ++ [stopEvent d]) true)).
Proof.
  intros Hmx Hinv.
  destruct (eventChan d) as [c|] eqn:Hec.
  - destruct (isOpen_Some d c (proj1 Hinv c Hec)) as (ch & Hc & Hcl).
    assert (Hlt : (c < length (chans d))%nat) by (eapply lookup_lt_Some, Hc).
    assert (Hall : forall x ch1,
              <[c := mkChan (capacity ch) (queue ch ++ [stopEvent d]) true]> (chans d)
                !! x = Some ch1 -> closed ch1 = true).
    { intros x ch1 Hx.
      eapply (oneActive_stopped_closed d c x _ ch1 Hinv Hec); [|exact Hx]. reflexivity. }
    destruct d as [id0 args proc pipe inc incl ua mx ierr ec chs child tr].
    destruct ch as [cap q cl].
    cbn in Hmx, Hec, Hc, Hcl, Hlt, Hall |- *. subst mx ec cl.
    client_steps. rewrite Hc. client_steps.
    rewrite list_lookup_insert_eq by exact Hlt. client_steps.
    rewrite list_insert_insert_eq.
    eexists; split; [reflexivity|].
    split; [split; [reflexivity | exact Hall]|].
    split; [reflexivity|]. split; [reflexivity|].
    intros c0 ch0 [= <-] Hc0; cbn in Hc0 |- *; rewrite Hc in Hc0;
      injection Hc0 as <-; apply list_lookup_insert_eq; exact Hlt.
  - assert (Hall : forall x ch1, chans d !! x = Some ch1 -> closed ch1 = true).
    { intros x ch1 Hx. exact (oneActive_idle_closed d x ch1 Hinv Hec Hx). }
    destruct d as [id0 args proc pipe inc incl ua mx ierr ec chs child tr].
    cbn in Hmx, Hec, Hall |- *. subst mx ec.
    client_steps.
    eexists; split; [reflexivity|].
    split; [split; [reflexivity | exact Hall]|].
    split; [reflexivity|]. split; [reflexivity|]. discriminate.
Qed.

(** Property X17. [Stop] closes the event channel only when the child
    confirms: on the reply [stop], no error, [OK], the stop event is
    sent on the channel in the slot, the channel is closed and the slot
    emptied. On any other reply [Stop] returns an error and the slot
    and the channels are as before. *)
Theorem stop_closes_event_channel d (msg : discoveryMessage) :
  reliable P -> is_Some (outgoingCommandsPipe d) ->
  statusMutex d = false -> oneActive d ->
  (stopOk msg ->
     exists d',
       Stop (RecvMsg (Some msg)) d = Done None d'
       /\ allClosed d' /\ statusMutex d' = false
       /\ (forall c ch, eventChan d = Some c -> chans d !! c = Some ch ->
             chans d' !! c
             = Some (mkChan (capacity ch) (queue ch ++ [stopEvent d]) true)))
  /\ (~ stopOk msg ->
       exists e d',
         Stop (RecvMsg (Some msg)) d = Done (Some e) d'
         /\ eventChan d' = eventChan d /\ chans d' = chans d).
Proof.
  intros Hw [w Hp] Hmx Hinv.
  destruct (sendCommand_reliable d ("STOP" +:+ NL) w Hw Hp) as [w' Hs].
  set (d1 := set_outgoingCommandsPipe (Some w')
               (set_trace (trace d ++ [ACommand ("STOP" +:+ NL)]) d)) in *.
  assert (HStop : Stop (RecvMsg (Some msg)) d
                  = if negb (String.eqb (EventType msg) "stop") then
                      Done (Some ("event out of sync, expected 'stop', received '"
                                    +:+ EventType msg +:+ "'")) d1
                    else if Error msg then
                      Done (Some ("command failed: " +:+ Message msg)) d1
                    else if negb (String.eqb (ToUpper (Message msg)) "OK") then
                      Done (Some ("communication out of sync, expected 'OK', received '"
                                    +:+ Message msg +:+ "'")) d1
                    else (run Lock then run stopSync then run Unlock
                          then ret (@None string)) d1).
  { unfold Stop. unfold bind at 1. rewrite Hs. unfold bind at 1.
    unfold waitMessage. unfold bind at 1. unfold get at 1. unfold ret at 1.
    destruct (negb (String.eqb (EventType msg) "stop")); [reflexivity|].
    destruct (Error msg); [reflexivity|].
    destruct (negb (String.eqb (ToUpper (Message msg)) "OK")); reflexivity. }
  rewrite HStop. clear HStop. split.
  - intros (Hty & Herr & Hok). rewrite Hty, Herr, Hok. cbn [String.eqb Ascii.eqb Bool.eqb negb].
    assert (Hinv1 : oneActive d1) by (apply (oneActive_frame d d1); auto).
    destruct (locked_stopSync_effect d1 Hmx Hinv1) as (d' & Hrun & Hall & Hmx' & _ & Hch).
    exists d'. split; [exact Hrun|]. split; [exact Hall|]. split; [exact Hmx'|].
    intros c ch Hec Hc. apply (Hch c ch Hec Hc).
  - intros Hno.
    destruct (String.eqb (EventType msg) "stop") eqn:Ety; cbn [negb];
      [|eexists _, d1; auto].
    destruct (Error msg) eqn:Eerr; [eexists _, d1; auto|].
    destruct (String.eqb (ToUpper (Message msg)) "OK") eqn:Eok; cbn [negb];
      [|eexists _, d1; auto].
    exfalso. apply Hno. unfold stopOk.
    apply String.eqb_eq in Ety, Eok. auto.
Qed.

(** Property X18. A [StartSync] that gets no confirmation (a timeout,
    or a reply that is not [start_sync], no error, [OK]) returns nil and
    an error, unlocks the mutex, and leaves the slot and every channel
    as they were: the earlier event channel stays active. *)
Theorem startSync_failure_keeps_channel d (size : Z) (sel : Select) :
  reliable P -> is_Some (outgoingCommandsPipe d) -> statusMutex d = false ->
  sel = TimeAfter \/ (exists msg, sel = RecvMsg (Some msg) /\ ~ startSyncOk msg) ->
  exists e d',
    StartSync size sel d = Done (None, Some e) d'
    /\ eventChan d' = eventChan d /\ chans d' = chans d
    /\ statusMutex d' = false.
Proof.
  intros Hw [w Hp] Hmx Hsel.
  destruct (Hw w ("START_SYNC" +:+ NL)) as [w' Hwr].
  destruct d as [id0 args proc pipe inc incl ua mx ierr ec chs child tr].
  cbn in Hp, Hmx |- *. subst pipe mx.
  unfold StartSync, Lock, Unlock, startSyncLocked, sendCommand, waitMessage, act.
  go_unfold. cbn -[String.append Z.ltb Z.eqb len ToUpper NL].
  rewrite Hwr, Z.eqb_refl. cbn -[String.append Z.ltb Z.eqb len ToUpper NL].
  destruct Hsel as [-> | (msg & -> & Hno)].
  - cbn -[String.append Z.ltb Z.eqb len ToUpper NL]. eexists _, _.
    split; [reflexivity|]. auto.
  - cbn -[String.append Z.ltb Z.eqb len ToUpper NL].
    destruct (String.eqb (EventType msg) "start_sync") eqn:Ety;
      cbn -[String.append Z.ltb Z.eqb len ToUpper NL];
      [|eexists _, _; split; [reflexivity|]; auto].
    destruct (Error msg) eqn:Eerr;
      cbn -[String.append Z.ltb Z.eqb len ToUpper NL];
      [eexists _, _; split; [reflexivity|]; auto|].
    destruct (String.eqb (ToUpper (Message msg)) "OK") eqn:Eok;
      cbn -[String.append Z.ltb Z.eqb len ToUpper NL];
      [|eexists _, _; split; [reflexivity|]; auto].
    exfalso. apply Hno. unfold startSyncOk.
    apply String.eqb_eq in Ety, Eok. auto.
Qed.


End Commands.
End ClientOps.

(** * The client and the server together: the HELLO line *)




Section RoundTrip.
Context {I W P : Type} `{!Discovery I} `{!Writer W} `{!Writer P} `{!GoRuntime}.
Implicit Types (s : Server I W) (c : DiscoveryClient.Client P).




End RoundTrip.

(** * Ports: equality as a relation *)

Module PortLaws.
Import PortStore.

Lemma Equals_value (h : Heap) (p o : loc) (vp vo : Port) :
  ports h !! p = Some vp -> ports h !! o = Some vo ->
  Equals (Some p) (Some o) h
  = Done (String.eqb (Address vp) (Address vo)
          && String.eqb (Protocol vp) (Protocol vo)) h.
Proof.
  intros Hp Ho. unfold Equals, deref. go_unfold. rewrite Hp, Ho. reflexivity.
Qed.

(** Property X21. On ports that are not nil [Equals] is an
    equivalence: reflexive, symmetric and transitive. With a nil
    receiver or a nil argument it panics. *)
Theorem Equals_is_an_equivalence (h : Heap) (p q r : loc) (vp vq vr : Port) :
  ports h !! p = Some vp -> ports h !! q = Some vq -> ports h !! r = Some vr ->
  Equals (Some p) (Some p) h = Done true h
  /\ Equals (Some p) (Some q) h = Equals (Some q) (Some p) h
  /\ (Equals (Some p) (Some q) h = Done true h ->
      Equals (Some q) (Some r) h = Done true h ->
      Equals (Some p) (Some r) h = Done true h)
  /\ Equals None (Some p) h
     = Panic "invalid memory address or nil pointer dereference" h
  /\ Equals (Some p) None h
     = Panic "invalid memory address or nil pointer dereference" h.
Proof.
  intros Hp Hq Hr.
  rewrite (Equals_value h p p vp vp Hp Hp), (Equals_value h p q vp vq Hp Hq),
    (Equals_value h q p vq vp Hq Hp), (Equals_value h q r vq vr Hq Hr),
    (Equals_value h p r vp vr Hp Hr).
  split; [rewrite !String.eqb_refl; reflexivity|].
  split.
  { rewrite (String.eqb_sym (Address vp)), (String.eqb_sym (Protocol vp)). reflexivity. }
  split.
  { intros [= H1] [= H2].
    apply andb_true_iff in H1 as [A1 P1]. apply andb_true_iff in H2 as [A2 P2].
    apply String.eqb_eq in A1, P1, A2, P2.
    rewrite A1, A2, P1, P2, !String.eqb_refl. reflexivity. }
  split; [reflexivity|].
  unfold Equals, deref. go_unfold. rewrite Hp. reflexivity.
Qed.

(** Property X22. The clone of a port is equal to the port, in both
    directions, and one more port struct exists after the call.
    [Clone] of nil returns nil and touches nothing. *)
Theorem clone_equals_original (h : Heap) (p : loc) (vp : Port) :
  ports h !! p = Some vp ->
  (forall m, Properties vp = Some m -> is_Some (props h !! m)) ->
  (exists (r : loc) (h' : Heap),
     Clone (Some p) h = Done (Some r) h'
     /\ Equals (Some p) (Some r) h' = Done true h'
     /\ Equals (Some r) (Some p) h' = Done true h'
     /\ length (ports h') = S (length (ports h)))
  /\ Clone None h = Done None h.
Proof.
  intros Hp Hprops. split; [|reflexivity].
  assert (Hlt : (p < length (ports h))%nat) by (eapply lookup_lt_Some, Hp).
  unfold Clone, deref. go_unfold. rewrite Hp.
  destruct (Properties vp) as [m|] eqn:Hm.
  - destruct (Hprops m eq_refl) as [entries He].
    unfold propsClone. cbn. rewrite He. cbn.
    eexists (length (ports h)), _. split; [reflexivity|].
    set (h' := set_ports _ _).
    assert (H1 : ports h' !! p = Some vp).
    { cbn. rewrite list_lookup_alter_ne by lia. apply PortFacts.snoc_lookup_old, Hp. }
    assert (H2 : ports h' !! length (ports h)
                 = Some (withProperties (Some (length (props h))) vp)).
    { cbn. rewrite list_lookup_alter_eq, PortFacts.snoc_lookup_last. reflexivity. }
    rewrite (Equals_value h' _ _ _ _ H1 H2), (Equals_value h' _ _ _ _ H2 H1).
    cbn. rewrite !String.eqb_refl. repeat split.
    rewrite length_alter, length_app. cbn. lia.
  - cbn. eexists (length (ports h)), _. split; [reflexivity|].
    set (h' := set_ports _ _).
    assert (H1 : ports h' !! p = Some vp).
    { cbn. apply PortFacts.snoc_lookup_old, Hp. }
    assert (H2 : ports h' !! length (ports h) = Some vp).
    { cbn. apply PortFacts.snoc_lookup_last. }
    rewrite (Equals_value h' _ _ _ _ H1 H2), (Equals_value h' _ _ _ _ H2 H1).
    rewrite !String.eqb_refl. repeat split.
    cbn. rewrite length_app. cbn. lia.
Qed.

End PortLaws.

(** * The command word: letter case *)

Lemma TrimLeftSpace_eq (s : string) :
  TrimLeftSpace s
  = match s with
    | String a s1 =>
        if isASCIISpace a then TrimLeftSpace s1
        else
          match s1 with
          | String b s2 =>
              if isSpace2 a b then TrimLeftSpace s2
              else
                match s2 with
                | String c s3 => if isSpace3 a b c then TrimLeftSpace s3 else s
                | EmptyString => s
                end
          | EmptyString => s
          end
    | EmptyString => s
    end.
Proof. destruct s; reflexivity. Qed.

Lemma TrimLeftSpaceRev_eq (r : string) :
  TrimLeftSpaceRev r
  = match r with
    | String c r1 =>
        if isASCIISpace c then TrimLeftSpaceRev r1
        else
          match r1 with
          | String b r2 =>
              if isSpace2 b c then TrimLeftSpaceRev r2
              else
                match r2 with
                | String a r3 => if isSpace3 a b c then TrimLeftSpaceRev r3 else r
                | EmptyString => r
                end
          | EmptyString => r
          end
    | EmptyString => r
    end.
Proof. destruct r; reflexivity. Qed.

Section CaseMap.
Variable f : ascii -> ascii.

(** [f] changes ASCII letters only, into ASCII letters of the same
    upper-case form. *)
Hypothesis Hf : forall a,
  Ascii.eqb (f a) a
  || (isASCIIByte a && isASCIIByte (f a)
      && negb (isASCIISpace a) && negb (isASCIISpace (f a))
      && negb (byte a =? 32)%N && negb (byte (f a) =? 32)%N) = true.
Hypothesis Hup : forall a, upperByte (f a) = upperByte a.

Lemma case_cases (a : ascii) :
  f a = a
  \/ ((byte a < 128)%N /\ (byte (f a) < 128)%N
      /\ isASCIISpace a = false /\ isASCIISpace (f a) = false
      /\ (byte a =? 32)%N = false /\ (byte (f a) =? 32)%N = false).
Proof.
  specialize (Hf a). apply orb_true_iff in Hf as [H | H].
  - left. apply Ascii.eqb_eq, H.
  - right. repeat (apply andb_true_iff in H as [H ?]).
    unfold isASCIIByte in *. rewrite N.ltb_lt in *.
    rewrite negb_true_iff in *. auto 10.
Qed.

Lemma case_high (a : ascii) (k : N) :
  (128 <= k)%N -> (byte (f a) =? k)%N = (byte a =? k)%N.
Proof.
  intros Hk. destruct (case_cases a) as [-> | (H1 & H2 & _)]; [reflexivity|].
  rewrite (proj2 (N.eqb_neq _ _)) by lia. symmetry. apply N.eqb_neq. lia.
Qed.

Lemma case_range (a : ascii) :
  ((128 <=? byte (f a)) && (byte (f a) <=? 138))%N
  = ((128 <=? byte a) && (byte a <=? 138))%N.
Proof.
  destruct (case_cases a) as [-> | (H1 & H2 & _)]; [reflexivity|].
  rewrite (proj2 (N.leb_gt _ _)) by lia. symmetry.
  rewrite (proj2 (N.leb_gt _ _)) by lia. reflexivity.
Qed.

Lemma case_space (a : ascii) : isASCIISpace (f a) = isASCIISpace a.
Proof. destruct (case_cases a) as [-> | (_ & _ & -> & -> & _)]; reflexivity. Qed.

Lemma case_blank (a : ascii) : (byte (f a) =? 32)%N = (byte a =? 32)%N.
Proof. destruct (case_cases a) as [-> | (_ & _ & _ & _ & -> & ->)]; reflexivity. Qed.

Lemma case_space2 (a b : ascii) : isSpace2 (f a) (f b) = isSpace2 a b.
Proof. unfold isSpace2. rewrite !case_high by lia. reflexivity. Qed.

Lemma case_space3 (a b c : ascii) : isSpace3 (f a) (f b) (f c) = isSpace3 a b c.
Proof. unfold isSpace3. rewrite case_range, !case_high by lia. reflexivity. Qed.

Lemma case_TrimLeftSpace (s : string) :
  TrimLeftSpace (mapBytes f s) = mapBytes f (TrimLeftSpace s).
Proof.
  remember (String.length s) as n eqn:Hn.
  revert s Hn. induction n as [n IH] using lt_wf_ind. intros s Hn.
  destruct s as [|a s1]; [reflexivity|].
  rewrite (TrimLeftSpace_eq (String a s1)),
    (TrimLeftSpace_eq (mapBytes f (String a s1))).
  cbn [mapBytes]. rewrite case_space. destruct (isASCIISpace a).
  { apply (IH (String.length s1)); [subst n; cbn; lia | reflexivity]. }
  destruct s1 as [|b s2]; cbn [mapBytes]; [reflexivity|].
  rewrite case_space2. destruct (isSpace2 a b).
  { apply (IH (String.length s2)); [subst n; cbn; lia | reflexivity]. }
  destruct s2 as [|c s3]; cbn [mapBytes]; [reflexivity|].
  rewrite case_space3. destruct (isSpace3 a b c); [|reflexivity].
  apply (IH (String.length s3)); [subst n; cbn; lia | reflexivity].
Qed.

Lemma case_TrimLeftSpaceRev (s : string) :
  TrimLeftSpaceRev (mapBytes f s) = mapBytes f (TrimLeftSpaceRev s).
Proof.
  remember (String.length s) as n eqn:Hn.
  revert s Hn. induction n as [n IH] using lt_wf_ind. intros s Hn.
  destruct s as [|c s1]; [reflexivity|].
  rewrite (TrimLeftSpaceRev_eq (String c s1)),
    (TrimLeftSpaceRev_eq (mapBytes f (String c s1))).
  cbn [mapBytes]. rewrite case_space. destruct (isASCIISpace c).
  { apply (IH (String.length s1)); [subst n; cbn; lia | reflexivity]. }
  destruct s1 as [|b s2]; cbn [mapBytes]; [reflexivity|].
  rewrite case_space2. destruct (isSpace2 b c).
  { apply (IH (String.length s2)); [subst n; cbn; lia | reflexivity]. }
  destruct s2 as [|a s3]; cbn [mapBytes]; [reflexivity|].
  rewrite case_space3. destruct (isSpace3 a b c); [|reflexivity].
  apply (IH (String.length s3)); [subst n; cbn; lia | reflexivity].
Qed.

Lemma case_rev_app (s t : string) :
  String.rev_app (mapBytes f s) (mapBytes f t) = mapBytes f (String.rev_app s t).
Proof.
  revert t. induction s as [|a s IH]; intros t; [reflexivity|].
  cbn [mapBytes String.rev_app]. apply (IH (String a t)).
Qed.

Lemma case_rev (s : string) : String.rev (mapBytes f s) = mapBytes f (String.rev s).
Proof. apply (case_rev_app s ""). Qed.

Lemma case_TrimSpace (s : string) :
  TrimSpace (mapBytes f s) = mapBytes f (TrimSpace s).
Proof.
  unfold TrimSpace, TrimRightSpace.
  rewrite case_TrimLeftSpace, case_rev, case_TrimLeftSpaceRev, case_rev. reflexivity.
Qed.

Lemma case_firstField (s : string) :
  firstField (mapBytes f s) = mapBytes f (firstField s).
Proof.
  induction s as [|a s IH]; [reflexivity|]. cbn [mapBytes firstField].
  rewrite case_blank. destruct (byte a =? 32)%N; [reflexivity|].
  cbn [mapBytes]. rewrite IH. reflexivity.
Qed.

Lemma case_isASCII (s : string) : isASCII (mapBytes f s) = isASCII s.
Proof.
  induction s as [|a s IH]; [reflexivity|]. cbn [mapBytes isASCII]. rewrite IH.
  f_equal. destruct (case_cases a) as [-> | (H1 & H2 & _)]; [reflexivity|].
  unfold isASCIIByte. rewrite (proj2 (N.ltb_lt _ _) H1), (proj2 (N.ltb_lt _ _) H2).
  reflexivity.
Qed.

Lemma case_upper (s : string) :
  mapBytes upperByte (mapBytes f s) = mapBytes upperByte s.
Proof.
  induction s as [|a s IH]; [reflexivity|]. cbn [mapBytes]. rewrite IH, Hup.
  reflexivity.
Qed.

Lemma case_commandOf `{!GoRuntime} (line : string) :
  isASCII (firstField (TrimSpace line)) = true ->
  commandOf (mapBytes f line) = commandOf line.
Proof.
  intros Ha. unfold commandOf, ToUpper.
  rewrite case_TrimSpace, case_firstField, case_isASCII, Ha. apply case_upper.
Qed.

End CaseMap.

Lemma lowerByte_case (a : ascii) :
  Ascii.eqb (lowerByte a) a
  || (isASCIIByte a && isASCIIByte (lowerByte a)
      && negb (isASCIISpace a) && negb (isASCIISpace (lowerByte a))
      && negb (byte a =? 32)%N && negb (byte (lowerByte a) =? 32)%N) = true.
Proof. destruct a as [[] [] [] [] [] [] [] []]; vm_compute; reflexivity. Qed.

Lemma upperByte_case (a : ascii) :
  Ascii.eqb (upperByte a) a
  || (isASCIIByte a && isASCIIByte (upperByte a)
      && negb (isASCIISpace a) && negb (isASCIISpace (upperByte a))
      && negb (byte a =? 32)%N && negb (byte (upperByte a) =? 32)%N) = true.
Proof. destruct a as [[] [] [] [] [] [] [] []]; vm_compute; reflexivity. Qed.

Lemma upperByte_lowerByte (a : ascii) : upperByte (lowerByte a) = upperByte a.
Proof. destruct a as [[] [] [] [] [] [] [] []]; vm_compute; reflexivity. Qed.

Lemma upperByte_upperByte (a : ascii) : upperByte (upperByte a) = upperByte a.
Proof. destruct a as [[] [] [] [] [] [] [] []]; vm_compute; reflexivity. Qed.

Section CommandCase.
Context {I W : Type} `{!Discovery I} `{!Writer W} `{!GoRuntime}.

(** Apart from HELLO, which reads its payload from the line, a command
    is served by its command word alone. *)
Lemma runCommand_by_word (l1 l2 : string) (d : Server I W) :
  commandOf l1 = commandOf l2 -> commandOf l1 <> "HELLO" ->
  runCommand l1 d = runCommand l2 d.
Proof.
  intros Heq Hne. unfold runCommand. fold (commandOf l1) (commandOf l2).
  rewrite <- Heq. apply String.eqb_neq in Hne.
  unfold bind at 1 3. unfold get. rewrite Hne. reflexivity.
Qed.

(** Property X23. The command word is read without regard to the case
    of ASCII letters: a line and the same line in lower or in upper
    case have the same command, and, except for HELLO (whose payload is
    taken from the line as written), the server does the same on
    them. *)
Theorem commandOf_ignores_case (line : string) :
  isASCII (firstField (TrimSpace line)) = true ->
  commandOf (mapBytes lowerByte line) = commandOf line
  /\ commandOf (mapBytes upperByte line) = commandOf line
  /\ (commandOf line <> "HELLO" ->
      forall d : Server I W,
        runCommand (mapBytes lowerByte line) d = runCommand line d
        /\ runCommand (mapBytes upperByte line) d = runCommand line d).
Proof.
  intros Ha.
  pose proof (case_commandOf lowerByte lowerByte_case upperByte_lowerByte line Ha) as Hl.
  pose proof (case_commandOf upperByte upperByte_case upperByte_upperByte line Ha) as Hu.
  split; [exact Hl|]. split; [exact Hu|].
  intros Hne d. split; apply runCommand_by_word; congruence.
Qed.

End CommandCase.

(** * The client: the replies of the server *)

Module ClientReplies.
Import DiscoveryClient ClientFacts.

Section Replies.
Context {P : Type} `{!Writer P} `{!GoRuntime}.
Implicit Types (d : Client P).

(** Property X25. What the server replies reaches the consumer of the
    client: the ports of a [list] reply are the result of [List], the
    message of an error reply comes back as
    ["command failed: " + message], a [start] reply with [OK] makes
    [Start] return nil, and a [command_error] reply is reported as an
    event out of sync. *)
Theorem server_replies_reach_the_consumer d (ports : list Port) (e : string) :
  reliable P -> is_Some (outgoingCommandsPipe d) ->
  (exists d', List (RecvMsg (Some (asReceived (listMessage ports)))) d
              = Done (ports, None) d')
  /\ (exists d', List (RecvMsg (Some (asReceived (messageError "list" e)))) d
                 = Done ([], Some ("command failed: " +:+ e)) d')
  /\ (exists d', Start (RecvMsg (Some (asReceived (messageOk "start")))) d
                 = Done None d')
  /\ (exists d', Start (RecvMsg (Some (asReceived (messageError "start" e)))) d
                 = Done (Some ("command failed: " +:+ e)) d')
  /\ (exists d', Start (RecvMsg (Some (asReceived
                                         (messageError "command_error" e)))) d
                 = Done (Some ("event out of sync, expected 'start', received '"
                                 +:+ "command_error" +:+ "'")) d').
Proof.
  intros Hw [w Hp].
  destruct (sendCommand_reliable d ("LIST" +:+ NL) w Hw Hp) as [w1 Hs1].
  destruct (sendCommand_reliable d ("START" +:+ NL) w Hw Hp) as [w2 Hs2].
  unfold List, Start. unfold bind. rewrite Hs1, Hs2.
  repeat split; eexists; reflexivity.
Qed.

(** Property X26. When a step of [runProcess] fails, [Run] returns
    that error at once: no command is written, nothing is killed, no
    lock is taken, and the process, the slot and the channels are as
    before. *)
Theorem run_reports_spawn_failure d (sp : Spawn) (stdin : P) (sel : Select)
    (e : string) :
  firstError sp = Some e ->
  exists d',
    Run sp stdin sel d = Done (Some e) d'
    /\ trace d' = trace d /\ process d' = process d /\ child d' = child d
    /\ eventChan d' = eventChan d /\ chans d' = chans d
    /\ statusMutex d' = statusMutex d.
Proof.
  unfold firstError, Run, runProcess. unfold bind at 1.
  destruct (newProcessErr sp) as [e1|].
  { intros [= ->]. exists d. auto 10. }
  destruct (stdoutPipeErr sp) as [e2|].
  { intros [= ->]. exists d. auto 10. }
  destruct (stdinPipeErr sp) as [e3|].
  { intros [= ->]. exists d. auto 10. }
  intros ->. go_unfold. eexists. split; [reflexivity|]. auto 10.
Qed.

End Replies.
End ClientReplies.

(** * The example implementation behind the server *)

Lemma dummy_StartSync (i : dummyDiscovery) :
  0 <= startSyncCount i < 2 ^ 63 - 1 ->
  StartSync i
  = if (startSyncCount i + 1) mod 5 =? 0
    then (Some "could not start_sync every 5 times", [],
          mkDummy (startSyncCount i + 1) (closeChan i))
    else (None, [], mkDummy (startSyncCount i + 1) true).
Proof.
  intros Hn. cbn [StartSync dummy_Discovery].
  assert (Hw : wrap64 (startSyncCount i + 1) = startSyncCount i + 1).
  { unfold wrap64. rewrite Z.mod_small by lia. lia. }
  cbv zeta. rewrite Hw, Z.rem_mod_nonneg by lia. reflexivity.
Qed.

Section Dummy.
Context {W : Type} `{!Writer W} `{!GoRuntime}.
Implicit Types (d : Server dummyDiscovery W).

(** Property X27. Behind the server the example implementation
    refuses every fifth START or START_SYNC, counted together: the
    server answers ["Cannot START: could not start_sync every 5 times"]
    (or the same for START_SYNC) and stays in neither mode; every
    other call is answered with OK and enters the mode. *)
Theorem dummy_refuses_every_fifth_start d :
  reliable W -> encoderTotal -> is_Some (output d) ->
  started d = false -> syncStarted d = false ->
  0 <= startSyncCount (impl d) < 2 ^ 63 - 1 ->
  (exists d',
     start d = Done tt d'
     /\ startSyncCount (impl d') = startSyncCount (impl d) + 1
     /\ if (startSyncCount (impl d) + 1) mod 5 =? 0
        then started d' = false
             /\ emitted d' = emitted d
                  ++ [messageError "start"
                        "Cannot START: could not start_sync every 5 times"]
        else started d' = true /\ emitted d' = emitted d ++ [messageOk "start"]
             /\ cachedPorts d' = Some ∅)
  /\ (exists d',
        startSync d = Done tt d'
        /\ startSyncCount (impl d') = startSyncCount (impl d) + 1
        /\ if (startSyncCount (impl d) + 1) mod 5 =? 0
           then syncStarted d' = false
                /\ emitted d' = emitted d
                     ++ [messageError "start_sync"
                           "Cannot START_SYNC: could not start_sync every 5 times"]
           else syncStarted d' = true
                /\ emitted d' = emitted d ++ [messageOk "start_sync"]).
Proof.
  intros Hw Henc Ho Hst Hsy Hn.
  pose proof (dummy_StartSync (impl d) Hn) as Hd.
  destruct ((startSyncCount (impl d) + 1) mod 5 =? 0); split.
  - destruct (start_outcome Hw Henc d [] _ _ Ho Hst Hsy Hd)
      as (d' & Hrun & Hem & Hs & _ & _ & Hi & _).
    exists d'. rewrite Hi. auto.
  - destruct (startSync_outcome Hw Henc d [] _ _ Ho Hst Hsy Hd)
      as (d' & Hrun & Hem & Hs & Hi & _).
    exists d'. rewrite Hi. auto.
  - destruct (start_outcome Hw Henc d [] _ _ Ho Hst Hsy Hd)
      as (d' & Hrun & Hem & Hs & Hc & _ & Hi & _).
    exists d'. rewrite Hi. auto.
  - destruct (startSync_outcome Hw Henc d [] _ _ Ho Hst Hsy Hd)
      as (d' & Hrun & Hem & Hs & Hi & _).
    exists d'. rewrite Hi. auto.
Qed.

End Dummy.

(** * The further statements at work on concrete sessions *)

Lemma freshServer_consistent : consistent freshServer.
Proof. unfold consistent. cbn. repeat split; discriminate. Qed.

(** The lifecycle from a server that has just been given its output. *)
Lemma lifecycle_witness :
  consistent freshServer
  /\ (forall (line : string) d',
        final (runCommand line freshServer) = Some d' ->
        consistent d'
        /\ lifecycle (phaseOf freshServer) (commandOf line) (phaseOf d'))
  /\ (forall (c : Callback) d',
        final (invoke c freshServer) = Some d' ->
        consistent d' /\ phaseOf d' = phaseOf freshServer).
Proof.
  split; [exact freshServer_consistent|].
  apply (commands_follow_lifecycle freshServer). exact freshServer_consistent.
Defined.

(** HELLO, START and a polling callback without a port: the server
    panics in a consistent state. *)
Lemma flags_consistent_witness :
  exists d',
    final (Run [Line ("HELLO 1 " +:+ QUOTE +:+ "arduino-cli" +:+ QUOTE +:+ NL);
                Line ("START" +:+ NL);
                Async (CbEventCallback "add" None)]
             "EOF" "" (NewServer (mkScripted None None [] None 0))) = Some d'
    /\ started d' = true
    /\ consistent d'
    /\ forall (more : list Input) d'',
         final (runLoop more "EOF" d') = Some d'' -> consistent d''.
Proof.
  eexists. split; [vm_compute; reflexivity|]. split; [reflexivity|].
  apply (run_keeps_flags_consistent (mkScripted None None [] None 0) ""
           [Line ("HELLO 1 " +:+ QUOTE +:+ "arduino-cli" +:+ QUOTE +:+ NL);
            Line ("START" +:+ NL);
            Async (CbEventCallback "add" None)] "EOF").
  vm_compute. reflexivity.
Defined.

(** A HELLO that asks for version 42 is answered with version 1. *)
Lemma hello_version_witness :
  exists d',
    runCommand ("HELLO " +:+ helloPayload "42" "arduino-cli 1.0" +:+ NL) freshServer
    = Done Continue d'
    /\ emitted d' = emitted freshServer
         ++ [{| EventType := "hello"; Message := "OK"; Error := false;
                ProtocolVersion := 1; mPort := None; Ports := None |}]
    /\ initialized d' = true
    /\ userAgent d' = "arduino-cli 1.0" /\ reqProtocolVersion d' = 42
    /\ impl d' = impl freshServer
    /\ started d' = started freshServer /\ syncStarted d' = syncStarted freshServer.
Proof.
  apply (hello_negotiates_version_one Buffer_reliable example_encoderTotal
           freshServer "42" "arduino-cli 1.0" 42 None (impl freshServer)).
  - eexists; reflexivity.
  - reflexivity.
  - reflexivity.
  - reflexivity.
  - reflexivity.
  - reflexivity.
Defined.


(** STOP on an implementation that refuses to stop. *)
Lemma stop_failure_witness :
  exists d',
    stop stubbornServer = Done tt d'
    /\ emitted d' = emitted stubbornServer
         ++ [messageError "stop" ("Cannot STOP: " +:+ "busy")]
    /\ impl d' = impl stubbornServer
    /\ (started d' = started stubbornServer
        /\ syncStarted d' = syncStarted stubbornServer)
    /\ cachedPorts d' = cachedPorts stubbornServer
    /\ cachedErr d' = cachedErr stubbornServer.
Proof.
  apply (stop_leaves_mode_on_failure Buffer_reliable example_encoderTotal
           stubbornServer (Some "busy") (impl stubbornServer)).
  - eexists; reflexivity.
  - left. reflexivity.
  - reflexivity.
Defined.

(** An error of the implementation, a port, and LIST. *)
Lemma masked_list_witness :
  exists d',
    runLoop (Async (CbErrorCallback "unrecoverable error, cannot send more events")
               :: map asInput [EvAdd dummyPort] ++ Line ("LIST" +:+ NL) :: [])
      "EOF" pollingServer
    = runLoop [] "EOF" d'
    /\ emitted d' = emitted pollingServer
         ++ [messageError "list" "unrecoverable error, cannot send more events"]
    /\ cachedErr d' = "unrecoverable error, cannot send more events"
    /\ started d' = true
    /\ cachedPorts d' = Some (foldl applyEvent ∅ [EvAdd dummyPort]).
Proof.
  apply (reported_error_masks_list Buffer_reliable example_encoderTotal pollingServer
           "unrecoverable error, cannot send more events" [EvAdd dummyPort] [] "EOF" ∅).
  - eexists; reflexivity.
  - reflexivity.
  - reflexivity.
  - reflexivity.
  - reflexivity.
  - discriminate.
Defined.

(** The same port reported twice and an error, on a server that was
    never put in event mode. *)
Lemma sync_forward_witness :
  exists d',
    runLoop (map asSyncInput [CallEvent "add" (Some dummyPort);
                              CallEvent "add" (Some dummyPort);
                              CallError "lost"] ++ [])
      "EOF" freshServer
    = runLoop [] "EOF" d'
    /\ emitted d' = emitted freshServer
         ++ map callMessage [CallEvent "add" (Some dummyPort);
                             CallEvent "add" (Some dummyPort);
                             CallError "lost"]
    /\ session d' = session freshServer /\ impl d' = impl freshServer
    /\ is_Some (output d').
Proof.
  apply (sync_callbacks_forwarded Buffer_reliable example_encoderTotal freshServer).
  eexists; reflexivity.
Defined.

Lemma dummyServer_consistent : consistent dummyServer.
Proof. unfold consistent. cbn. repeat split; discriminate. Qed.

Lemma dummy_hasPort (i : dummyDiscovery) : Forall hasPort (syncCallsOf i).
Proof.
  unfold syncCallsOf. cbn [StartSync dummy_Discovery].
  destruct (Z.rem (wrap64 (startSyncCount i + 1)) 5 =? 0); constructor.
Qed.

(** A session over the example implementation that ends with QUIT, and
    one that ends with the input. *)
Lemma run_returns_witness :
  (exists r d',
     runLoop [Line ("START" +:+ NL); Async (CbErrorEvent "late");
              Line ("quit" +:+ NL); Line ("LIST" +:+ NL)] "EOF" dummyServer
     = Done r d'
     /\ (r = None
         <-> Exists isQuit [Line ("START" +:+ NL); Async (CbErrorEvent "late");
                            Line ("quit" +:+ NL); Line ("LIST" +:+ NL)])
     /\ (r = None \/ r = Some "EOF"))
  /\ Exists isQuit [Line ("START" +:+ NL); Async (CbErrorEvent "late");
                    Line ("quit" +:+ NL); Line ("LIST" +:+ NL)].
Proof.
  split.
  - apply (run_returns_nil_exactly_on_quit Buffer_reliable example_encoderTotal
             dummyServer).
    + exact dummyServer_consistent.
    + eexists; reflexivity.
    + exact dummy_hasPort.
    + repeat constructor.
  - apply Exists_cons_tl, Exists_cons_tl, Exists_cons_hd. reflexivity.
Defined.

(** The version of a HELLO: every run of digits parses, up to the range. *)
Lemma ParseInt_witness :
  exists v,
    digitsValue 0 "18446744073709551616" = Some v /\ 0 <= v
    /\ ParseInt "18446744073709551616" = (if v <? 2 ^ 63 then inl v else inr ErrRange).
Proof. apply (ParseInt_on_digits "18446744073709551616"). reflexivity. Defined.

(** A HELLO whose agent is not quoted. *)
Lemma malformed_hello_witness :
  exists d',
    hello "1 arduino-cli" freshServer = Done tt d'
    /\ replied freshServer (messageError "hello" "Invalid HELLO command") d'.
Proof.
  apply (hello_rejects_malformed_payload freshServer "1 arduino-cli").
  - exact Buffer_reliable.
  - apply example_encoderTotal.
  - eexists; reflexivity.
  - reflexivity.
  - intros digits agent Hd Ha Heq.
    pose proof (helloRe_payload digits agent Hd Ha) as Hre.
    rewrite <- Heq in Hre. vm_compute in Hre. discriminate Hre.
Defined.

Section ClientWitnesses.
Import DiscoveryClient.

Lemma ChunkPipe_takesPrefix : takesPrefix ChunkPipe taken.
Proof.
  intros w data. eexists _, _. split; [reflexivity|]. cbn [taken].
  unfold len. split; [lia|]. split; [|reflexivity].
  intros Hne. destruct data as [|a data]; [contradiction|].
  cbn [String.length]. lia.
Qed.

(** START_SYNC written two bytes at a time. *)
Lemma short_writes_witness :
  exists w',
    sendCommand ("START_SYNC" +:+ NL) chunkedClient
    = Done None (set_outgoingCommandsPipe (Some w')
                   (set_trace (trace chunkedClient
                                 ++ [ACommand ("START_SYNC" +:+ NL)]) chunkedClient))
    /\ taken w' = taken (mkChunkPipe 2 "") +:+ ("START_SYNC" +:+ NL).
Proof.
  apply (ClientOps.sendCommand_survives_short_writes taken ("START_SYNC" +:+ NL)
           chunkedClient (mkChunkPipe 2 "")).
  - exact ChunkPipe_takesPrefix.
  - reflexivity.
Defined.

(** An event, a reply and another event, with a channel in the slot. *)
Lemma demultiplex_witness :
  exists d',
    jsonDecodeLoop (map DecMsg [addMessage; helloReply; removeMessage]) syncingClient
    = Done tt d'
    /\ incoming d' = incoming syncingClient
         ++ omap replyOf [addMessage; helloReply; removeMessage]
    /\ eventChan d' = eventChan syncingClient
    /\ match eventChan syncingClient with
       | Some c =>
           exists ch,
             chans syncingClient !! c = Some ch
             /\ chans d'
                = <[c := mkChan (capacity ch)
                           (queue ch ++ omap (eventOf (id syncingClient))
                                          [addMessage; helloReply; removeMessage])
                           false]> (chans syncingClient)
       | None => chans d' = chans syncingClient
       end.
Proof.
  apply (ClientOps.decode_loop_demultiplexes
           [addMessage; helloReply; removeMessage] syncingClient).
  - reflexivity.
  - reflexivity.
  - intros c [= <-]. reflexivity.
  - repeat constructor.
Defined.

(** What the witness above says in full. *)
Example demultiplex_example :
  omap replyOf [addMessage; helloReply; removeMessage] = [helloReply]
  /\ omap (eventOf "dummy") [addMessage; helloReply; removeMessage]
     = [addEvent; removeEvent].
Proof. split; reflexivity. Qed.


(** START, STOP and LIST after the channel of incoming messages was
    closed without an error. *)
Lemma after_exit_witness :
  (exists d', Start (RecvMsg None) startedClient
              = Panic "invalid memory address or nil pointer dereference" d')
  /\ (exists d', Stop (RecvMsg None) startedClient
                 = Panic "invalid memory address or nil pointer dereference" d')
  /\ (exists d', List (RecvMsg None) startedClient
                 = Panic "invalid memory address or nil pointer dereference" d').
Proof.
  apply (ClientOps.commands_after_decoder_exit startedClient).
  - exact Buffer_reliable.
  - eexists; reflexivity.
Defined.



Lemma stopReply_ok : stopOk stopReply.
Proof. repeat split. Qed.

(** STOP that the child confirms. *)
Lemma stop_witness :
  stopOk stopReply
  /\ exists d',
       Stop (RecvMsg (Some stopReply)) syncingClient = Done None d'
       /\ allClosed d' /\ statusMutex d' = false
       /\ (forall c ch, eventChan syncingClient = Some c ->
             chans syncingClient !! c = Some ch ->
             chans d' !! c
             = Some (mkChan (capacity ch) (queue ch ++ [stopEvent syncingClient]) true)).
Proof.
  split; [exact stopReply_ok|].
  apply (ClientOps.stop_closes_event_channel syncingClient stopReply).
  - exact Buffer_reliable.
  - eexists; reflexivity.
  - reflexivity.
  - exact syncingClient_oneActive.
  - exact stopReply_ok.
Defined.

(** START_SYNC without an answer. *)
Lemma startSync_failure_witness :
  exists e d',
    StartSync 8 TimeAfter syncingClient = Done (None, Some e) d'
    /\ eventChan d' = eventChan syncingClient /\ chans d' = chans syncingClient
    /\ statusMutex d' = false.
Proof.
  apply (ClientOps.startSync_failure_keeps_channel syncingClient 8 TimeAfter).
  - exact Buffer_reliable.
  - eexists; reflexivity.
  - reflexivity.
  - left. reflexivity.
Defined.



(** The replies of the server to LIST and START, read by the client. *)
Lemma replies_witness :
  (exists d', List (RecvMsg (Some (asReceived (listMessage [dummyPort])))) startedClient
              = Done ([dummyPort], None) d')
  /\ (exists d', List (RecvMsg (Some (asReceived (messageError "list" "lost"))))
                   startedClient
                 = Done ([], Some ("command failed: " +:+ "lost")) d')
  /\ (exists d', Start (RecvMsg (Some (asReceived (messageOk "start")))) startedClient
                 = Done None d')
  /\ (exists d', Start (RecvMsg (Some (asReceived (messageError "start" "lost"))))
                   startedClient
                 = Done (Some ("command failed: " +:+ "lost")) d')
  /\ (exists d', Start (RecvMsg (Some (asReceived
                                         (messageError "command_error" "lost"))))
                   startedClient
                 = Done (Some ("event out of sync, expected 'start', received '"
                                 +:+ "command_error" +:+ "'")) d').
Proof.
  apply (ClientReplies.server_replies_reach_the_consumer startedClient [dummyPort] "lost").
  - exact Buffer_reliable.
  - eexists; reflexivity.
Defined.

(** The executable of the discovery is missing. *)
Lemma spawn_failure_witness :
  exists d',
    Run (mkSpawn (Some "exec: not found") None None None) "" TimeAfter newClient
    = Done (Some "exec: not found") d'
    /\ trace d' = trace newClient /\ process d' = process newClient
    /\ child d' = child newClient
    /\ eventChan d' = eventChan newClient /\ chans d' = chans newClient
    /\ statusMutex d' = statusMutex newClient.
Proof.
  apply (ClientReplies.run_reports_spawn_failure newClient
           (mkSpawn (Some "exec: not found") None None None) "" TimeAfter
           "exec: not found").
  reflexivity.
Defined.

End ClientWitnesses.



(** The two ports of the example store. *)
Lemma Equals_witness :
  PortStore.Equals (Some 0%nat) (Some 0%nat) exampleHeap = Done true exampleHeap
  /\ PortStore.Equals (Some 0%nat) (Some 1%nat) exampleHeap
     = PortStore.Equals (Some 1%nat) (Some 0%nat) exampleHeap
  /\ (PortStore.Equals (Some 0%nat) (Some 1%nat) exampleHeap = Done true exampleHeap ->
      PortStore.Equals (Some 1%nat) (Some 0%nat) exampleHeap = Done true exampleHeap ->
      PortStore.Equals (Some 0%nat) (Some 0%nat) exampleHeap = Done true exampleHeap)
  /\ PortStore.Equals None (Some 0%nat) exampleHeap
     = Panic "invalid memory address or nil pointer dereference" exampleHeap
  /\ PortStore.Equals (Some 0%nat) None exampleHeap
     = Panic "invalid memory address or nil pointer dereference" exampleHeap.
Proof.
  apply (PortLaws.Equals_is_an_equivalence exampleHeap 0%nat 1%nat 0%nat
           dummyPort secondPort dummyPort); reflexivity.
Defined.

(** The second port of the example store and its clone. *)
Lemma clone_equals_witness :
  (exists (r : nat) (h' : PortStore.Heap),
     PortStore.Clone (Some 1%nat) exampleHeap = Done (Some r) h'
     /\ PortStore.Equals (Some 1%nat) (Some r) h' = Done true h'
     /\ PortStore.Equals (Some r) (Some 1%nat) h' = Done true h'
     /\ length (PortStore.ports h') = S (length (PortStore.ports exampleHeap)))
  /\ PortStore.Clone None exampleHeap = Done None exampleHeap.
Proof.
  apply (PortLaws.clone_equals_original exampleHeap 1%nat secondPort).
  - reflexivity.
  - intros m [= <-]. eexists. reflexivity.
Defined.

(** A command in mixed case. *)
Lemma command_case_witness :
  commandOf (mapBytes lowerByte (" Start_Sync now" +:+ NL))
  = commandOf (" Start_Sync now" +:+ NL)
  /\ commandOf (mapBytes upperByte (" Start_Sync now" +:+ NL))
     = commandOf (" Start_Sync now" +:+ NL)
  /\ (commandOf (" Start_Sync now" +:+ NL) <> "HELLO" ->
      forall d : Server Scripted string,
        runCommand (mapBytes lowerByte (" Start_Sync now" +:+ NL)) d
        = runCommand (" Start_Sync now" +:+ NL) d
        /\ runCommand (mapBytes upperByte (" Start_Sync now" +:+ NL)) d
           = runCommand (" Start_Sync now" +:+ NL) d).
Proof.
  apply (commandOf_ignores_case (" Start_Sync now" +:+ NL)). reflexivity.
Defined.

(** The fifth call of [StartSync] of the example implementation. *)
Lemma dummy_fifth_start_witness :
  (exists d',
     start dummyServer = Done tt d'
     /\ startSyncCount (impl d') = startSyncCount (impl dummyServer) + 1
     /\ if (startSyncCount (impl dummyServer) + 1) mod 5 =? 0
        then started d' = false
             /\ emitted d' = emitted dummyServer
                  ++ [messageError "start"
                        "Cannot START: could not start_sync every 5 times"]
        else started d' = true /\ emitted d' = emitted dummyServer ++ [messageOk "start"]
             /\ cachedPorts d' = Some ∅)
  /\ (exists d',
        startSync dummyServer = Done tt d'
        /\ startSyncCount (impl d') = startSyncCount (impl dummyServer) + 1
        /\ if (startSyncCount (impl dummyServer) + 1) mod 5 =? 0
           then syncStarted d' = false
                /\ emitted d' = emitted dummyServer
                     ++ [messageError "start_sync"
                           "Cannot START_SYNC: could not start_sync every 5 times"]
           else syncStarted d' = true
                /\ emitted d' = emitted dummyServer ++ [messageOk "start_sync"]).
Proof.
  apply (dummy_refuses_every_fifth_start dummyServer).
  - exact Buffer_reliable.
  - exact example_encoderTotal.
  - eexists; reflexivity.
  - reflexivity.
  - reflexivity.
  - cbn. lia.
Defined.

(** Five START commands with STOP between them on the example
    implementation: the fifth is refused. *)
Example dummy_five_starts :
  match runLoop (map Line ["START" +:+ NL; "STOP" +:+ NL; "START" +:+ NL;
                           "STOP" +:+ NL; "START" +:+ NL; "STOP" +:+ NL;
                           "START" +:+ NL; "STOP" +:+ NL; "START" +:+ NL])
          "EOF"
          (set_initialized true (set_output (Some "") (NewServer (mkDummy 0 false))))
  with
  | Done r d' =>
      map Error (emitted d')
      = [false; false; false; false; false; false; false; false; true; true]
      /\ last (removelast (emitted d'))
         = Some (messageError "start"
                   "Cannot START: could not start_sync every 5 times")
      /\ started d' = false
  | _ => False
  end.
Proof. vm_compute. repeat split; reflexivity. Qed.
